(** * BehavPreprocess: a shallow embedding of [scripts/BehavPreprocess.py]

    The constructor [BehavPreprocess.__init__] is a single-pass pipeline over
    a list of experiments (CSV recordings).  It is embedded as a program in a
    small state-and-exception monad over a store of Python list objects and
    NumPy arrays, so that the aliasing of [smooth_exp_list] with
    [exp_eeg_list] and of [norm_wav_exp_list] with [wav_exp_list] is the
    aliasing of the source.  Floating-point values are IEEE binary64
    ([PrimFloat.float]), integers are [Z] with Python's floor division.

    What the module imports and does not define (pandas' reader, NumPy's
    reductions, SciPy's Savitzky-Golay filter, the wavelet transform
    [find_wav], scikit-image's [threshold_otsu], the [Behav] enumeration and
    the ground-truth table of [behav_annotation], the electrode names of
    [headband_setup]) are the fields of the class [Externals]: the theorems
    hold for every instance.

    The methods [_len_], [_get_item_] and [_get_data_] are embedded as pure
    functions of the constructed object.

    Left out: the [print] statements and the count of NaN values (lines
    74-81), the timing (lines 60 and 180) and the module-level electrode
    masks (lines 27-30), none of which the constructed object keeps, and
    the method [_get_mean_], which works on a file of its own.  Assumed:
    every path can be read, the cells of a recording are floats, and the
    values of the members of [Behav] are integers.  The label vectors are
    [np.int64] arrays: a value out of the 64-bit range written into one
    raises.  Whether NumPy defines [np.int] (lines 131 and 133; it does
    before version 1.24) is a field of [Externals]. *)

From Stdlib Require Import ZArith List String Floats Bool Lia.
From stdpp Require Import base tactics option list.
Import ListNotations.

Local Open Scope Z_scope.

(** ** Exceptions and results *)

Inductive error : Type :=
| AssertionError (msg : string)
| IndexError
| ValueError
| KeyError
| ZeroDivisionError
| AttributeError
| TypeError
| OverflowError.

(** A pure computation that may raise. *)
Inductive result (A : Type) : Type :=
| Ok (a : A)
| Raise (e : error).
Arguments Ok {A} a.
Arguments Raise {A} e.

Definition rbind {A B : Type} (m : result A) (k : A -> result B) : result B :=
  match m with
  | Ok a => k a
  | Raise e => Raise e
  end.

Notation "'try' x := m 'in' k" := (rbind m (fun x => k))
  (at level 10, x pattern, m at level 100, k at level 200).

Definition assert (b : bool) (msg : string) : result unit :=
  if b then Ok tt else Raise (AssertionError msg).

(** [for x in xs: body(x)] for a body that updates [x] in place, as a map. *)
Fixpoint rmap {A B : Type} (body : A -> result B) (xs : list A) : result (list B) :=
  match xs with
  | [] => Ok []
  | x :: xs' => try y := body x in try ys := rmap body xs' in Ok (y :: ys)
  end.

(** Monadic left fold: [for x in xs: s = body(s, x)]. *)
Fixpoint rfold {S A : Type} (body : S -> A -> result S) (xs : list A) (s : S)
  : result S :=
  match xs with
  | [] => Ok s
  | x :: xs' => try s' := body s x in rfold body xs' s'
  end.

(** ** Python and NumPy primitives *)

(** [range(a, b)] over Python integers. *)
Definition py_range (a b : Z) : list Z :=
  map (fun k => a + Z.of_nat k) (seq 0 (Z.to_nat (b - a))).

(** A slice bound [i] resolved against a sequence of length [n]: negative
    bounds count from the end, everything is clipped to [0, n]. *)
Definition slice_bound (n : nat) (i : Z) : nat :=
  Z.to_nat (if i <? 0 then Z.max (i + Z.of_nat n) 0 else Z.min i (Z.of_nat n)).

(** [l[start:stop]] *)
Definition py_slice {A : Type} (l : list A) (start stop : Z) : list A :=
  let a := slice_bound (length l) start in
  let b := slice_bound (length l) stop in
  take (b - a) (drop a l).

(** [l[a:b] = v] for resolved bounds and a scalar [v]. *)
Definition fill_slice {A : Type} (l : list A) (a b : nat) (v : A) : list A :=
  imap (fun i x => if (a <=? i)%nat && (i <? b)%nat then v else x) l.

(** A Python integer stored into an [np.int64] array: a value out of the
    range of 64-bit integers raises. *)
Definition int64_min : Z := - 2 ^ 63.
Definition int64_max : Z := 2 ^ 63 - 1.

Definition to_int64 (v : Z) : result Z :=
  if (int64_min <=? v) && (v <=? int64_max) then Ok v else Raise OverflowError.

(** [d[:] = v] on a one-dimensional [np.int64] array: the value is converted
    whatever the length of the array. *)
Definition fill (d : list Z) (v : Z) : result (list Z) :=
  try x := to_int64 v in Ok (map (fun _ => x) d).

(** [d[i] = v] on a one-dimensional [np.int64] array with a Python integer
    index: the index is resolved, then the value converted. *)
Definition set_item (d : list Z) (i : Z) (v : Z) : result (list Z) :=
  let n := Z.of_nat (length d) in
  if (i <? - n) || (n <=? i) then Raise IndexError
  else try x := to_int64 v in
       Ok (<[Z.to_nat (if i <? 0 then i + n else i) := x]> d).

(** [d[mask] = v] on a one-dimensional [np.int64] array with a boolean mask:
    the mask must have the array's length, and the value is converted
    whether or not the mask selects an entry. *)
Definition set_masked (d : list Z) (mask : list bool) (v : Z)
  : result (list Z) :=
  if (length mask =? length d)%nat
  then try x := to_int64 v in
       Ok (zip_with (fun (m : bool) y => if m then x else y) mask d)
  else Raise IndexError.

(** [d[mask]] with a boolean mask. *)
Fixpoint select {A : Type} (mask : list bool) (d : list A) : list A :=
  match mask, d with
  | m :: mask', x :: d' => if m then x :: select mask' d' else select mask' d'
  | _, _ => []
  end.

Definition get_masked {A : Type} (d : list A) (mask : list bool)
  : result (list A) :=
  if (length mask =? length d)%nat then Ok (select mask d) else Raise IndexError.

(** [np.concatenate(xs, axis=0)] on one-dimensional arrays. *)
Definition concatenate {A : Type} (xs : list (list A)) : result (list A) :=
  match xs with
  | [] => Raise ValueError
  | _ => Ok (concat xs)
  end.

(** [sub in s] on strings. *)
Fixpoint str_in (sub s : string) : bool :=
  String.prefix sub s ||
  match s with
  | EmptyString => false
  | String _ s' => str_in sub s'
  end.

(** A two-dimensional float64 array of shape [(shape0, shape1)], stored by
    rows.  [shape1] is kept explicitly: an array may have no row. *)
Record ndarray : Type := NdArray {
  rows : list (list float);
  shape1 : nat
}.

Definition shape0 (a : ndarray) : nat := length (rows a).

Definition nd_wf (a : ndarray) : Prop :=
  Forall (fun r => length r = shape1 a) (rows a).

(** [np.zeros((m, n))] *)
Definition np_zeros (m n : nat) : ndarray :=
  NdArray (replicate m (replicate n 0%float)) n.

(** [np.zeros_like(a)] *)
Definition np_zeros_like (a : ndarray) : ndarray :=
  np_zeros (shape0 a) (shape1 a).

Definition column (a : ndarray) (j : nat) : list float :=
  map (fun r => nth j r 0%float) (rows a).

Definition columns (a : ndarray) : list (list float) :=
  map (column a) (seq 0 (shape1 a)).

(** [np.transpose(a)] *)
Definition np_transpose (a : ndarray) : ndarray :=
  NdArray (columns a) (shape0 a).

(** [a[i, :]] *)
Definition get_row (a : ndarray) (i : nat) : result (list float) :=
  match rows a !! i with
  | Some r => Ok r
  | None => Raise IndexError
  end.

(** A vector assigned to a row of length [n] must have length [n], or
    length one, in which case it is broadcast. *)
Definition broadcast_to (n : nat) (v : list float) : result (list float) :=
  if (length v =? n)%nat then Ok v
  else match v with
       | [x] => Ok (replicate n x)
       | _ => Raise ValueError
       end.

(** [a[i, :] = v] *)
Definition set_row (a : ndarray) (i : nat) (v : list float) : result ndarray :=
  match rows a !! i with
  | None => Raise IndexError
  | Some _ =>
      try v' := broadcast_to (shape1 a) v in
      Ok (NdArray (<[i := v']> (rows a)) (shape1 a))
  end.

(** [a[:, mask]] *)
Definition mask_columns (a : ndarray) (mask : list bool) : result ndarray :=
  if (length mask =? shape1 a)%nat
  then Ok (NdArray (map (select mask) (rows a)) (length (select mask mask)))
  else Raise IndexError.

(** [np.concatenate(xs, axis=1)]: all arrays must have the same number of
    rows. *)
Fixpoint hstack (m : nat) (xs : list ndarray) : list (list float) :=
  match xs with
  | [] => replicate m []
  | x :: xs' => zip_with app (rows x) (hstack m xs')
  end.

Definition concatenate_axis1 (xs : list ndarray) : result ndarray :=
  match xs with
  | [] => Raise ValueError
  | x :: _ =>
      if forallb (fun y => (shape0 y =? shape0 x)%nat) xs
      then Ok (NdArray (hstack (shape0 x) xs)
                       (foldr (fun y n => (shape1 y + n)%nat) 0%nat xs))
      else Raise ValueError
  end.

(** [np.logical_or(np.isnan(x), np.isinf(x))] on one entry. *)
Definition not_finite (x : float) : bool :=
  PrimFloat.is_nan x || PrimFloat.is_infinity x.

(** [a[np.logical_or(np.isnan(a), np.isinf(a))] = 0] *)
Definition scrub (a : ndarray) : ndarray :=
  NdArray (map (map (fun x => if not_finite x then 0%float else x)) (rows a))
          (shape1 a).

(** ** The object store

    Python list objects and NumPy arrays live in a store and are named by
    references, so that two names for one object see each other's updates.
    The store keeps list objects and arrays in two tables; a reference is an
    index into its table. *)

Record store : Type := Store {
  st_lists : list (list nat);
  st_arrays : list ndarray
}.

Definition empty_store : store := Store [] [].

(** The outcome of a command: it returns or it raises, and in both cases the
    store is what the command left behind. *)
Inductive outcome (A : Type) : Type :=
| Returned (a : A) (st : store)
| Raised (e : error) (st : store).
Arguments Returned {A} a st.
Arguments Raised {A} e st.

Definition M (A : Type) : Type := store -> outcome A.

Definition ret {A : Type} (a : A) : M A := fun st => Returned a st.

Definition bind {A B : Type} (m : M A) (k : A -> M B) : M B :=
  fun st =>
    match m st with
    | Returned a st' => k a st'
    | Raised e st' => Raised e st'
    end.

Notation "'do' x <- m 'in' k" := (bind m (fun x => k))
  (at level 10, x pattern, m at level 100, k at level 200).

Definition lift {A : Type} (r : result A) : M A :=
  fun st =>
    match r with
    | Ok a => Returned a st
    | Raise e => Raised e st
    end.

(** [for x in xs: body(x)] *)
Fixpoint for_each {A : Type} (xs : list A) (body : A -> M unit) : M unit :=
  match xs with
  | [] => ret tt
  | x :: xs' => do _ <- body x in for_each xs' body
  end.

(** [[body(x) for x in xs]] *)
Fixpoint map_M {A B : Type} (body : A -> M B) (xs : list A) : M (list B) :=
  match xs with
  | [] => ret []
  | x :: xs' => do y <- body x in do ys <- map_M body xs' in ret (y :: ys)
  end.

(** [list()] *)
Definition new_list : M nat :=
  fun st => Returned (length (st_lists st))
                     (Store (st_lists st ++ [[]]) (st_arrays st)).

(** The elements of the list object [l]; a dangling reference is an internal
    error that no well-formed program reaches. *)
Definition list_read (l : nat) : M (list nat) :=
  fun st =>
    match st_lists st !! l with
    | Some xs => Returned xs st
    | None => Raised TypeError st
    end.

Definition list_write (l : nat) (xs : list nat) : M unit :=
  fun st => Returned tt (Store (<[l := xs]> (st_lists st)) (st_arrays st)).

(** [l.append(x)] *)
Definition list_append (l : nat) (x : nat) : M unit :=
  do xs <- list_read l in list_write l (xs ++ [x]).

(** [l[i]] for a natural index *)
Definition list_getitem (l : nat) (i : nat) : M nat :=
  do xs <- list_read l in
  lift (match xs !! i with Some x => Ok x | None => Raise IndexError end).

(** [l[-1]] *)
Definition list_last (l : nat) : M nat :=
  do xs <- list_read l in
  lift (match last xs with Some x => Ok x | None => Raise IndexError end).

(** [l[i] = x] *)
Definition list_setitem (l : nat) (i : nat) (x : nat) : M unit :=
  do xs <- list_read l in
  match xs !! i with
  | Some _ => list_write l (<[i := x]> xs)
  | None => lift (Raise IndexError)
  end.

(** A new array object holding [a]. *)
Definition np_alloc (a : ndarray) : M nat :=
  fun st => Returned (length (st_arrays st))
                     (Store (st_lists st) (st_arrays st ++ [a])).

Definition np_load (r : nat) : M ndarray :=
  fun st =>
    match st_arrays st !! r with
    | Some a => Returned a st
    | None => Raised TypeError st
    end.

(** In-place update of the array object [r]. *)
Definition np_store (r : nat) (a : ndarray) : M unit :=
  fun st => Returned tt (Store (st_lists st) (<[r := a]> (st_arrays st))).

(** ** The collaborators of the module *)

(** A [pandas.DataFrame]: its columns in order, by name. *)
Record DataFrame : Type := { df_columns : list (string * list float) }.

(** [df.size]: the number of cells. *)
Definition df_size (df : DataFrame) : Z :=
  Z.of_nat (foldr (fun c n => (length (snd c) + n)%nat) 0%nat (df_columns df)).

(** [len(df.keys())] *)
Definition df_num_keys (df : DataFrame) : Z :=
  Z.of_nat (length (df_columns df)).

(** [df[name]] *)
Definition df_getitem (df : DataFrame) (name : string) : result (list float) :=
  match find (fun c => String.eqb (fst c) name) (df_columns df) with
  | Some c => Ok (snd c)
  | None => Raise KeyError
  end.

Class Externals : Type := {
  (** [pd.read_csv]: the recording stored at a path. *)
  read_csv : string -> DataFrame;
  (** [headband_setup.electrode_names()] *)
  electrode_names : list string;
  (** [scipy.signal.savgol_filter(x, window_length, polyorder)] *)
  savgol_filter : list float -> Z -> Z -> result (list float);
  (** [np.mean], [np.var], [np.sum] and [max] of a vector, [np.log10] of an
      entry. *)
  np_mean : list float -> float;
  np_var : list float -> float;
  np_sum : list float -> float;
  np_max : list float -> float;
  np_log10 : float -> float;
  (** [find_wav(x, chan, omega0, fps, fmin, fmax)], returning the spectral
      array and the centre frequencies. *)
  find_wav : ndarray -> Z -> Z -> Z -> Z -> Z -> ndarray * list float;
  (** [skimage.filters.threshold_otsu(image, nbins)] *)
  threshold_otsu : list float -> Z -> result float;
  (** Whether NumPy has the attribute [np.int], its alias of [int]: the
      versions before 1.24 do. *)
  np_has_int : bool;
  (** [behav_annotation.Behav], an [Enum], with the [value] of a member. *)
  Behav : Type;
  Behav_value : Behav -> Z;
  Behav_NONE : Behav;
  Behav_REST : Behav;
  Behav_BOUNDARY : Behav;
  (** [behav_annotation.label_gt_list]: (interval, label, folder name). *)
  label_gt_list : list ((Z * Z) * Behav * string)
}.

(** The keyword arguments of [BehavPreprocess.__init__]. *)
Record Args : Type := {
  ti : Z;
  tf : option Z;
  samp_rate : Z;
  min_frequency : Z;
  max_frequency : Z;
  num_channels : Z;
  bound_len : Z;
  clip_len : Z;
  smooth : bool;
  mean_center : bool;
  normalize : bool;
  no_bounds : bool;
  dump_rest : bool
}.

Definition default_args : Args := {|
  ti := 0; tf := None; samp_rate := 220; min_frequency := 1;
  max_frequency := 50; num_channels := 30; bound_len := 50; clip_len := 100;
  smooth := true; mean_center := true; normalize := true;
  no_bounds := false; dump_rest := false
|}.

(** The dictionary [self.preprocess_dict]; the four per-experiment lists are
    references to list objects of the store. *)
Record Bundle : Type := {
  Paths : list string;
  EEG_list : nat;
  Smooth_EEG_list : nat;
  Spect_list : nat;
  Normalized_Spect_list : nat;
  Exp_matrix : ndarray;
  Frame_idx : list Z;
  Experiment_idx : list Z;
  Frame_amps : list float;
  Rest_mask : list (list bool);
  Boundary_mask : list (list bool)
}.

(** The attributes of the constructed object. *)
Record Self : Type := {
  exp_path_list : list string;
  exp_eeg_list : nat;
  smooth_exp_list : nat;
  wav_exp_list : nat;
  norm_wav_exp_list : nat;
  freq_channels : list float;
  frame_var_list : list (list float);
  frame_amp_list : list (list float);
  exp_idx : list Z;
  frame_idx : list Z;
  data_behav_concat : list Z;
  test_rest_mask : list (list bool);
  test_boundary_mask : list (list bool);
  data_concat : ndarray;
  data_mask : list bool;
  preprocess_data : ndarray;
  frame_index : list Z;
  experminet_index : list Z;
  frame_amplitudes : list float;
  preprocess_dict : Bundle
}.

(** [xs[i]] on a Python list held as a value. *)
Definition getitem {A : Type} (xs : list A) (i : nat) : result A :=
  match xs !! i with
  | Some x => Ok x
  | None => Raise IndexError
  end.

(** [enumerate(xs)] *)
Definition enumerate {A : Type} (xs : list A) : list (nat * A) :=
  zip (seq 0 (length xs)) xs.

(** ** The pipeline *)

Section Pipeline.
Context `{Externals}.

(** *** Reading data (lines 63-72) *)

(** [int(exp_dict.size / len(exp_dict.keys()))] *)
Definition experiment_length (exp_dict : DataFrame) : result Z :=
  if df_num_keys exp_dict =? 0 then Raise ZeroDivisionError
  else Ok (df_size exp_dict / df_num_keys exp_dict).

(** [tf = ... if tf is None else min(tf, ...)] *)
Definition resolve_tf (tf : option Z) (n : Z) : Z :=
  match tf with
  | None => n
  | Some t => Z.min t n
  end.

(** [self.exp_eeg_list[-1][i,:] = exp_dict[self.electrodes[i]][ti:tf]] *)
Definition load_electrode (eeg_list : nat) (exp_dict : DataFrame) (ti tf : Z)
  (i : nat) : M unit :=
  do name <- lift (getitem electrode_names i) in
  do series <- lift (df_getitem exp_dict name) in
  do r <- list_last eeg_list in
  do arr <- np_load r in
  do arr' <- lift (set_row arr i (py_slice series ti tf)) in
  np_store r arr'.

Fixpoint read_data (eeg_list : nat) (ti : Z) (paths : list string)
  (tf : option Z) : M (option Z) :=
  match paths with
  | [] => ret tf
  | exp :: paths' =>
      let exp_dict := read_csv exp in
      do n <- lift (experiment_length exp_dict) in
      let tf' := resolve_tf tf n in
      do _ <- lift (assert (ti <? tf') "tf must be greater that ti") in
      do r <- np_alloc (np_zeros (length electrode_names) (Z.to_nat (tf' - ti))) in
      do _ <- list_append eeg_list r in
      do _ <- for_each (seq 0 (length electrode_names))
                       (load_electrode eeg_list exp_dict ti tf') in
      read_data eeg_list ti paths' (Some tf')
  end.

(** *** Smoothing (lines 85-93) *)

(** [self.smooth_exp_list[i][j,:] = savgol_filter(self.exp_eeg_list[i][j,:], 5, 4)] *)
Definition smooth_row (eeg_list smooth_list : nat) (i j : nat) : M unit :=
  do src <- list_getitem eeg_list i in
  do x <- np_load src in
  do row <- lift (get_row x j) in
  do v <- lift (savgol_filter row 5 4) in
  do dst <- list_getitem smooth_list i in
  do y <- np_load dst in
  do y' <- lift (set_row y j v) in
  np_store dst y'.

Definition smooth_experiment (eeg_list smooth_list : nat) (i : nat) : M unit :=
  do src <- list_getitem eeg_list i in
  do x <- np_load src in
  do z <- np_alloc (np_zeros_like x) in
  do _ <- list_append smooth_list z in
  for_each (seq 0 (length electrode_names)) (smooth_row eeg_list smooth_list i).

Definition smooth_data (eeg_list smooth_list : nat) (n : nat) : M unit :=
  for_each (seq 0 n) (smooth_experiment eeg_list smooth_list).

(** *** Mean centering (lines 96-100) *)

(** [row -= m] *)
Definition subtract_mean (row : list float) : list float :=
  let m := np_mean row in map (fun x => PrimFloat.sub x m) row.

(** [self.smooth_exp_list[i][j,:] -= np.mean(self.smooth_exp_list[i][j,:])]:
    an in-place update of the array object. *)
Definition center_row (smooth_list : nat) (i j : nat) : M unit :=
  do r <- list_getitem smooth_list i in
  do x <- np_load r in
  do row <- lift (get_row x j) in
  do x' <- lift (set_row x j (subtract_mean row)) in
  np_store r x'.

Definition center_data (smooth_list : nat) (n : nat) : M unit :=
  for_each (seq 0 n) (fun i =>
    for_each (seq 0 (length electrode_names)) (center_row smooth_list i)).

(** *** Time-frequency analysis (lines 106-111) *)

(** The spectral array of one experiment:
    [np.transpose(find_wav(np.transpose(x), chan=num_channels, omega0=5,
    fps=samp_rate, fmin=min_frequency, fmax=max_frequency)[0])]. *)
Definition wavelets (a : Args) (x : ndarray) : ndarray * list float :=
  let '(wav_exp, freq) :=
    find_wav (np_transpose x) (num_channels a) 5 (samp_rate a)
             (min_frequency a) (max_frequency a) in
  (np_transpose wav_exp, freq).

Fixpoint wavelet_data (a : Args) (smooth_list wav_list : nat) (idx : list nat)
  (freq : option (list float)) : M (option (list float)) :=
  match idx with
  | [] => ret freq
  | i :: idx' =>
      do r <- list_getitem smooth_list i in
      do x <- np_load r in
      let '(wav_exp, freq') := wavelets a x in
      do w <- np_alloc wav_exp in
      do _ <- list_append wav_list w in
      wavelet_data a smooth_list wav_list idx' (Some freq')
  end.

(** *** Frame statistics (lines 114-119) *)

(** [np.log10(f(exp, axis=0))] for a reduction [f] over the channel axis. *)
Definition log_reduce (f : list float -> float) (exp : ndarray) : list float :=
  map (fun c => np_log10 (f c)) (columns exp).

Definition frame_statistic (f : list float -> float) (wav_list : nat)
  : M (list (list float)) :=
  do refs <- list_read wav_list in
  map_M (fun r => do exp <- np_load r in ret (log_reduce f exp)) refs.

(** *** Frame normalization (lines 123-126) *)

(** [w / w.max(axis=0)]: the maximum over an empty channel axis raises unless
    there is no frame at all. *)
Definition normalize_frames (w : ndarray) : result ndarray :=
  if (shape0 w =? 0)%nat && negb (shape1 w =? 0)%nat then Raise ValueError
  else
    let mx := map np_max (columns w) in
    Ok (NdArray (map (fun r => zip_with PrimFloat.div r mx) (rows w)) (shape1 w)).

(** [self.norm_wav_exp_list[exp_idx] = self.wav_exp_list[exp_idx] / ...] *)
Definition normalize_experiment (wav_list norm_list : nat) (exp_idx : nat)
  : M unit :=
  do r <- list_getitem wav_list exp_idx in
  do w <- np_load r in
  do w' <- lift (normalize_frames w) in
  do r' <- np_alloc w' in
  list_setitem norm_list exp_idx r'.

Definition normalize_data (wav_list norm_list : nat) : M unit :=
  do refs <- list_read wav_list in
  for_each (seq 0 (length refs)) (normalize_experiment wav_list norm_list).

(** *** Experiment and frame identifiers (lines 129-137) *)

(** The shapes of the arrays of [self.exp_eeg_list]. *)
Definition experiment_shapes (eeg_list : nat) : M (list (nat * nat)) :=
  do refs <- list_read eeg_list in
  map_M (fun r => do exp <- np_load r in ret (shape0 exp, shape1 exp)) refs.

(** [[np.ones(shape=(exp.shape[1],)) * idx for (idx, exp) in enumerate(...)]] *)
Definition exp_idx_parts (shapes : list (nat * nat)) : list (list Z) :=
  map (fun p => replicate (snd (snd p)) (Z.of_nat (fst p))) (enumerate shapes).

(** [[np.arange(0, exp.shape[1]) for exp in ...]] *)
Definition frame_idx_parts (shapes : list (nat * nat)) : list (list Z) :=
  map (fun s => map Z.of_nat (seq 0 (snd s))) shapes.

(** [x.astype(np.int)] on an array of whole numbers: reading the attribute
    [np.int] raises where NumPy does not have it. *)
Definition astype_int (x : list Z) : result (list Z) :=
  if np_has_int then Ok x else Raise AttributeError.

(** [[np.zeros(shape=(exp.shape[1]), dtype=np.int64) for exp in ...]] *)
Definition zero_labels (shapes : list (nat * nat)) : list (list Z) :=
  map (fun s => replicate (snd s) 0) shapes.

(** [for d in self.data_behav_concat: d[:] = Behav.NONE.value] *)
Definition fill_labels (dbc : list (list Z)) : result (list (list Z)) :=
  rmap (fun d => fill d (Behav_value Behav_NONE)) dbc.

(** *** Annotated behaviours (lines 142-153) *)

(** The body of [for label_gt in label_gt_list] for one [offset_mid]. *)
Definition label_gt_step (a : Args) (experiment_path : string) (offset_mid : Z)
  (d : list Z) (label_gt : (Z * Z) * Behav * string) : result (list Z) :=
  let '((offset_gt_start, offset_gt_end), label_gt_behav, folder_name) := label_gt in
  if negb (str_in folder_name experiment_path) then Ok d
  else if (offset_gt_start <=? offset_mid) && (offset_mid <? offset_gt_end) then
    if Z.min (Z.abs (offset_mid - offset_gt_start))
             (Z.abs (offset_mid - offset_gt_end)) >? clip_len a / 3
    then set_item d offset_mid (Behav_value label_gt_behav)
    else Ok d
  else Ok d.

(** The body of [for offset in range(...)] for the experiment [exp_idx]. *)
Definition label_offset (a : Args) (path_list : list string) (exp_idx : nat)
  (dbc : list (list Z)) (offset : Z) : result (list (list Z)) :=
  let offset_mid := offset + clip_len a / 2 in
  try experiment_path := getitem path_list exp_idx in
  try d := getitem dbc exp_idx in
  try d' := rfold (label_gt_step a experiment_path offset_mid) label_gt_list d in
  Ok (<[exp_idx := d']> dbc).

(** [for exp_idx in range(len(self.data_behav_concat))]; [shapes] are the
    shapes of [self.exp_eeg_list], and the range of offsets ends at
    [self.exp_eeg_list[exp_idx].shape[0] - self.clip_len // 2]. *)
Definition label_ground_truth (a : Args) (path_list : list string)
  (shapes : list (nat * nat)) (dbc : list (list Z)) : result (list (list Z)) :=
  rfold (fun dbc exp_idx =>
           try s := getitem shapes exp_idx in
           rfold (label_offset a path_list exp_idx)
                 (py_range (clip_len a / 2) (Z.of_nat (fst s) - clip_len a / 2))
                 dbc)
        (seq 0 (length dbc)) dbc.

(** *** Rest frames (lines 156-161) *)

(** [self.frame_amp_list[exp_idx] < thr] *)
Definition below (thr : float) (amp : list float) : list bool :=
  map (fun x => PrimFloat.ltb x thr) amp.

Definition label_rest_step (frame_amps : list (list float))
  (s : list (list bool) * list (list Z)) (e : nat * string)
  : result (list (list bool) * list (list Z)) :=
  let '(masks, dbc) := s in
  let '(exp_idx, experiment) := e in
  try amp := getitem frame_amps exp_idx in
  try thr := threshold_otsu amp (Z.of_nat (String.length experiment) / 2) in
  let rest_mask := below thr amp in
  try d := getitem dbc exp_idx in
  try d' := set_masked d rest_mask (Behav_value Behav_REST) in
  Ok (masks ++ [rest_mask], <[exp_idx := d']> dbc).

Definition label_rest (path_list : list string) (frame_amps : list (list float))
  (dbc : list (list Z)) : result (list (list bool) * list (list Z)) :=
  rfold (label_rest_step frame_amps) (enumerate path_list) ([], dbc).

(** *** Boundary frames (lines 164-170) *)

(** [boundary_mask = np.zeros(n); boundary_mask[:bound_len] = 1;
    boundary_mask[-bound_len:] = 1; bound_mask = boundary_mask > 0] *)
Definition boundary (bound_len : Z) (n : nat) : list bool :=
  let boundary_mask := replicate n 0%float in
  let boundary_mask := fill_slice boundary_mask 0 (slice_bound n bound_len) 1%float in
  let boundary_mask := fill_slice boundary_mask (slice_bound n (- bound_len)) n 1%float in
  map (fun x => PrimFloat.ltb 0%float x) boundary_mask.

Definition label_boundary_step (a : Args) (frame_amps : list (list float))
  (s : list (list bool) * list (list Z)) (e : nat * string)
  : result (list (list bool) * list (list Z)) :=
  let '(masks, dbc) := s in
  let '(exp_idx, experiment) := e in
  try amp := getitem frame_amps exp_idx in
  let bound_mask := boundary (bound_len a) (length amp) in
  try d := getitem dbc exp_idx in
  try d' := set_masked d bound_mask (Behav_value Behav_BOUNDARY) in
  Ok (masks ++ [bound_mask], <[exp_idx := d']> dbc).

Definition label_boundary (a : Args) (path_list : list string)
  (frame_amps : list (list float)) (dbc : list (list Z))
  : result (list (list bool) * list (list Z)) :=
  rfold (label_boundary_step a frame_amps) (enumerate path_list) ([], dbc).

(** *** Rest and boundary masks (lines 184-188) *)

(** [np.logical_and(mask, labels != v)] *)
Definition and_not_label (v : Z) (mask : list bool) (labels : list Z) : list bool :=
  zip_with (fun (m : bool) l => m && negb (l =? v)) mask labels.

Definition inclusion_mask (a : Args) (labels : list Z) : list bool :=
  let data_mask := replicate (length labels) true in
  let data_mask :=
    if dump_rest a then and_not_label (Behav_value Behav_REST) data_mask labels
    else data_mask in
  if no_bounds a then and_not_label (Behav_value Behav_BOUNDARY) data_mask labels
  else data_mask.

(** ** The constructor [BehavPreprocess.__init__]

    A construction is a run of [init] from the empty store: the constructor
    reads no object that exists before the call.  The lists
    [self.frame_var_list], [self.frame_amp_list], [self.test_rest_mask] and
    [self.test_boundary_mask] and the label vectors are only ever reached
    through one name and are passed as values. *)

Definition init (path_list : list string) (a : Args) : M Self :=
  do exp_eeg_list <- new_list in
  do smooth_exp_list0 <- new_list in
  do wav_exp_list <- new_list in
  (* Reading data *)
  do _ <- read_data exp_eeg_list (ti a) path_list (tf a) in
  (* Smoothing the dataset *)
  do smooth_exp_list <-
    (if smooth a
     then do _ <- smooth_data exp_eeg_list smooth_exp_list0 (length path_list) in
          ret smooth_exp_list0
     else ret exp_eeg_list) in
  (* Mean centering *)
  do _ <- (if mean_center a
           then center_data smooth_exp_list (length path_list)
           else ret tt) in
  (* Time-frequency analysis; printing [self.freq_channels] needs it set *)
  do freq <- wavelet_data a smooth_exp_list wav_exp_list
                          (seq 0 (length path_list)) None in
  do freq_channels <- lift (match freq with
                            | Some f => Ok f
                            | None => Raise AttributeError
                            end) in
  (* Frame variance and frame amplitude *)
  do frame_var_list <- frame_statistic np_var wav_exp_list in
  do frame_amp_list <- frame_statistic np_sum wav_exp_list in
  (* Frame normalization *)
  let norm_wav_exp_list := wav_exp_list in
  do _ <- (if normalize a
           then normalize_data wav_exp_list norm_wav_exp_list
           else ret tt) in
  (* Set experiment and frame id for each instance *)
  do shapes <- experiment_shapes exp_eeg_list in
  do exp_idx <- lift (concatenate (exp_idx_parts shapes)) in
  do exp_idx <- lift (astype_int exp_idx) in
  do frame_idx <- lift (concatenate (frame_idx_parts shapes)) in
  do frame_idx <- lift (astype_int frame_idx) in
  (* Set the behavior for each frame *)
  let data_behav_concat := zero_labels shapes in
  (* Setting annotated behaviors *)
  do data_behav_concat <- lift (fill_labels data_behav_concat) in
  do data_behav_concat <-
    lift (label_ground_truth a path_list shapes data_behav_concat) in
  do (test_rest_mask, data_behav_concat) <-
    lift (label_rest path_list frame_amp_list data_behav_concat) in
  do (test_boundary_mask, data_behav_concat) <-
    lift (label_boundary a path_list frame_amp_list data_behav_concat) in
  (* Concatenate the data *)
  do norm_refs <- list_read norm_wav_exp_list in
  do norm_arrays <- map_M np_load norm_refs in
  do data_concat <- lift (concatenate_axis1 norm_arrays) in
  do data_behav_concat <- lift (concatenate data_behav_concat) in
  do _ <- lift (assert ((length frame_idx =? length exp_idx)%nat
                        && (length exp_idx =? shape1 data_concat)%nat) "") in
  (* Apply rest and boundary masks *)
  let data_mask := inclusion_mask a data_behav_concat in
  do masked <- lift (mask_columns data_concat data_mask) in
  let preprocess_data := scrub masked in
  do frame_index <- lift (get_masked frame_idx data_mask) in
  do experminet_index <- lift (get_masked exp_idx data_mask) in
  do amps <- lift (concatenate frame_amp_list) in
  do frame_amplitudes <- lift (get_masked amps data_mask) in
  ret {|
    exp_path_list := path_list;
    exp_eeg_list := exp_eeg_list;
    smooth_exp_list := smooth_exp_list;
    wav_exp_list := wav_exp_list;
    norm_wav_exp_list := norm_wav_exp_list;
    freq_channels := freq_channels;
    frame_var_list := frame_var_list;
    frame_amp_list := frame_amp_list;
    exp_idx := exp_idx;
    frame_idx := frame_idx;
    data_behav_concat := data_behav_concat;
    test_rest_mask := test_rest_mask;
    test_boundary_mask := test_boundary_mask;
    data_concat := data_concat;
    data_mask := data_mask;
    preprocess_data := preprocess_data;
    frame_index := frame_index;
    experminet_index := experminet_index;
    frame_amplitudes := frame_amplitudes;
    preprocess_dict := {|
      Paths := path_list;
      EEG_list := exp_eeg_list;
      Smooth_EEG_list := smooth_exp_list;
      Spect_list := wav_exp_list;
      Normalized_Spect_list := norm_wav_exp_list;
      Exp_matrix := preprocess_data;
      Frame_idx := frame_index;
      Experiment_idx := experminet_index;
      Frame_amps := frame_amplitudes;
      Rest_mask := test_rest_mask;
      Boundary_mask := test_boundary_mask
    |}
  |}.

End Pipeline.

(** ** What the stages compute

    Closed forms of the values the loops of the constructor build, used to
    state what a successful run leaves in the store. *)

(** The list object [l] has the elements [refs], which are the arrays [xs]. *)
Definition holds (st : store) (l : nat) (refs : list nat) (xs : list ndarray)
  : Prop :=
  st_lists st !! l = Some refs /\
  Forall2 (fun r x => st_arrays st !! r = Some x) refs xs.

(** Two lists of label vectors with the same lengths throughout. *)
Definition same_lengths (dbc dbc' : list (list Z)) : Prop :=
  Forall2 (fun d d' => length d' = length d) dbc dbc'.

(** The value fits a 64-bit integer. *)
Definition in_int64 (v : Z) : Prop := int64_min <= v <= int64_max.

(** No entry of the array is NaN or infinite. *)
Definition finite_entries (c : ndarray) : Prop :=
  Forall (Forall (fun v => PrimFloat.is_nan v = false /\
                           PrimFloat.is_infinity v = false)) (rows c).

Section Specs.
Context `{Externals}.

(** The bound [tf] in force for each experiment, in order: the running
    minimum of the given [tf] (if any) and the lengths met so far. *)
Fixpoint tf_bounds (paths : list string) (tf : option Z) : list Z :=
  match paths with
  | [] => []
  | exp :: paths' =>
      let exp_dict := read_csv exp in
      let t := resolve_tf tf (df_size exp_dict / df_num_keys exp_dict) in
      t :: tf_bounds paths' (Some t)
  end.

(** The row of electrode [name] once [exp_dict[name][ti:tf]] is assigned. *)
Definition loaded_row (exp_dict : DataFrame) (ti tf : Z) (name : string)
  : list float :=
  match df_getitem exp_dict name with
  | Ok series =>
      match broadcast_to (Z.to_nat (tf - ti)) (py_slice series ti tf) with
      | Ok v => v
      | Raise _ => []
      end
  | Raise _ => []
  end.

(** The matrix of one experiment as read from its recording. *)
Definition loaded (ti : Z) (exp : string) (tf : Z) : ndarray :=
  NdArray (map (loaded_row (read_csv exp) ti tf) electrode_names)
          (Z.to_nat (tf - ti)).

(** Every row with its own mean subtracted. *)
Definition center_rows (x : ndarray) : ndarray :=
  NdArray (map subtract_mean (rows x)) (shape1 x).

(** The normalized spectral array: every frame divided by its maximum. *)
Definition normalized (w : ndarray) : ndarray :=
  NdArray (map (fun r => zip_with PrimFloat.div r (map np_max (columns w))) (rows w))
          (shape1 w).

(** The label vectors once lines 136 to 141 have run: every frame NONE. *)
Definition initial_labels (shapes : list (nat * nat)) : list (list Z) :=
  map (fun s => replicate (snd s) (Behav_value Behav_NONE)) shapes.

(** [d[mask] = v] as a value. *)
Definition override (v : Z) (mask : list bool) (d : list Z) : list Z :=
  zip_with (fun (m : bool) x => if m then v else x) mask d.

(** The label of a frame under the override order of the labeller: boundary
    over rest over the label left by the ground-truth pass. *)
Definition final_label (gt : Z) (rest bound : bool) : Z :=
  if bound then Behav_value Behav_BOUNDARY
  else if rest then Behav_value Behav_REST
  else gt.

End Specs.

(** The common shape of the rest and boundary loops: experiment [exp_idx]
    gets the mask [mk exp_idx experiment], which is recorded and applied to
    its label vector. *)
Definition mask_step (mk : nat -> string -> result (list bool)) (v : Z)
  (s : list (list bool) * list (list Z)) (e : nat * string)
  : result (list (list bool) * list (list Z)) :=
  let '(masks, dbc) := s in
  let '(exp_idx, experiment) := e in
  try mask := mk exp_idx experiment in
  try d := getitem dbc exp_idx in
  try d' := set_masked d mask v in
  Ok (masks ++ [mask], <[exp_idx := d']> dbc).

Section MaskSpecs.
Context `{Externals}.

(** The rest mask of an experiment: its amplitudes below their Otsu
    threshold, computed with half the length of the path as number of bins. *)
Definition rest_mask_of (amp : list float) (experiment : string)
  : result (list bool) :=
  try thr := threshold_otsu amp (Z.of_nat (String.length experiment) / 2) in
  Ok (below thr amp).

Definition rest_mask_at (frame_amps : list (list float)) (exp_idx : nat)
  (experiment : string) : result (list bool) :=
  try amp := getitem frame_amps exp_idx in rest_mask_of amp experiment.

Definition boundary_mask_at (a : Args) (frame_amps : list (list float))
  (exp_idx : nat) (experiment : string) : result (list bool) :=
  try amp := getitem frame_amps exp_idx in
  Ok (boundary (bound_len a) (length amp)).

(** Whether a frame labelled [l] is kept by the inclusion mask. *)
Definition retained (a : Args) (l : Z) : bool :=
  (if dump_rest a then negb (l =? Behav_value Behav_REST) else true) &&
  (if no_bounds a then negb (l =? Behav_value Behav_BOUNDARY) else true).

End MaskSpecs.

(** ** The trace of a successful construction *)

Definition shape (x : ndarray) : nat * nat := (shape0 x, shape1 x).

Definition same_shape (x y : ndarray) : Prop :=
  shape0 y = shape0 x /\ shape1 y = shape1 x.

(** The intermediate values of a run that the constructed object does not
    keep as attributes. *)
Record Trace : Type := {
  (** the matrices as read from the recordings *)
  tr_raw : list ndarray;
  (** the arrays of [exp_eeg_list] and of [smooth_exp_list] at the end *)
  tr_eeg : list ndarray;
  tr_smooth : list ndarray;
  (** the spectral arrays as the transform returned them *)
  tr_wav : list ndarray;
  (** the arrays of [wav_exp_list], which is [norm_wav_exp_list], at the end *)
  tr_norm : list ndarray;
  tr_erefs : list nat;
  tr_srefs : list nat;
  tr_wrefs : list nat;
  (** the array objects the results of the transform were stored in *)
  tr_wrefs0 : list nat;
  (** the label vectors after the ground-truth, rest and boundary passes *)
  tr_gt : list (list Z);
  tr_rest : list (list Z);
  tr_final : list (list Z);
  (** [data_concat[:, data_mask]] before NaN and Inf are replaced *)
  tr_masked : ndarray
}.

Section Explains.
Context `{Externals}.

(** The shapes of the raw matrices. *)
Definition shapes_of (paths : list string) (a : Args) : list (nat * nat) :=
  map (fun t => (length electrode_names, Z.to_nat (t - ti a)))
      (tf_bounds paths (tf a)).

(** [explains paths a s st t]: the object [s] and the store [st] are what
    the constructor builds for [paths] and [a], through the intermediate
    values [t]. *)
Record explains (paths : list string) (a : Args) (s : Self) (st : store)
  (t : Trace) : Prop := {
  ex_paths : paths <> [];
  ex_bounds : Forall (fun t => ti a < t) (tf_bounds paths (tf a));
  ex_raw : tr_raw t = zip_with (loaded (ti a)) paths (tf_bounds paths (tf a));
  ex_raw_wf : Forall nd_wf (tr_raw t);
  ex_eeg_wf : Forall nd_wf (tr_eeg t);
  ex_eeg : tr_eeg t = if smooth a then tr_raw t else tr_smooth t;
  ex_smooth :
    exists sms,
      (if smooth a
       then Forall2 same_shape (tr_raw t) sms /\ Forall nd_wf sms
       else sms = tr_raw t) /\
      tr_smooth t = if mean_center a then map center_rows sms else sms;
  ex_wav : tr_wav t = map (fun x => fst (wavelets a x)) (tr_smooth t);
  ex_norm : tr_norm t = if normalize a then map normalized (tr_wav t) else tr_wav t;
  ex_norm_ok :
    normalize a = true ->
    Forall (fun w => normalize_frames w = Ok (normalized w)) (tr_wav t);
  ex_path_list : exp_path_list s = paths;
  ex_smooth_list : smooth_exp_list s = if smooth a then 1%nat else exp_eeg_list s;
  ex_lists_ne : exp_eeg_list s <> wav_exp_list s /\ smooth_exp_list s <> wav_exp_list s;
  ex_norm_list : norm_wav_exp_list s = wav_exp_list s;
  ex_holds_eeg : holds st (exp_eeg_list s) (tr_erefs t) (tr_eeg t);
  ex_holds_smooth : holds st (smooth_exp_list s) (tr_srefs t) (tr_smooth t);
  ex_holds_wav : holds st (wav_exp_list s) (tr_wrefs t) (tr_norm t);
  ex_wav_objects :
    Forall2 (fun r w => st_arrays st !! r = Some w) (tr_wrefs0 t) (tr_wav t);
  ex_wav_dropped :
    normalize a = true ->
    forall r, r ∈ tr_wrefs0 t -> r ∉ tr_erefs t ++ tr_srefs t ++ tr_wrefs t;
  ex_var : frame_var_list s = map (log_reduce np_var) (tr_wav t);
  ex_amp : frame_amp_list s = map (log_reduce np_sum) (tr_wav t);
  ex_shapes : map shape (tr_eeg t) = shapes_of paths a;
  ex_np_int : np_has_int = true;
  ex_fit :
    in_int64 (Behav_value Behav_NONE) /\ in_int64 (Behav_value Behav_REST) /\
    in_int64 (Behav_value Behav_BOUNDARY);
  ex_gt_fit : Forall (Forall in_int64) (tr_gt t);
  ex_exp_idx : exp_idx s = concat (exp_idx_parts (shapes_of paths a));
  ex_frame_idx : frame_idx s = concat (frame_idx_parts (shapes_of paths a));
  ex_gt :
    label_ground_truth a paths (shapes_of paths a)
                       (initial_labels (shapes_of paths a)) = Ok (tr_gt t);
  ex_rest :
    label_rest paths (frame_amp_list s) (tr_gt t) = Ok (test_rest_mask s, tr_rest t);
  ex_boundary :
    label_boundary a paths (frame_amp_list s) (tr_rest t)
      = Ok (test_boundary_mask s, tr_final t);
  ex_labels : data_behav_concat s = concat (tr_final t);
  ex_concat : concatenate_axis1 (tr_norm t) = Ok (data_concat s);
  ex_assert :
    length (frame_idx s) = length (exp_idx s) /\
    length (exp_idx s) = shape1 (data_concat s);
  ex_mask : data_mask s = inclusion_mask a (data_behav_concat s);
  ex_masked : mask_columns (data_concat s) (data_mask s) = Ok (tr_masked t);
  ex_data : preprocess_data s = scrub (tr_masked t);
  ex_frame_index : get_masked (frame_idx s) (data_mask s) = Ok (frame_index s);
  ex_experiment_index :
    get_masked (exp_idx s) (data_mask s) = Ok (experminet_index s);
  ex_amplitudes :
    get_masked (concat (frame_amp_list s)) (data_mask s) = Ok (frame_amplitudes s);
  ex_dict :
    preprocess_dict s = {|
      Paths := exp_path_list s;
      EEG_list := exp_eeg_list s;
      Smooth_EEG_list := smooth_exp_list s;
      Spect_list := wav_exp_list s;
      Normalized_Spect_list := norm_wav_exp_list s;
      Exp_matrix := preprocess_data s;
      Frame_idx := frame_index s;
      Experiment_idx := experminet_index s;
      Frame_amps := frame_amplitudes s;
      Rest_mask := test_rest_mask s;
      Boundary_mask := test_boundary_mask s
    |}
}.

End Explains.

Section GroundTruthSpecs.
Context `{Externals}.

(** The labels the ground-truth pass can leave on a frame of the experiment
    at [path]: NONE, or the label of an entry of the table selected for this
    path. *)
Definition gt_value (path : string) (l : Z) : Prop :=
  l = Behav_value Behav_NONE \/
  exists iv b folder,
    (iv, b, folder) ∈ label_gt_list /\ str_in folder path = true /\
    l = Behav_value b.

(** Whether an entry of the ground-truth table applies to the frame [mid]
    of the experiment at [path]: the folder name occurs in the path, the
    frame is in the interval and further than [clip_len // 3] from its ends. *)
Definition gt_applies (a : Args) (path : string) (mid : Z)
  (label_gt : (Z * Z) * Behav * string) : bool :=
  let '((offset_gt_start, offset_gt_end), _, folder_name) := label_gt in
  str_in folder_name path &&
  ((offset_gt_start <=? mid) && (mid <? offset_gt_end)) &&
  (Z.min (Z.abs (mid - offset_gt_start)) (Z.abs (mid - offset_gt_end))
   >? clip_len a / 3).

(** The label the table gives to the frame [mid]: that of the last entry
    that applies, if any. *)
Definition gt_pick (a : Args) (path : string) (mid : Z) (acc : option Behav)
  (label_gt : (Z * Z) * Behav * string) : option Behav :=
  if gt_applies a path mid label_gt then Some (snd (fst label_gt)) else acc.

Definition gt_label (a : Args) (path : string) (mid : Z) : option Behav :=
  fold_left (gt_pick a path mid) label_gt_list None.

(** A label vector with the frame [mid] set to the label [acc], if any. *)
Definition with_label (mid : Z) (acc : option Behav) (d : list Z) : list Z :=
  match acc with
  | Some b => <[Z.to_nat mid := Behav_value b]> d
  | None => d
  end.

(** The label vector [d] of the experiment at [path] once the frames from
    [2 * (clip_len // 2)] up to (not including) [stop] have been visited. *)
Definition gt_labelled (a : Args) (path : string) (stop : Z) (d : list Z)
  : list Z :=
  imap (fun f x =>
          if (2 * (clip_len a / 2) <=? Z.of_nat f) && (Z.of_nat f <? stop)
          then match gt_label a path (Z.of_nat f) with
               | Some b => Behav_value b
               | None => x
               end
          else x) d.

End GroundTruthSpecs.

Section LengthSpecs.
Context `{Externals}.

(** [int(exp_dict.size / len(exp_dict.keys()))] for the recording at a path,
    when it has a column. *)
Definition recording_length (exp : string) : Z :=
  df_size (read_csv exp) / df_num_keys (read_csv exp).

End LengthSpecs.

(** ** The accessor methods (lines 230-256)

    The methods read the attributes of an object as the constructor leaves
    it; none of them updates the object. *)

(** [l[i]] for a Python integer index: a negative index counts from the
    end. *)
Definition py_getitem {A : Type} (l : list A) (i : Z) : result A :=
  let n := Z.of_nat (length l) in
  if (i <? - n) || (n <=? i) then Raise IndexError
  else match l !! Z.to_nat (if i <? 0 then i + n else i) with
       | Some x => Ok x
       | None => Raise IndexError
       end.

(** [_len_]: [self.data_concat.shape[0]] *)
Definition _len_ (self : Self) : Z := Z.of_nat (shape0 (data_concat self)).

(** The dictionary [sample] that [_get_item_] returns. *)
Record Item : Type := {
  data : list float;
  behav : Z;
  idx : Z;
  fly_id : Z
}.

(** [_get_item_]: [self.data_concat[idx]] is a row of the two-dimensional
    array, [self.data_behav_concat[idx]] an entry of the label vector. *)
Definition _get_item_ (self : Self) (idx : Z) : result Item :=
  try data := py_getitem (rows (data_concat self)) idx in
  try behav := py_getitem (data_behav_concat self) idx in
  Ok {| data := data; behav := behav; idx := idx; fly_id := 0 |}.

(** [self.pts3d_exp_list]: no statement of the class assigns this attribute,
    so reading it on an object as the constructor leaves it raises. *)
Definition pts3d_exp_list (self : Self) : result (list ndarray) :=
  Raise AttributeError.

(** The loop of [_get_data_] over [enumerate(self.exp_path_list)]: the index
    of the first path in which [exp_name] occurs; [None in path] raises. *)
Fixpoint find_experiment (exp_name : option string) (paths : list (nat * string))
  : result (option Z) :=
  match paths with
  | [] => Ok None
  | (idx, exp_name_iter) :: paths' =>
      match exp_name with
      | None => Raise TypeError
      | Some name =>
          if str_in name exp_name_iter then Ok (Some (Z.of_nat idx))
          else find_experiment exp_name paths'
      end
  end.

(** [np.logical_and(x, y)] on two vectors, which must have one length. *)
Definition logical_and (x y : list bool) : result (list bool) :=
  if (length x =? length y)%nat then Ok (zip_with andb x y) else Raise ValueError.

(** [_get_data_(exp_name, exp_idx, start_frame, end_frame)] *)
Definition _get_data_ (self : Self) (exp_name : option string)
  : option Z -> Z -> Z -> result (ndarray * ndarray) :=
  let self_exp_idx := exp_idx self in
  fun exp_idx start_frame end_frame =>
    try exp_idx :=
      match exp_idx with
      | None => find_experiment exp_name (enumerate (exp_path_list self))
      | Some _ => Ok exp_idx
      end in
    try pts3d_list := pts3d_exp_list self in
    try i := match exp_idx with Some i => Ok i | None => Raise TypeError end in
    try x := py_getitem pts3d_list i in
    let pts3d := NdArray (py_slice (rows x) start_frame end_frame) (shape1 x) in
    try data_mask_frame :=
      logical_and (map (fun f => start_frame <? f) (frame_idx self))
                  (map (fun f => f <? end_frame) (frame_idx self)) in
    let data_mask_exp := map (fun e => e =? i) self_exp_idx in
    try data_mask := logical_and data_mask_frame data_mask_exp in
    try d := get_masked (rows (data_concat self)) data_mask in
    Ok (pts3d, NdArray d (shape1 (data_concat self))).

(** ** Positions in the concatenated arrays *)

(** The positions a boolean mask selects, in increasing order. *)
Definition positions (mask : list bool) : list nat :=
  select mask (seq 0 (length mask)).

(** The position in the concatenated arrays of the first frame of
    experiment [i], for experiments of [frames] frames. *)
Definition offset (frames : list nat) (i : nat) : nat :=
  sum_list (take i frames).

(** The number of frames read from the recordings: [tf - ti] for the bound
    [tf] of every experiment. *)
Definition frames_read `{Externals} (paths : list string) (a : Args) : Z :=
  fold_right Z.add 0 (map (fun t => t - ti a) (tf_bounds paths (tf a))).

(** The arguments [a] with [normalize] set to [b]. *)
Definition with_normalize (b : bool) (a : Args) : Args := {|
  ti := ti a; tf := tf a; samp_rate := samp_rate a;
  min_frequency := min_frequency a; max_frequency := max_frequency a;
  num_channels := num_channels a; bound_len := bound_len a;
  clip_len := clip_len a; smooth := smooth a; mean_center := mean_center a;
  normalize := b; no_bounds := no_bounds a; dump_rest := dump_rest a
|}.

(** One entry after [a[np.logical_or(np.isnan(a), np.isinf(a))] = 0]. *)
Definition scrub_entry (x : float) : float :=
  if not_finite x then 0%float else x.

(** Every column of the recording has the same number of cells, as in a
    [pandas.DataFrame]. *)
Definition df_regular (df : DataFrame) : Prop :=
  exists n : nat, Forall (fun c => length (snd c) = n) (df_columns df).

Section SmoothSpecs.
Context `{Externals}.

(** A row of [n] samples once [savgol_filter(row, 5, 4)] is assigned to
    it. *)
Definition smoothed_row (n : nat) (row : list float) : list float :=
  match savgol_filter row 5 4 with
  | Ok v =>
      match broadcast_to n v with
      | Ok v' => v'
      | Raise _ => []
      end
  | Raise _ => []
  end.

(** The smoothed copy of a matrix: every row filtered. *)
Definition smoothed (x : ndarray) : ndarray :=
  NdArray (map (smoothed_row (shape1 x)) (rows x)) (shape1 x).

(** The filter returns for every row of the matrix, and what it returns can
    be assigned to the row. *)
Definition filtered_ok (x : ndarray) : Prop :=
  Forall (fun row => exists v, savgol_filter row 5 4 = Ok v /\
                               broadcast_to (shape1 x) v
                               = Ok (smoothed_row (shape1 x) row))
         (rows x).

(** The arrays of [self.smooth_exp_list] after smoothing and centring of the
    matrices [raw]. *)
Definition smooth_stage (a : Args) (raw : list ndarray) : list ndarray :=
  let sms := if smooth a then map smoothed raw else raw in
  if mean_center a then map center_rows sms else sms.

(** Where a successful construction leaves the raw and the smoothed
    matrices: the array objects of the two lists and the arrays of the
    smoothed list. *)
Record layout (paths : list string) (a : Args) (t : Trace) : Prop := {
  lay_erefs : tr_erefs t = seq 0 (length paths);
  lay_srefs :
    tr_srefs t = if smooth a then seq (length paths) (length paths)
                 else seq 0 (length paths);
  lay_smooth : tr_smooth t = smooth_stage a (tr_raw t);
  lay_filtered : smooth a = true -> Forall filtered_ok (tr_raw t)
}.

End SmoothSpecs.

(** ** What a construction needs in order to return *)

Section ReturnSpecs.
Context `{Externals}.

(** Every label the constructor may write fits the [np.int64] label
    vectors: the values of NONE, REST and BOUNDARY and of the labels of the
    ground-truth table. *)
Definition labels_fit : Prop :=
  in_int64 (Behav_value Behav_NONE) /\ in_int64 (Behav_value Behav_REST) /\
  in_int64 (Behav_value Behav_BOUNDARY) /\
  Forall (fun label_gt => in_int64 (Behav_value (snd (fst label_gt)))) label_gt_list.

(** What reading an experiment with the bound [t] needs: a column, the
    bound above [ti], and for every electrode a column whose slice can be
    assigned to a row. *)
Definition readable (ti : Z) (exp : string) (t : Z) : Prop :=
  df_num_keys (read_csv exp) <> 0 /\ ti < t /\
  forall name, name ∈ electrode_names ->
    exists series v,
      df_getitem (read_csv exp) name = Ok series /\
      broadcast_to (Z.to_nat (t - ti)) (py_slice series ti t) = Ok v.

(** The array object [r] holds a matrix with one row per electrode. *)
Definition centrable (s : store) (r : nat) : Prop :=
  exists x, st_arrays s !! r = Some x /\ shape0 x = length electrode_names /\ nd_wf x.

(** The recording at a path has a column, its columns have one length and
    every electrode has one. *)
Definition recording_ok (exp : string) : Prop :=
  df_columns (read_csv exp) <> [] /\ df_regular (read_csv exp) /\
  forall name, name ∈ electrode_names ->
    exists series, df_getitem (read_csv exp) name = Ok series.

(** The matrices read from the recordings, the spectral arrays the
    transform returns for them once smoothed and centred, and the frame
    amplitudes of these. *)
Definition raw_matrices (paths : list string) (a : Args) : list ndarray :=
  zip_with (loaded (ti a)) paths (tf_bounds paths (tf a)).

Definition spectra (paths : list string) (a : Args) : list ndarray :=
  map (fun x => fst (wavelets a x)) (smooth_stage a (raw_matrices paths a)).

Definition amplitudes (paths : list string) (a : Args) : list (list float) :=
  map (log_reduce np_sum) (spectra paths a).

End ReturnSpecs.

(** ** Sample collaborators

    Concrete stand-ins for the collaborators, used to run the pipeline on
    concrete recordings.  The theorems below hold for every instance of
    [Externals]; these stand-ins only serve as instances at which they are
    exercised. *)

Module Sample.

(** A [Behav] enumeration with two annotated behaviours. *)
Inductive behav : Type := WALK | GROOM | REST | BOUNDARY | NONE.

Definition behav_value (b : behav) : Z :=
  match b with
  | WALK => 0
  | GROOM => 1
  | REST => 2
  | BOUNDARY => 3
  | NONE => 4
  end.

Definition of_nat (n : nat) : float :=
  PrimFloat.of_uint63 (Uint63.of_Z (Z.of_nat n)).

Definition of_Z (z : Z) : float :=
  if z <? 0 then PrimFloat.opp (of_nat (Z.to_nat (- z))) else of_nat (Z.to_nat z).

(** Left-to-right sum, mean and variance. *)
Definition sum (l : list float) : float := fold_left PrimFloat.add l 0%float.

Definition mean (l : list float) : float :=
  PrimFloat.div (sum l) (of_nat (length l)).

Definition var (l : list float) : float :=
  let m := mean l in
  mean (map (fun x => PrimFloat.mul (PrimFloat.sub x m) (PrimFloat.sub x m)) l).

(** Maximum and minimum; a NaN entry makes the result NaN, as in NumPy. *)
Definition pick (better : float -> float -> bool) (l : list float) : float :=
  match l with
  | [] => PrimFloat.nan
  | x :: l' =>
      fold_left (fun m y =>
                   if PrimFloat.is_nan m then m
                   else if PrimFloat.is_nan y then y
                   else if better y m then y else m) l' x
  end.

Definition max (l : list float) : float := pick (fun y m => PrimFloat.ltb m y) l.
Definition min (l : list float) : float := pick (fun y m => PrimFloat.ltb y m) l.

(** A stand-in for [np.log10]: exact on the special values (NaN for NaN and
    for negative numbers, minus infinity at zero, infinity at infinity) and a
    monotone piecewise-linear approximation elsewhere. *)
Definition log10 (x : float) : float :=
  if PrimFloat.is_nan x then PrimFloat.nan
  else if PrimFloat.ltb x 0%float then PrimFloat.nan
  else if PrimFloat.eqb x 0%float then PrimFloat.neg_infinity
  else if PrimFloat.is_infinity x then PrimFloat.infinity
  else
    let '(m, e) := FloatOps.Z.frexp x in
    PrimFloat.mul 0x1.3441355475a32p-2%float
      (PrimFloat.add (of_Z e) (PrimFloat.sub (PrimFloat.mul 2%float m) 2%float)).

(** A window of five points and a polynomial of degree four: the fitted
    polynomial interpolates the window, so the filter returns its input; as
    SciPy does, it rejects a series shorter than the window. *)
Definition savgol (x : list float) (window_length polyorder : Z)
  : result (list float) :=
  if Z.of_nat (length x) <? window_length then Raise ValueError else Ok x.

(** A stand-in for the wavelet transform: band [c] of a frame is the
    magnitude of the frame's first electrode scaled by [c + 1]. *)
Definition wav (x : ndarray) (chan omega0 fps fmin fmax : Z)
  : ndarray * list float :=
  let bands := seq 1 (Z.to_nat chan) in
  (NdArray (map (fun frame =>
                   map (fun c => PrimFloat.mul (PrimFloat.abs (nth 0 frame 0%float))
                                               (of_nat c)) bands)
                (rows x))
           (Z.to_nat chan),
   map of_nat bands).

(** A stand-in for [threshold_otsu] that keeps its edge behaviour: an image
    of one value has that value as threshold; otherwise the histogram needs
    a positive number of bins and a finite range.  Elsewhere it returns the
    middle of the range. *)
Definition otsu (image : list float) (nbins : Z) : result float :=
  match image with
  | [] => Raise IndexError
  | first_pixel :: _ =>
      if forallb (fun y => PrimFloat.eqb y first_pixel) image then Ok first_pixel
      else if nbins <=? 0 then Raise ValueError
      else if not_finite (min image) || not_finite (max image) then Raise ValueError
      else Ok (PrimFloat.div (PrimFloat.add (min image) (max image)) 2%float)
  end.

(** The recordings on disk, by path; an unknown path reads as an empty
    table. *)
Definition read (fs : list (string * DataFrame)) (path : string) : DataFrame :=
  match find (fun f => String.eqb (fst f) path) fs with
  | Some f => snd f
  | None => {| df_columns := [] |}
  end.

(** The four electrodes of the headband. *)
Definition electrodes : list string :=
  ["TP9"; "AF7"; "AF8"; "TP10"]%string.

Definition env (names : list string) (fs : list (string * DataFrame))
  (gt : list ((Z * Z) * behav * string)) : Externals := {|
  read_csv := read fs;
  electrode_names := names;
  savgol_filter := savgol;
  np_mean := mean;
  np_var := var;
  np_sum := sum;
  np_max := max;
  np_log10 := log10;
  find_wav := wav;
  threshold_otsu := otsu;
  np_has_int := true;
  Behav := behav;
  Behav_value := behav_value;
  Behav_NONE := NONE;
  Behav_REST := REST;
  Behav_BOUNDARY := BOUNDARY;
  label_gt_list := gt
|}.

(** A recording in which every electrode carries the series [f 0, f 1, ...,
    f (n - 1)]. *)
Definition recording (n : nat) (f : nat -> float) : DataFrame :=
  {| df_columns := map (fun name => (name, map f (seq 0 n))) electrodes |}.

End Sample.

(** ** Sample recordings

    Concrete inputs on which the constructor is run: two short recordings
    with a ground-truth interval, the two recordings of 500 and 300 frames
    of the round-trip scenario, and recordings with an infinite or a zero
    sample. *)

Module Demo.

Definition paths : list string := ["walk/a.csv"; "rest/b.csv"]%string.

(** [f 0, f 1, ...] with [f k = k + 1], and a period-three series. *)
Definition ramp (k : nat) : float := Sample.of_nat (k + 1).
Definition wave (k : nat) : float := Sample.of_nat (k mod 3 + 1).

Definition short_fs : list (string * DataFrame) :=
  [("walk/a.csv"%string, Sample.recording 12 ramp);
   ("rest/b.csv"%string, Sample.recording 8 wave)].

Definition long_fs : list (string * DataFrame) :=
  [("walk/a.csv"%string, Sample.recording 500 ramp);
   ("rest/b.csv"%string, Sample.recording 300 wave)].

(** Every sample of every electrode is [+inf]. *)
Definition infinite_fs : list (string * DataFrame) :=
  [("walk/a.csv"%string, Sample.recording 500 (fun _ => PrimFloat.infinity));
   ("rest/b.csv"%string, Sample.recording 300 (fun _ => PrimFloat.infinity))].

(** The second recording has zero samples, hence frames of zero spectral
    amplitude. *)
Definition zero_fs : list (string * DataFrame) :=
  [("walk/a.csv"%string, Sample.recording 12 ramp);
   ("rest/b.csv"%string, Sample.recording 8 (fun k => Sample.of_nat (k mod 3)))].

Definition one_long_fs : list (string * DataFrame) :=
  [("walk/a.csv"%string, Sample.recording 1000 ramp)].

Definition short_gt : list ((Z * Z) * Sample.behav * string) :=
  [((0, 8), Sample.WALK, "walk"%string)].

Definition long_gt : list ((Z * Z) * Sample.behav * string) :=
  [((0, 1000), Sample.WALK, "walk"%string)].

Definition short_env : Externals := Sample.env Sample.electrodes short_fs short_gt.
Definition long_env : Externals := Sample.env Sample.electrodes long_fs short_gt.
Definition infinite_env : Externals := Sample.env Sample.electrodes infinite_fs short_gt.
Definition zero_env : Externals := Sample.env Sample.electrodes zero_fs short_gt.
Definition one_long_env : Externals := Sample.env Sample.electrodes one_long_fs long_gt.

(** Three spectral channels, a clip length of 2 and boundaries of 2 frames,
    for the short recordings. *)
Definition short_args : Args := {|
  ti := 0; tf := None; samp_rate := 220; min_frequency := 1;
  max_frequency := 50; num_channels := 3; bound_len := 2; clip_len := 2;
  smooth := true; mean_center := true; normalize := true;
  no_bounds := true; dump_rest := true
|}.

(** No smoothing (the raw matrices are centred in place). *)
Definition unsmoothed_args : Args := {|
  ti := 0; tf := None; samp_rate := 220; min_frequency := 1;
  max_frequency := 50; num_channels := 3; bound_len := 2; clip_len := 2;
  smooth := false; mean_center := true; normalize := true;
  no_bounds := false; dump_rest := false
|}.

(** The round-trip configuration: no smoothing, centring, normalization or
    mask; everything else as by default. *)
Definition round_trip_args : Args := {|
  ti := 0; tf := None; samp_rate := 220; min_frequency := 1;
  max_frequency := 50; num_channels := 30; bound_len := 50; clip_len := 100;
  smooth := false; mean_center := false; normalize := false;
  no_bounds := false; dump_rest := false
|}.

(** No smoothing and no centring, so that the samples reach the transform
    as recorded; normalization as by default. *)
Definition plain_args : Args := {|
  ti := 0; tf := None; samp_rate := 220; min_frequency := 1;
  max_frequency := 50; num_channels := 3; bound_len := 2; clip_len := 2;
  smooth := false; mean_center := false; normalize := true;
  no_bounds := false; dump_rest := false
|}.

(** [ti = 100, tf = 50] *)
Definition bad_window_args : Args := {|
  ti := 100; tf := Some 50; samp_rate := 220; min_frequency := 1;
  max_frequency := 50; num_channels := 30; bound_len := 50; clip_len := 100;
  smooth := true; mean_center := true; normalize := true;
  no_bounds := false; dump_rest := false
|}.

(** The short configuration with a window that starts at frame 9, past the
    end of the second short recording. *)
Definition late_start_args : Args := {|
  ti := 9; tf := None; samp_rate := 220; min_frequency := 1;
  max_frequency := 50; num_channels := 3; bound_len := 2; clip_len := 2;
  smooth := true; mean_center := true; normalize := true;
  no_bounds := true; dump_rest := true
|}.

(** The short configuration with [tf = 10], for the short recordings in
    the other order: 8 rows, then 12. *)
Definition capped_args : Args := {|
  ti := 0; tf := Some 10; samp_rate := 220; min_frequency := 1;
  max_frequency := 50; num_channels := 3; bound_len := 2; clip_len := 2;
  smooth := true; mean_center := true; normalize := true;
  no_bounds := true; dump_rest := true
|}.

Definition reversed_paths : list string := ["rest/b.csv"; "walk/a.csv"]%string.

(** The first recording lacks the column of the first electrode. *)
Definition missing_fs : list (string * DataFrame) :=
  [("walk/a.csv"%string,
    {| df_columns := map (fun name => (name, map ramp (seq 0 12)))
                         ["AF7"; "AF8"; "TP10"]%string |});
   ("rest/b.csv"%string, Sample.recording 8 wave)].

Definition missing_env : Externals := Sample.env Sample.electrodes missing_fs short_gt.

(** The short configuration with [bound_len = 0]. *)
Definition zero_bound_args : Args := {|
  ti := 0; tf := None; samp_rate := 220; min_frequency := 1;
  max_frequency := 50; num_channels := 3; bound_len := 0; clip_len := 2;
  smooth := true; mean_center := true; normalize := true;
  no_bounds := true; dump_rest := true
|}.

End Demo.

(** * Verification *)

(** ** The two monads *)

Lemma rbind_ok {A B : Type} (m : result A) (k : A -> result B) (b : B) :
  rbind m k = Ok b -> exists a, m = Ok a /\ k a = Ok b.
Proof. destruct m as [a|e]; simpl; [eauto | discriminate]. Qed.

Lemma assert_ok (b : bool) (msg : string) (u : unit) :
  assert b msg = Ok u -> b = true.
Proof. destruct b; [reflexivity | discriminate]. Qed.

Lemma getitem_ok {A : Type} (xs : list A) (i : nat) (x : A) :
  getitem xs i = Ok x <-> xs !! i = Some x.
Proof. unfold getitem. destruct (xs !! i); split; congruence. Qed.

Lemma rfold_app {S A : Type} (body : S -> A -> result S) (xs ys : list A) (s : S) :
  rfold body (xs ++ ys) s = rbind (rfold body xs s) (rfold body ys).
Proof.
  revert s. induction xs as [|x xs IH]; intros s; simpl; [reflexivity|].
  destruct (body s x); simpl; [apply IH | reflexivity].
Qed.

Lemma bind_returned {A B : Type} (m : M A) (k : A -> M B) st b st' :
  bind m k st = Returned b st' ->
  exists a st1, m st = Returned a st1 /\ k a st1 = Returned b st'.
Proof. unfold bind. destruct (m st) as [a st1|e st1]; [eauto | discriminate]. Qed.

Lemma ret_returned {A : Type} (a b : A) st st' :
  ret a st = Returned b st' -> b = a /\ st' = st.
Proof. unfold ret. intros [= <- <-]. auto. Qed.

Lemma lift_returned {A : Type} (r : result A) st a st' :
  lift r st = Returned a st' -> r = Ok a /\ st' = st.
Proof. unfold lift. destruct r; intros [= <- <-]; auto. Qed.

Lemma for_each_app {A : Type} (xs ys : list A) (body : A -> M unit) st :
  for_each (xs ++ ys) body st =
  bind (for_each xs body) (fun _ => for_each ys body) st.
Proof.
  revert st. induction xs as [|x xs IH]; intros st; simpl; [reflexivity|].
  unfold bind. destruct (body x st) as [[] st1|]; [|reflexivity].
  rewrite IH. reflexivity.
Qed.

(** The invariant rule of [for i in range(n)]. *)
Lemma for_range_returned (J : nat -> store -> Prop) (body : nat -> M unit) (n : nat)
  st st' :
  (forall k s s1, (k < n)%nat -> J k s -> body k s = Returned tt s1 -> J (S k) s1) ->
  J 0%nat st ->
  for_each (seq 0 n) body st = Returned tt st' ->
  J n st'.
Proof.
  intros Hstep H0. revert st'.
  induction n as [|n IH]; intros st' Hrun.
  - apply ret_returned in Hrun as [_ ->]. exact H0.
  - rewrite seq_S, for_each_app in Hrun. simpl in Hrun.
    apply bind_returned in Hrun as ([] & s1 & Hpre & Hlast).
    apply bind_returned in Hlast as ([] & s2 & Hbody & Hret).
    apply ret_returned in Hret as [_ ->].
    eapply Hstep; [lia | | exact Hbody].
    apply IH; [|exact Hpre]. intros k s s' Hk. apply Hstep. lia.
Qed.

(** ** Store commands *)

Lemma list_read_returned l st xs st' :
  list_read l st = Returned xs st' -> st_lists st !! l = Some xs /\ st' = st.
Proof.
  unfold list_read. destruct (st_lists st !! l); intros [= <- <-]; auto.
Qed.

Lemma np_load_returned r st a st' :
  np_load r st = Returned a st' -> st_arrays st !! r = Some a /\ st' = st.
Proof.
  unfold np_load. destruct (st_arrays st !! r); intros [= <- <-]; auto.
Qed.

Lemma list_append_returned l x st u st' :
  list_append l x st = Returned u st' ->
  exists xs, st_lists st !! l = Some xs /\
             st' = Store (<[l := xs ++ [x]]> (st_lists st)) (st_arrays st).
Proof.
  unfold list_append. intros Hrun.
  apply bind_returned in Hrun as (xs & s1 & Hread & Hrun).
  apply list_read_returned in Hread as [Hxs ->].
  unfold list_write in Hrun. injection Hrun as _ <-. eauto.
Qed.

Lemma list_getitem_returned l i st x st' :
  list_getitem l i st = Returned x st' ->
  exists xs, st_lists st !! l = Some xs /\ xs !! i = Some x /\ st' = st.
Proof.
  unfold list_getitem. intros Hrun.
  apply bind_returned in Hrun as (xs & s1 & Hread & Hrun).
  apply list_read_returned in Hread as [Hxs ->].
  apply lift_returned in Hrun as [Hget ->].
  exists xs. destruct (xs !! i); [injection Hget as ->; auto | discriminate].
Qed.

Lemma list_last_returned l st x st' :
  list_last l st = Returned x st' ->
  exists xs, st_lists st !! l = Some xs /\ last xs = Some x /\ st' = st.
Proof.
  unfold list_last. intros Hrun.
  apply bind_returned in Hrun as (xs & s1 & Hread & Hrun).
  apply list_read_returned in Hread as [Hxs ->].
  apply lift_returned in Hrun as [Hget ->].
  exists xs. destruct (last xs); [injection Hget as ->; auto | discriminate].
Qed.

Lemma list_setitem_returned l i x st u st' :
  list_setitem l i x st = Returned u st' ->
  exists xs, st_lists st !! l = Some xs /\ (i < length xs)%nat /\
             st' = Store (<[l := <[i := x]> xs]> (st_lists st)) (st_arrays st).
Proof.
  unfold list_setitem. intros Hrun.
  apply bind_returned in Hrun as (xs & s1 & Hread & Hrun).
  apply list_read_returned in Hread as [Hxs ->].
  exists xs. destruct (xs !! i) eqn:Hi.
  - apply lookup_lt_Some in Hi. unfold list_write in Hrun.
    injection Hrun as _ <-. auto.
  - apply lift_returned in Hrun as [[=] _].
Qed.

Lemma np_alloc_returned a st r st' :
  np_alloc a st = Returned r st' ->
  r = length (st_arrays st) /\ st' = Store (st_lists st) (st_arrays st ++ [a]).
Proof. unfold np_alloc. intros [= <- <-]. auto. Qed.

Lemma np_store_returned r a st u st' :
  np_store r a st = Returned u st' ->
  st' = Store (st_lists st) (<[r := a]> (st_arrays st)).
Proof. unfold np_store. destruct u. intros [= <-]. reflexivity. Qed.

(** ** Arrays *)

Lemma broadcast_to_length n v v' :
  broadcast_to n v = Ok v' -> length v' = n.
Proof.
  unfold broadcast_to. destruct (Nat.eqb_spec (length v) n) as [Hn|Hn].
  - intros [= <-]. exact Hn.
  - destruct v as [|x [|y v]]; try discriminate.
    intros [= <-]. apply length_replicate.
Qed.

Lemma set_row_ok a i v a' :
  set_row a i v = Ok a' ->
  exists v', broadcast_to (shape1 a) v = Ok v' /\ (i < shape0 a)%nat /\
             a' = NdArray (<[i := v']> (rows a)) (shape1 a).
Proof.
  unfold set_row. destruct (rows a !! i) eqn:Hi; [|discriminate].
  intros Hrun. apply rbind_ok in Hrun as (v' & Hv & [= <-]).
  apply lookup_lt_Some in Hi. eauto.
Qed.

Lemma set_row_shape a i v a' :
  set_row a i v = Ok a' -> shape0 a' = shape0 a /\ shape1 a' = shape1 a.
Proof.
  intros Hset. apply set_row_ok in Hset as (v' & _ & _ & ->).
  unfold shape0. simpl. rewrite length_insert. auto.
Qed.

Lemma set_row_wf a i v a' :
  nd_wf a -> set_row a i v = Ok a' -> nd_wf a'.
Proof.
  intros Hwf Hset. apply set_row_ok in Hset as (v' & Hv & _ & ->).
  unfold nd_wf in *. simpl. apply Forall_insert; [exact Hwf|].
  eapply broadcast_to_length, Hv.
Qed.

Lemma np_zeros_wf m n : nd_wf (np_zeros m n).
Proof.
  unfold nd_wf, np_zeros. simpl. apply Forall_replicate, length_replicate.
Qed.

Lemma np_zeros_shape0 m n : shape0 (np_zeros m n) = m.
Proof. unfold shape0, np_zeros. simpl. apply length_replicate. Qed.

Lemma insert_take_drop_snoc {A : Type} (done : list A) (z v : A) (m : nat) :
  <[length done := v]> (done ++ replicate (S m) z) = (done ++ [v]) ++ replicate m z.
Proof.
  rewrite insert_app_r_alt by lia. rewrite Nat.sub_diag. simpl.
  rewrite <- app_assoc. reflexivity.
Qed.

Section Read.
Context `{Externals}.

Lemma experiment_length_ok exp_dict n :
  experiment_length exp_dict = Ok n ->
  df_num_keys exp_dict <> 0 /\ n = df_size exp_dict / df_num_keys exp_dict.
Proof.
  unfold experiment_length. destruct (Z.eqb_spec (df_num_keys exp_dict) 0).
  - discriminate.
  - intros [= <-]. auto.
Qed.

(** The loop over the electrodes fills the rows of the matrix that was just
    appended to the list. *)
Lemma load_electrodes_returned eeg exp_dict ti tf refs r arrays st st' :
  st_lists st !! eeg = Some (refs ++ [r]) ->
  r = length arrays ->
  st_arrays st = arrays ++ [np_zeros (length electrode_names) (Z.to_nat (tf - ti))] ->
  for_each (seq 0 (length electrode_names)) (load_electrode eeg exp_dict ti tf) st
    = Returned tt st' ->
  let x := NdArray (map (loaded_row exp_dict ti tf) electrode_names)
                   (Z.to_nat (tf - ti)) in
  st' = Store (st_lists st) (arrays ++ [x]) /\ nd_wf x.
Proof.
  intros Hlist -> Harr Hrun.
  set (n := Z.to_nat (tf - ti)) in *.
  set (E := length electrode_names) in *.
  pose (J := fun (k : nat) (s : store) =>
    st_lists s = st_lists st /\
    Forall (fun v => length v = n) (map (loaded_row exp_dict ti tf) (take k electrode_names)) /\
    st_arrays s = arrays ++
      [NdArray (map (loaded_row exp_dict ti tf) (take k electrode_names)
                ++ replicate (E - k) (replicate n 0%float)) n]).
  assert (HJ : J E st').
  { eapply for_range_returned; [| |exact Hrun].
    - intros k s s1 Hk (HL & Hlen & HA) Hbody. unfold load_electrode in Hbody.
      apply bind_returned in Hbody as (name & s2 & Hname & Hbody).
      apply lift_returned in Hname as [Hname ->].
      apply getitem_ok in Hname.
      apply bind_returned in Hbody as (series & s2 & Hser & Hbody).
      apply lift_returned in Hser as [Hser ->].
      apply bind_returned in Hbody as (r & s2 & Hlast & Hbody).
      apply list_last_returned in Hlast as (xs & Hxs & Hlast & ->).
      rewrite HL, Hlist in Hxs. injection Hxs as <-.
      rewrite last_snoc in Hlast. injection Hlast as <-.
      apply bind_returned in Hbody as (arr & s2 & Hload & Hbody).
      apply np_load_returned in Hload as [Hload ->].
      rewrite HA, list_lookup_middle in Hload by reflexivity.
      injection Hload as <-.
      apply bind_returned in Hbody as (arr' & s2 & Hset & Hbody).
      apply lift_returned in Hset as [Hset ->].
      apply np_store_returned in Hbody. subst s1. simpl.
      apply set_row_ok in Hset as (v' & Hv & _ & ->). simpl in *.
      assert (Hrow : loaded_row exp_dict ti tf name = v').
      { unfold loaded_row. rewrite Hser. fold n. rewrite Hv. reflexivity. }
      unfold J. rewrite (take_S_r _ _ _ Hname), map_app. simpl. rewrite Hrow.
      split; [exact HL|]. split.
      + apply Forall_app. split; [exact Hlen|].
        constructor; [|constructor]. eapply broadcast_to_length, Hv.
      + rewrite HA. rewrite insert_app_r_alt by lia.
        rewrite Nat.sub_diag. simpl. f_equal. f_equal. f_equal.
        assert (Hk' : k = length (map (loaded_row exp_dict ti tf) (take k electrode_names))).
        { rewrite length_map, length_take. fold E. lia. }
        replace (E - k)%nat with (S (E - S k)) by lia.
        rewrite Hk' at 1. apply insert_take_drop_snoc.
    - unfold J. simpl. rewrite Nat.sub_0_r. repeat split; [constructor|exact Harr]. }
  destruct HJ as (HL & Hlen & HA).
  unfold E in HA, Hlen. rewrite firstn_all in HA, Hlen.
  rewrite Nat.sub_diag, app_nil_r in HA.
  split; [|exact Hlen].
  destruct st'. simpl in *. congruence.
Qed.

Lemma tf_bounds_length paths tf : length (tf_bounds paths tf) = length paths.
Proof.
  revert tf. induction paths as [|p paths IH]; intros tf; simpl; [|rewrite IH]; reflexivity.
Qed.

(** A successful reading loop appends one matrix per experiment, each read
    from its recording under the running bound. *)
Lemma read_data_returned eeg ti paths tf st tf' st' refs :
  st_lists st !! eeg = Some refs ->
  read_data eeg ti paths tf st = Returned tf' st' ->
  st_lists st' =
    <[eeg := refs ++ seq (length (st_arrays st)) (length paths)]> (st_lists st) /\
  st_arrays st' = st_arrays st ++ zip_with (loaded ti) paths (tf_bounds paths tf) /\
  Forall (fun t => ti < t) (tf_bounds paths tf) /\
  Forall nd_wf (zip_with (loaded ti) paths (tf_bounds paths tf)).
Proof.
  revert tf st refs.
  induction paths as [|exp paths IH]; intros tf st refs Hrefs Hrun; simpl in Hrun.
  - apply ret_returned in Hrun as [_ ->]. simpl.
    rewrite !app_nil_r, list_insert_id by exact Hrefs. auto.
  - apply bind_returned in Hrun as (n & s1 & Hn & Hrun).
    apply lift_returned in Hn as [Hn ->].
    apply experiment_length_ok in Hn as [_ ->].
    set (t := resolve_tf tf (df_size (read_csv exp) / df_num_keys (read_csv exp))) in *.
    apply bind_returned in Hrun as (u & s1 & Hassert & Hrun).
    apply lift_returned in Hassert as [Hassert ->].
    apply assert_ok, Z.ltb_lt in Hassert.
    apply bind_returned in Hrun as (r & s1 & Halloc & Hrun).
    apply np_alloc_returned in Halloc as [Hr Hs1]. subst r s1.
    apply bind_returned in Hrun as (u' & s1 & Happ & Hrun).
    apply list_append_returned in Happ as (xs & Hxs & ->). simpl in Hxs.
    rewrite Hrefs in Hxs. injection Hxs as <-.
    apply bind_returned in Hrun as ([] & s1 & Hload & Hrun).
    eapply load_electrodes_returned in Hload;
      [| simpl; apply list_lookup_insert_eq; eapply lookup_lt_Some, Hrefs
       | reflexivity | reflexivity ].
    destruct Hload as [-> Hwf].
    eapply IH in Hrun;
      [| simpl; apply list_lookup_insert_eq; eapply lookup_lt_Some, Hrefs ].
    destruct Hrun as (HL & HA & Hlt & Hwfs).
    simpl in HL, HA. fold t.
    rewrite length_app in HL. simpl in HL.
    rewrite list_insert_insert_eq in HL.
    rewrite <- app_assoc in HL, HA. simpl in HL, HA.
    rewrite Nat.add_1_r in HL.
    repeat split; [exact HL | exact HA | |].
    + constructor; assumption.
    + constructor; assumption.
Qed.

End Read.

(** ** The relation between a list object and its arrays *)

Lemma holds_length st l refs xs : holds st l refs xs -> length refs = length xs.
Proof. intros [_ HF]. eapply Forall2_length, HF. Qed.

Lemma holds_lookup st l refs xs i r :
  holds st l refs xs -> refs !! i = Some r ->
  exists x, xs !! i = Some x /\ st_arrays st !! r = Some x.
Proof.
  intros [_ HF] Hr. eapply Forall2_lookup_l in HF as (x & Hx & Hrx); eauto.
Qed.

(** Allocating arrays and updating another list, or this list at the same
    references, keep what a list holds. *)
Lemma holds_extend st st' l refs xs :
  holds st l refs xs ->
  st_lists st' !! l = Some refs ->
  (exists new, st_arrays st' = st_arrays st ++ new) ->
  holds st' l refs xs.
Proof.
  intros [_ HF] HL [new HA]. split; [exact HL|].
  eapply Forall2_impl; [exact HF|]. intros r x Hrx. simpl in Hrx.
  rewrite HA. apply lookup_app_l_Some. exact Hrx.
Qed.

Section Smooth.
Context `{Externals}.

Lemma smooth_rows_returned eeg sm i src x z E erefs srefs arrays st st' :
  eeg <> sm ->
  st_lists st !! eeg = Some erefs -> erefs !! i = Some src ->
  st_lists st !! sm = Some srefs -> srefs !! i = Some (length arrays) ->
  arrays !! src = Some x ->
  st_arrays st = arrays ++ [z] -> same_shape x z -> nd_wf z ->
  for_each (seq 0 E) (smooth_row eeg sm i) st = Returned tt st' ->
  exists y, st' = Store (st_lists st) (arrays ++ [y]) /\ same_shape x y /\ nd_wf y.
Proof.
  intros Hne Heeg Hsrc Hsm Hdst Hx Harr Hshape Hwf Hrun.
  pose (J := fun (k : nat) (s : store) =>
    st_lists s = st_lists st /\
    exists y, st_arrays s = arrays ++ [y] /\ same_shape x y /\ nd_wf y).
  assert (HJ : J E st').
  { eapply for_range_returned; [| |exact Hrun].
    - intros k s s1 Hk (HL & y & HA & Hsh & Hwfy) Hbody. unfold smooth_row in Hbody.
      apply bind_returned in Hbody as (src' & s2 & Hget & Hbody).
      apply list_getitem_returned in Hget as (xs & Hxs & Hi & ->).
      rewrite HL, Heeg in Hxs. injection Hxs as <-.
      rewrite Hsrc in Hi. injection Hi as <-.
      apply bind_returned in Hbody as (x' & s2 & Hload & Hbody).
      apply np_load_returned in Hload as [Hload ->].
      rewrite HA, (lookup_app_l_Some _ _ _ _ Hx) in Hload. injection Hload as <-.
      apply bind_returned in Hbody as (row & s2 & Hrow & Hbody).
      apply lift_returned in Hrow as [Hrow ->].
      apply bind_returned in Hbody as (v & s2 & Hv & Hbody).
      apply lift_returned in Hv as [Hv ->].
      apply bind_returned in Hbody as (dst & s2 & Hget & Hbody).
      apply list_getitem_returned in Hget as (xs & Hxs & Hi & ->).
      rewrite HL, Hsm in Hxs. injection Hxs as <-.
      rewrite Hdst in Hi. injection Hi as <-.
      apply bind_returned in Hbody as (y0 & s2 & Hload & Hbody).
      apply np_load_returned in Hload as [Hload ->].
      rewrite HA, list_lookup_middle in Hload by reflexivity. injection Hload as <-.
      apply bind_returned in Hbody as (y' & s2 & Hset & Hbody).
      apply lift_returned in Hset as [Hset ->].
      apply np_store_returned in Hbody. subst s1. simpl.
      split; [exact HL|]. exists y'. split.
      + rewrite HA, insert_app_r_alt by lia. rewrite Nat.sub_diag. reflexivity.
      + split; [|eapply set_row_wf; eauto].
        apply set_row_shape in Hset as [H0 H1]. destruct Hsh as [Hs0 Hs1].
        split; congruence.
    - split; [reflexivity|]. exists z. auto. }
  destruct HJ as (HL & y & HA & Hsh & Hwfy). exists y.
  split; [|auto]. destruct st'. simpl in *. congruence.
Qed.

(** Smoothing allocates one array per experiment, of the shape of the raw
    matrix, and leaves the raw matrices alone. *)
Lemma smooth_data_returned eeg sm erefs es st st' :
  eeg <> sm ->
  holds st eeg erefs es ->
  st_lists st !! sm = Some [] ->
  smooth_data eeg sm (length es) st = Returned tt st' ->
  exists sms,
    st_lists st' = <[sm := seq (length (st_arrays st)) (length es)]> (st_lists st) /\
    st_arrays st' = st_arrays st ++ sms /\
    Forall2 same_shape es sms /\ Forall nd_wf sms.
Proof.
  intros Hne Hholds Hsm Hrun. unfold smooth_data in Hrun.
  pose proof (holds_length _ _ _ _ Hholds) as Hlen.
  destruct Hholds as [Heeg HF].
  set (a0 := length (st_arrays st)) in *.
  pose (K := fun (i : nat) (s : store) =>
    st_lists s = <[sm := seq a0 i]> (st_lists st) /\
    exists sms, st_arrays s = st_arrays st ++ sms /\
                Forall2 same_shape (take i es) sms /\ Forall nd_wf sms).
  assert (HK : K (length es) st').
  { eapply for_range_returned; [| |exact Hrun].
    - intros i s s1 Hi (HL & sms & HA & Hsh & Hwf) Hbody.
      pose proof (Forall2_length _ _ _ Hsh) as Hsms.
      rewrite length_take in Hsms.
      unfold smooth_experiment in Hbody.
      apply bind_returned in Hbody as (src & s2 & Hget & Hbody).
      apply list_getitem_returned in Hget as (xs & Hxs & Hsrc & ->).
      rewrite HL, list_lookup_insert_ne in Hxs by congruence.
      rewrite Heeg in Hxs. injection Hxs as <-.
      destruct (Forall2_lookup_l _ _ _ _ _ HF Hsrc) as (x & Hx & Hrx).
      apply bind_returned in Hbody as (x' & s2 & Hload & Hbody).
      apply np_load_returned in Hload as [Hload ->].
      rewrite HA, (lookup_app_l_Some _ _ _ _ Hrx) in Hload. injection Hload as <-.
      apply bind_returned in Hbody as (z & s2 & Halloc & Hbody).
      apply np_alloc_returned in Halloc as [Hz Hs2]. subst z s2.
      apply bind_returned in Hbody as (u & s2 & Happ & Hbody).
      apply list_append_returned in Happ as (xs & Hxs & ->). simpl in Hxs.
      rewrite HL, list_lookup_insert_eq in Hxs by (eapply lookup_lt_Some, Hsm).
      injection Hxs as <-. simpl in Hbody.
      eapply (smooth_rows_returned eeg sm i src x (np_zeros_like x) _ erefs
                (seq a0 i ++ [length (st_arrays s)]) (st_arrays st ++ sms)) in Hbody;
        [ | exact Hne
          | simpl; rewrite HL, list_lookup_insert_ne by congruence;
            rewrite list_lookup_insert_ne by congruence; exact Heeg
          | exact Hsrc
          | simpl; apply list_lookup_insert_eq; rewrite HL, length_insert;
            eapply lookup_lt_Some, Hsm
          | rewrite HA, lookup_app_r by (rewrite length_seq; lia);
            rewrite length_seq, Nat.sub_diag; reflexivity
          | apply lookup_app_l_Some, Hrx
          | simpl; rewrite HA; reflexivity
          | split; [apply np_zeros_shape0 | reflexivity]
          | apply np_zeros_wf ].
      destruct Hbody as (y & -> & Hshy & Hwfy). simpl.
      split.
      + cbn [st_lists st_arrays]. rewrite HL, list_insert_insert_eq, HA, length_app.
        fold a0. rewrite seq_S. repeat f_equal. lia.
      + cbn [st_lists st_arrays]. exists (sms ++ [y]). split; [rewrite app_assoc; reflexivity|]. split.
        * rewrite (take_S_r _ _ _ Hx). apply Forall2_app; [exact Hsh|].
          constructor; [exact Hshy|constructor].
        * apply Forall_app. split; [exact Hwf|]. constructor; [exact Hwfy|constructor].
    - split.
      + simpl. symmetry. apply list_insert_id, Hsm.
      + exists []. rewrite app_nil_r. repeat split; constructor. }
  destruct HK as (HL & sms & HA & Hsh & Hwf).
  rewrite firstn_all in Hsh. exists sms. auto.
Qed.

End Smooth.

(** ** Smoothing: the filtered rows *)

Section SmoothRows.
Context `{Externals}.

Lemma filtered_ok_wf x : filtered_ok x -> nd_wf (smoothed x).
Proof.
  unfold filtered_ok, nd_wf, smoothed. cbn [rows shape1]. intros Hok.
  apply Forall_map. eapply Forall_impl; [exact Hok|].
  intros row (v & _ & Hb). eapply broadcast_to_length, Hb.
Qed.

Lemma smoothed_shape x : same_shape x (smoothed x).
Proof. split; [apply length_map | reflexivity]. Qed.

(** The loop over the electrodes fills the rows of the array that was just
    appended to the smoothed list with the filtered rows of the raw
    matrix. *)
Lemma smooth_rows_content eeg sm i src x erefs srefs arrays st st' :
  eeg <> sm ->
  st_lists st !! eeg = Some erefs -> erefs !! i = Some src ->
  st_lists st !! sm = Some srefs -> srefs !! i = Some (length arrays) ->
  arrays !! src = Some x ->
  st_arrays st = arrays ++ [np_zeros_like x] ->
  shape0 x = length electrode_names ->
  for_each (seq 0 (length electrode_names)) (smooth_row eeg sm i) st = Returned tt st' ->
  st' = Store (st_lists st) (arrays ++ [smoothed x]) /\ filtered_ok x.
Proof.
  intros Hne Heeg Hsrc Hsm Hdst Hx Harr Hrows Hrun.
  set (n := shape1 x) in *.
  set (E := length electrode_names) in *.
  pose (filtered := fun row =>
    exists v, savgol_filter row 5 4 = Ok v /\
              broadcast_to n v = Ok (smoothed_row n row)).
  pose (J := fun (k : nat) (s : store) =>
    st_lists s = st_lists st /\
    Forall filtered (take k (rows x)) /\
    st_arrays s = arrays ++
      [NdArray (map (smoothed_row n) (take k (rows x))
                ++ replicate (E - k) (replicate n 0%float)) n]).
  assert (HJ : J E st').
  { eapply for_range_returned; [| |exact Hrun].
    - intros k s s1 Hk (HL & Hok & HA) Hbody. unfold smooth_row in Hbody.
      apply bind_returned in Hbody as (src' & s2 & Hget & Hbody).
      apply list_getitem_returned in Hget as (xs & Hxs & Hi & ->).
      rewrite HL, Heeg in Hxs. injection Hxs as <-.
      rewrite Hsrc in Hi. injection Hi as <-.
      apply bind_returned in Hbody as (x' & s2 & Hload & Hbody).
      apply np_load_returned in Hload as [Hload ->].
      rewrite HA, (lookup_app_l_Some _ _ _ _ Hx) in Hload. injection Hload as <-.
      apply bind_returned in Hbody as (row & s2 & Hrow & Hbody).
      apply lift_returned in Hrow as [Hrow ->].
      unfold get_row in Hrow.
      destruct (rows x !! k) as [row'|] eqn:Hk'; [|discriminate].
      injection Hrow as ->.
      apply bind_returned in Hbody as (v & s2 & Hv & Hbody).
      apply lift_returned in Hv as [Hv ->].
      apply bind_returned in Hbody as (dst & s2 & Hget & Hbody).
      apply list_getitem_returned in Hget as (xs & Hxs & Hi & ->).
      rewrite HL, Hsm in Hxs. injection Hxs as <-.
      rewrite Hdst in Hi. injection Hi as <-.
      apply bind_returned in Hbody as (y0 & s2 & Hload & Hbody).
      apply np_load_returned in Hload as [Hload ->].
      rewrite HA, list_lookup_middle in Hload by reflexivity. injection Hload as <-.
      apply bind_returned in Hbody as (y' & s2 & Hset & Hbody).
      apply lift_returned in Hset as [Hset ->].
      apply np_store_returned in Hbody. subst s1.
      apply set_row_ok in Hset as (v' & Hb & _ & ->). cbn [rows shape1] in *.
      assert (Hsr : smoothed_row n row = v').
      { unfold smoothed_row. rewrite Hv, Hb. reflexivity. }
      unfold J. cbn [st_lists st_arrays].
      rewrite (take_S_r _ _ _ Hk'), map_app. cbn [map]. rewrite Hsr.
      split; [exact HL|]. split.
      + apply Forall_app. split; [exact Hok|].
        constructor; [|constructor]. exists v. rewrite Hsr. auto.
      + rewrite HA, insert_app_r_alt by lia.
        rewrite Nat.sub_diag. cbn [insert list_insert]. f_equal. f_equal. f_equal.
        assert (Hlen : k = length (map (smoothed_row n) (take k (rows x)))).
        { rewrite length_map, length_take. unfold shape0 in Hrows. lia. }
        replace (E - k)%nat with (S (E - S k)) by lia.
        rewrite Hlen at 1. apply insert_take_drop_snoc.
    - unfold J. rewrite take_0, Nat.sub_0_r. repeat split; [constructor|].
      rewrite Harr. unfold np_zeros_like, np_zeros. rewrite Hrows. reflexivity. }
  destruct HJ as (HL & Hok & HA).
  assert (Hall : take E (rows x) = rows x).
  { apply take_ge. unfold shape0 in Hrows. lia. }
  rewrite Hall in Hok, HA. rewrite Nat.sub_diag, app_nil_r in HA.
  split; [|exact Hok].
  destruct st' as [L A]. cbn [st_lists st_arrays] in HL, HA. subst L A.
  unfold smoothed. reflexivity.
Qed.

(** Smoothing allocates one array per experiment, holding the filtered rows
    of the raw matrix, and leaves the raw matrices alone. *)
Lemma smooth_data_content eeg sm erefs es st st' :
  eeg <> sm ->
  holds st eeg erefs es ->
  st_lists st !! sm = Some [] ->
  Forall (fun x => shape0 x = length electrode_names) es ->
  smooth_data eeg sm (length es) st = Returned tt st' ->
  st_lists st' = <[sm := seq (length (st_arrays st)) (length es)]> (st_lists st) /\
  st_arrays st' = st_arrays st ++ map smoothed es /\
  Forall filtered_ok es.
Proof.
  intros Hne Hholds Hsm Hrows Hrun. unfold smooth_data in Hrun.
  pose proof (holds_length _ _ _ _ Hholds) as Hlen.
  destruct Hholds as [Heeg HF].
  set (a0 := length (st_arrays st)) in *.
  pose (K := fun (i : nat) (s : store) =>
    st_lists s = <[sm := seq a0 i]> (st_lists st) /\
    st_arrays s = st_arrays st ++ map smoothed (take i es) /\
    Forall filtered_ok (take i es)).
  assert (HK : K (length es) st').
  { eapply for_range_returned; [| |exact Hrun].
    - intros i s s1 Hi (HL & HA & Hok) Hbody.
      unfold smooth_experiment in Hbody.
      apply bind_returned in Hbody as (src & s2 & Hget & Hbody).
      apply list_getitem_returned in Hget as (xs & Hxs & Hsrc & ->).
      rewrite HL, list_lookup_insert_ne in Hxs by congruence.
      rewrite Heeg in Hxs. injection Hxs as <-.
      destruct (Forall2_lookup_l _ _ _ _ _ HF Hsrc) as (x & Hx & Hrx).
      apply bind_returned in Hbody as (x' & s2 & Hload & Hbody).
      apply np_load_returned in Hload as [Hload ->].
      rewrite HA, (lookup_app_l_Some _ _ _ _ Hrx) in Hload. injection Hload as <-.
      apply bind_returned in Hbody as (z & s2 & Halloc & Hbody).
      apply np_alloc_returned in Halloc as [Hz Hs2]. subst z s2.
      apply bind_returned in Hbody as (u & s2 & Happ & Hbody).
      apply list_append_returned in Happ as (xs & Hxs & ->). cbn [st_lists] in Hxs.
      rewrite HL, list_lookup_insert_eq in Hxs by (eapply lookup_lt_Some, Hsm).
      injection Hxs as <-. cbn [st_lists st_arrays] in Hbody.
      assert (Hlt : length (map smoothed (take i es)) = i).
      { rewrite length_map, length_take. lia. }
      eapply (smooth_rows_content eeg sm i src x erefs
                (seq a0 i ++ [length (st_arrays s)])
                (st_arrays st ++ map smoothed (take i es))) in Hbody;
        [ | exact Hne
          | cbn [st_lists]; rewrite HL, list_lookup_insert_ne by congruence;
            rewrite list_lookup_insert_ne by congruence; exact Heeg
          | exact Hsrc
          | cbn [st_lists]; apply list_lookup_insert_eq; rewrite HL, length_insert;
            eapply lookup_lt_Some, Hsm
          | rewrite HA, lookup_app_r by (rewrite length_seq; lia);
            rewrite length_seq, Nat.sub_diag; reflexivity
          | apply lookup_app_l_Some, Hrx
          | cbn [st_arrays]; rewrite HA; reflexivity
          | rewrite Forall_forall in Hrows; apply Hrows;
            eapply list_elem_of_lookup_2, Hx ].
      destruct Hbody as [-> Hokx]. unfold K. cbn [st_lists st_arrays].
      rewrite (take_S_r _ _ _ Hx), map_app. cbn [map].
      split; [|split].
      + rewrite HL, list_insert_insert_eq, HA, length_app, Hlt.
        fold a0. rewrite seq_S. reflexivity.
      + rewrite app_assoc. reflexivity.
      + apply Forall_app. split; [exact Hok|]. constructor; [exact Hokx|constructor].
    - unfold K. rewrite take_0. cbn [map]. rewrite app_nil_r.
      split; [|split; [reflexivity|constructor]].
      cbn [seq]. symmetry. apply list_insert_id, Hsm. }
  destruct HK as (HL & HA & Hok).
  rewrite firstn_all in HA, Hok. auto.
Qed.

End SmoothRows.

(** Updating position [j] of a list whose first [j] elements are already
    mapped. *)
Lemma insert_map_take_drop {A : Type} (f : A -> A) (l : list A) (j : nat) (x : A) :
  l !! j = Some x ->
  <[j := f x]> (map f (take j l) ++ drop j l) = map f (take (S j) l) ++ drop (S j) l.
Proof.
  intros Hj. pose proof (lookup_lt_Some _ _ _ Hj) as Hlt.
  rewrite (drop_S _ _ _ Hj), (take_S_r _ _ _ Hj), map_app. simpl.
  rewrite insert_app_r_alt by (rewrite length_map, length_take; lia).
  rewrite length_map, length_take.
  replace (j - j `min` length l)%nat with 0%nat by lia. simpl.
  rewrite <- app_assoc. reflexivity.
Qed.

Lemma lookup_map_take_drop {A : Type} (f : A -> A) (l : list A) (j : nat) :
  (map f (take j l) ++ drop j l) !! j = l !! j.
Proof.
  destruct (decide (j < length l)%nat) as [Hlt|Hge].
  - rewrite lookup_app_r by (rewrite length_map, length_take; lia).
    rewrite length_map, length_take, lookup_drop. f_equal. lia.
  - rewrite (lookup_ge_None_2 l) by lia. apply lookup_ge_None_2.
    rewrite length_app, length_map, length_take, length_drop. lia.
Qed.

Section Center.
Context `{Externals}.

Lemma subtract_mean_length row : length (subtract_mean row) = length row.
Proof. unfold subtract_mean. apply length_map. Qed.

Lemma center_rows_shape x : same_shape x (center_rows x).
Proof. split; unfold shape0, center_rows; simpl; [apply length_map | reflexivity]. Qed.

Lemma center_rows_wf x : nd_wf x -> nd_wf (center_rows x).
Proof.
  unfold nd_wf, center_rows. simpl. intros Hwf.
  apply Forall_map. eapply Forall_impl; [exact Hwf|].
  intros r Hr. simpl. rewrite subtract_mean_length. exact Hr.
Qed.

(** The loop over the electrodes replaces the array object by its centred
    version, in place. *)
Lemma center_rows_returned sm i r x refs st st' :
  st_lists st !! sm = Some refs -> refs !! i = Some r ->
  st_arrays st !! r = Some x ->
  shape0 x = length electrode_names -> nd_wf x ->
  for_each (seq 0 (length electrode_names)) (center_row sm i) st = Returned tt st' ->
  st' = Store (st_lists st) (<[r := center_rows x]> (st_arrays st)).
Proof.
  intros Hsm Hr Hx Hshape Hwf Hrun.
  pose proof (lookup_lt_Some _ _ _ Hx) as Hrlt.
  pose (J := fun (j : nat) (s : store) =>
    st_lists s = st_lists st /\
    st_arrays s =
      <[r := NdArray (map subtract_mean (take j (rows x)) ++ drop j (rows x))
                     (shape1 x)]> (st_arrays st)).
  assert (HJ : J (length electrode_names) st').
  { eapply for_range_returned; [| |exact Hrun].
    - intros j s s1 Hj (HL & HA) Hbody. unfold center_row in Hbody.
      apply bind_returned in Hbody as (r' & s2 & Hget & Hbody).
      apply list_getitem_returned in Hget as (xs & Hxs & Hi & ->).
      rewrite HL, Hsm in Hxs. injection Hxs as <-.
      rewrite Hr in Hi. injection Hi as <-.
      apply bind_returned in Hbody as (y & s2 & Hload & Hbody).
      apply np_load_returned in Hload as [Hload ->].
      rewrite HA, list_lookup_insert_eq in Hload by exact Hrlt. injection Hload as <-.
      apply bind_returned in Hbody as (row & s2 & Hrow & Hbody).
      apply lift_returned in Hrow as [Hrow ->].
      unfold get_row in Hrow. simpl in Hrow.
      rewrite lookup_map_take_drop in Hrow.
      destruct (rows x !! j) as [row'|] eqn:Hj'; [|discriminate].
      injection Hrow as ->.
      apply bind_returned in Hbody as (y' & s2 & Hset & Hbody).
      apply lift_returned in Hset as [Hset ->].
      apply np_store_returned in Hbody. subst s1.
      apply set_row_ok in Hset as (v' & Hv & _ & ->).
      cbn [rows shape1] in *.
      assert (v' = subtract_mean row) as ->.
      { unfold broadcast_to in Hv. rewrite subtract_mean_length in Hv.
        unfold nd_wf in Hwf. rewrite Forall_lookup in Hwf.
        rewrite (Hwf _ _ Hj'), Nat.eqb_refl in Hv. congruence. }
      split; [exact HL|]. cbn [st_lists st_arrays].
      rewrite HA, list_insert_insert_eq, insert_map_take_drop by exact Hj'.
      reflexivity.
    - split; [reflexivity|]. simpl. rewrite drop_0.
      destruct x as [rs n]. simpl. symmetry. apply list_insert_id, Hx. }
  destruct HJ as (HL & HA).
  rewrite <- Hshape in HA. unfold shape0 in HA.
  rewrite firstn_all, drop_all, app_nil_r in HA.
  destruct st'. simpl in *. unfold center_rows. congruence.
Qed.

(** Centring replaces, in place, every array of the list; the list holds a
    block of consecutive array objects. *)
Lemma center_data_returned sm before xs after st st' :
  st_lists st !! sm = Some (seq (length before) (length xs)) ->
  st_arrays st = before ++ xs ++ after ->
  Forall (fun x => shape0 x = length electrode_names) xs ->
  Forall nd_wf xs ->
  center_data sm (length xs) st = Returned tt st' ->
  st' = Store (st_lists st) (before ++ map center_rows xs ++ after).
Proof.
  intros Hsm Harr Hshape Hwf Hrun. unfold center_data in Hrun.
  pose (K := fun (i : nat) (s : store) =>
    st_lists s = st_lists st /\
    st_arrays s = before ++ (map center_rows (take i xs) ++ drop i xs) ++ after).
  assert (HK : K (length xs) st').
  { eapply for_range_returned; [| |exact Hrun].
    - intros i s s1 Hi (HL & HA) Hbody.
      destruct (lookup_lt_is_Some_2 xs i Hi) as [x Hx].
      assert (Hlook : st_arrays s !! (length before + i)%nat = Some x).
      { rewrite HA, lookup_app_r by lia.
        replace (length before + i - length before)%nat with i by lia.
        rewrite lookup_app_l
          by (rewrite length_app, length_map, length_take, length_drop; lia).
        rewrite lookup_map_take_drop. exact Hx. }
      eapply center_rows_returned in Hbody;
        [ | rewrite HL; exact Hsm
          | apply lookup_seq; split; [reflexivity | exact Hi]
          | exact Hlook
          | eapply Forall_lookup_1 in Hshape; eauto
          | eapply Forall_lookup_1 in Hwf; eauto ].
      subst s1. split; [exact HL|]. cbn [st_lists st_arrays].
      rewrite HA, insert_app_r_alt by lia.
      replace (length before + i - length before)%nat with i by lia.
      rewrite insert_app_l
        by (rewrite length_app, length_map, length_take, length_drop; lia).
      rewrite insert_map_take_drop by exact Hx. reflexivity.
    - split; [reflexivity|]. simpl. rewrite drop_0. exact Harr. }
  destruct HK as (HL & HA).
  rewrite firstn_all, drop_all, app_nil_r in HA.
  destruct st'. simpl in *. congruence.
Qed.

End Center.

Lemma lookup_seq_all {A : Type} (xs ys : list A) :
  Forall2 (fun i y => xs !! i = Some y) (seq 0 (length xs)) ys -> ys = xs.
Proof.
  intros HF. apply list_eq. intros i.
  pose proof (Forall2_length _ _ _ HF) as Hlen. rewrite length_seq in Hlen.
  destruct (ys !! i) as [y|] eqn:Hy.
  - eapply Forall2_lookup_r in HF as (j & Hj & Hx); [|exact Hy].
    apply lookup_seq in Hj as [-> _]. simpl in Hx. congruence.
  - symmetry. apply lookup_ge_None. apply lookup_ge_None in Hy. lia.
Qed.

Lemma insert_seq_drop (l : list nat) (a i : nat) :
  (i < length l)%nat ->
  <[i := (a + i)%nat]> (seq a i ++ drop i l) = seq a (S i) ++ drop (S i) l.
Proof.
  intros Hi. destruct (lookup_lt_is_Some_2 l i Hi) as [x Hx].
  rewrite (drop_S _ _ _ Hx), seq_S.
  rewrite insert_app_r_alt by (rewrite length_seq; lia).
  rewrite length_seq, Nat.sub_diag. simpl. rewrite <- app_assoc. reflexivity.
Qed.

Lemma lookup_seq_drop (l : list nat) (a i : nat) :
  (seq a i ++ drop i l) !! i = l !! i.
Proof.
  rewrite lookup_app_r by (rewrite length_seq; lia).
  rewrite length_seq, Nat.sub_diag, lookup_drop. f_equal. lia.
Qed.

(** Reading the arrays of a list of references leaves the store alone. *)
Lemma map_M_load_returned {B : Type} (g : ndarray -> B) refs xs st v st' :
  Forall2 (fun r x => st_arrays st !! r = Some x) refs xs ->
  map_M (fun r => do exp <- np_load r in ret (g exp)) refs st = Returned v st' ->
  v = map g xs /\ st' = st.
Proof.
  intros HF. revert v st'.
  induction HF as [|r x refs xs Hrx HF IH]; intros v st' Hrun; simpl in Hrun.
  - apply ret_returned in Hrun as [-> ->]. auto.
  - apply bind_returned in Hrun as (y & s1 & Hy & Hrun).
    apply bind_returned in Hy as (exp & s2 & Hload & Hret).
    apply np_load_returned in Hload as [Hload ->].
    apply ret_returned in Hret as [-> ->].
    apply bind_returned in Hrun as (ys & s2 & Hys & Hrun).
    apply IH in Hys as [-> ->].
    apply ret_returned in Hrun as [-> ->].
    simpl. split; congruence.
Qed.

Lemma map_M_np_load_returned refs xs st v st' :
  Forall2 (fun r x => st_arrays st !! r = Some x) refs xs ->
  map_M np_load refs st = Returned v st' ->
  v = xs /\ st' = st.
Proof.
  intros HF. revert v st'.
  induction HF as [|r x refs xs Hrx HF IH]; intros v st' Hrun; simpl in Hrun.
  - apply ret_returned in Hrun as [-> ->]. auto.
  - apply bind_returned in Hrun as (y & s1 & Hload & Hrun).
    apply np_load_returned in Hload as [Hload ->].
    apply bind_returned in Hrun as (ys & s2 & Hys & Hrun).
    apply IH in Hys as [-> ->].
    apply ret_returned in Hrun as [-> ->].
    split; congruence.
Qed.

Section Wavelets.
Context `{Externals}.

(** The spectral arrays are new objects, appended to [wav_exp_list] in the
    order of the experiments. *)
Lemma wavelet_data_returned a sm wav idx freq st freq' st' srefs xs wrefs :
  sm <> wav ->
  holds st sm srefs xs ->
  st_lists st !! wav = Some wrefs ->
  wavelet_data a sm wav idx freq st = Returned freq' st' ->
  exists ys,
    Forall2 (fun i y => xs !! i = Some y) idx ys /\
    st_lists st' =
      <[wav := wrefs ++ seq (length (st_arrays st)) (length idx)]> (st_lists st) /\
    st_arrays st' = st_arrays st ++ map (fun y => fst (wavelets a y)) ys /\
    (idx = [] -> freq' = freq) /\ (idx <> [] -> is_Some freq').
Proof.
  intros Hne. revert freq st wrefs.
  induction idx as [|i idx IH]; intros freq st wrefs Hholds Hwav Hrun; simpl in Hrun.
  - apply ret_returned in Hrun as [-> ->]. exists []. simpl.
    rewrite !app_nil_r, list_insert_id by exact Hwav.
    repeat split; [constructor | congruence].
  - apply bind_returned in Hrun as (r & s1 & Hget & Hrun).
    apply list_getitem_returned in Hget as (refs & Hrefs & Hi & ->).
    pose proof Hholds as [Hsm HF].
    rewrite Hsm in Hrefs. injection Hrefs as <-.
    destruct (Forall2_lookup_l _ _ _ _ _ HF Hi) as (x & Hx & Hrx).
    apply bind_returned in Hrun as (x' & s1 & Hload & Hrun).
    apply np_load_returned in Hload as [Hload ->].
    rewrite Hrx in Hload. injection Hload as <-.
    destruct (wavelets a x) as [wav_exp fr] eqn:Hw.
    apply bind_returned in Hrun as (w & s1 & Halloc & Hrun).
    apply np_alloc_returned in Halloc as [Hw' Hs1]. subst w s1.
    apply bind_returned in Hrun as (u & s1 & Happ & Hrun).
    apply list_append_returned in Happ as (ws & Hws & ->). simpl in Hws.
    rewrite Hwav in Hws. injection Hws as <-.
    eapply IH in Hrun;
      [ | eapply holds_extend;
          [ exact Hholds
          | simpl; rewrite list_lookup_insert_ne by congruence; exact Hsm
          | simpl; eauto ]
        | simpl; apply list_lookup_insert_eq; eapply lookup_lt_Some, Hwav ].
    destruct Hrun as (ys & Hys & HL & HA & Hnil & Hfreq).
    exists (x :: ys). simpl in HL, HA.
    rewrite length_app in HL. simpl in HL.
    rewrite list_insert_insert_eq, <- app_assoc in HL.
    rewrite <- app_assoc in HA. simpl in HL, HA. rewrite Nat.add_1_r in HL.
    repeat split.
    + constructor; assumption.
    + exact HL.
    + simpl. rewrite Hw. exact HA.
    + discriminate.
    + intros _. destruct idx as [|j idx].
      * rewrite (Hnil eq_refl). eauto.
      * apply Hfreq. discriminate.
Qed.

Lemma frame_statistic_returned f wav wrefs ws st v st' :
  holds st wav wrefs ws ->
  frame_statistic f wav st = Returned v st' ->
  v = map (log_reduce f) ws /\ st' = st.
Proof.
  intros [Hwav HF] Hrun. unfold frame_statistic in Hrun.
  apply bind_returned in Hrun as (refs & s1 & Hread & Hrun).
  apply list_read_returned in Hread as [Hrefs ->].
  rewrite Hwav in Hrefs. injection Hrefs as <-.
  eapply map_M_load_returned in Hrun; eauto.
Qed.

Lemma experiment_shapes_returned eeg erefs es st v st' :
  holds st eeg erefs es ->
  experiment_shapes eeg st = Returned v st' ->
  v = map (fun x => (shape0 x, shape1 x)) es /\ st' = st.
Proof.
  intros [Heeg HF] Hrun. unfold experiment_shapes in Hrun.
  apply bind_returned in Hrun as (refs & s1 & Hread & Hrun).
  apply list_read_returned in Hread as [Hrefs ->].
  rewrite Heeg in Hrefs. injection Hrefs as <-.
  eapply map_M_load_returned in Hrun; eauto.
Qed.

Lemma normalize_frames_ok w w' :
  normalize_frames w = Ok w' -> w' = normalized w.
Proof.
  unfold normalize_frames.
  destruct ((shape0 w =? 0)%nat && negb (shape1 w =? 0)%nat); [discriminate|].
  intros [= <-]. reflexivity.
Qed.

(** Normalization replaces every element of the list by a new array, the
    normalized one: [norm_wav_exp_list] is [wav_exp_list]. *)
Lemma normalize_data_returned wav wrefs ws st st' :
  holds st wav wrefs ws ->
  normalize_data wav wav st = Returned tt st' ->
  st_lists st' =
    <[wav := seq (length (st_arrays st)) (length ws)]> (st_lists st) /\
  st_arrays st' = st_arrays st ++ map normalized ws /\
  Forall (fun w => normalize_frames w = Ok (normalized w)) ws.
Proof.
  intros Hholds Hrun. unfold normalize_data in Hrun.
  pose proof (holds_length _ _ _ _ Hholds) as Hlen.
  destruct Hholds as [Hwav HF].
  apply bind_returned in Hrun as (refs & s1 & Hread & Hrun).
  apply list_read_returned in Hread as [Hrefs ->].
  rewrite Hwav in Hrefs. injection Hrefs as <-.
  set (a0 := length (st_arrays st)) in *.
  pose (K := fun (i : nat) (s : store) =>
    st_lists s = <[wav := seq a0 i ++ drop i wrefs]> (st_lists st) /\
    st_arrays s = st_arrays st ++ map normalized (take i ws) /\
    Forall (fun w => normalize_frames w = Ok (normalized w)) (take i ws)).
  assert (HK : K (length wrefs) st').
  { eapply for_range_returned; [| |exact Hrun].
    - intros i s s1 Hi (HL & HA & Hok) Hbody. unfold normalize_experiment in Hbody.
      apply bind_returned in Hbody as (r & s2 & Hget & Hbody).
      apply list_getitem_returned in Hget as (refs & Hrefs & Hr & ->).
      rewrite HL, list_lookup_insert_eq in Hrefs by (eapply lookup_lt_Some, Hwav).
      injection Hrefs as <-. rewrite lookup_seq_drop in Hr.
      destruct (Forall2_lookup_l _ _ _ _ _ HF Hr) as (w & Hw & Hrw).
      apply bind_returned in Hbody as (w0 & s2 & Hload & Hbody).
      apply np_load_returned in Hload as [Hload ->].
      rewrite HA, (lookup_app_l_Some _ _ _ _ Hrw) in Hload. injection Hload as <-.
      apply bind_returned in Hbody as (w' & s2 & Hnorm & Hbody).
      apply lift_returned in Hnorm as [Hnorm ->].
      pose proof (normalize_frames_ok _ _ Hnorm) as ->.
      apply bind_returned in Hbody as (r' & s2 & Halloc & Hbody).
      apply np_alloc_returned in Halloc as [Hr' Hs2]. subst r' s2.
      apply list_setitem_returned in Hbody as (refs & Hrefs & _ & ->).
      cbn [st_lists st_arrays] in *.
      rewrite HL, list_lookup_insert_eq in Hrefs by (eapply lookup_lt_Some, Hwav).
      injection Hrefs as <-.
      unfold K. cbn [st_lists st_arrays].
      rewrite (take_S_r _ _ _ Hw), map_app. simpl.
      repeat split.
      + rewrite HL, list_insert_insert_eq, HA, length_app, length_map, length_take.
        fold a0. replace (i `min` length ws)%nat with i by lia.
        rewrite insert_seq_drop by exact Hi. reflexivity.
      + rewrite HA, <- app_assoc. reflexivity.
      + apply Forall_app. split; [exact Hok|]. constructor; [exact Hnorm|constructor].
    - unfold K. simpl. rewrite app_nil_r.
      repeat split; [|constructor]. symmetry. apply list_insert_id, Hwav. }
  destruct HK as (HL & HA & Hok).
  rewrite Hlen, firstn_all in HA, Hok. rewrite drop_all, app_nil_r in HL.
  rewrite <- Hlen. auto.
Qed.

End Wavelets.

(** ** Label vectors *)

Lemma rfold_invariant {S A : Type} (P : S -> Prop) (body : S -> A -> result S)
  (xs : list A) (s s' : S) :
  (forall s x s', P s -> body s x = Ok s' -> P s') ->
  P s -> rfold body xs s = Ok s' -> P s'.
Proof.
  intros Hbody. revert s.
  induction xs as [|x xs IH]; intros s Hs Hrun; simpl in Hrun.
  - injection Hrun as <-. exact Hs.
  - apply rbind_ok in Hrun as (s1 & Hx & Hrun). eauto.
Qed.

Lemma enumerate_snoc {A : Type} (xs : list A) (x : A) :
  enumerate (xs ++ [x]) = enumerate xs ++ [(length xs, x)].
Proof.
  unfold enumerate. rewrite length_app. simpl. rewrite Nat.add_1_r, seq_S.
  rewrite zip_with_app by (rewrite length_seq; reflexivity). reflexivity.
Qed.

Lemma to_int64_ok v x :
  to_int64 v = Ok x <-> x = v /\ int64_min <= v <= int64_max.
Proof.
  unfold to_int64.
  destruct (Z.leb_spec int64_min v); destruct (Z.leb_spec v int64_max); cbn;
    split; try discriminate; try (intros [_ ?]; lia).
  - intros [= <-]. auto.
  - intros [-> _]. reflexivity.
Qed.

Lemma set_item_ok (d : list Z) i v d' :
  set_item d i v = Ok d' ->
  - Z.of_nat (length d) <= i < Z.of_nat (length d) /\
  int64_min <= v <= int64_max /\
  d' = <[Z.to_nat (if i <? 0 then i + Z.of_nat (length d) else i) := v]> d.
Proof.
  unfold set_item.
  destruct (Z.ltb_spec i (- Z.of_nat (length d)));
    destruct (Z.leb_spec (Z.of_nat (length d)) i); cbn; try discriminate.
  intros Hrun. apply rbind_ok in Hrun as (x & Hx & [= <-]).
  apply to_int64_ok in Hx as [-> Hv]. split; [lia | auto].
Qed.

Lemma set_item_length (d : list Z) i v d' :
  set_item d i v = Ok d' -> length d' = length d.
Proof. intros Hset. apply set_item_ok in Hset as (_ & _ & ->). apply length_insert. Qed.

Lemma set_masked_ok (d : list Z) mask v d' :
  set_masked d mask v = Ok d' -> length mask = length d /\ d' = override v mask d.
Proof.
  unfold set_masked. destruct (Nat.eqb_spec (length mask) (length d)); [|discriminate].
  intros Hrun. apply rbind_ok in Hrun as (x & Hx & [= <-]).
  apply to_int64_ok in Hx as [-> _]. auto.
Qed.

Lemma override_length v mask d :
  length mask = length d -> length (override v mask d) = length d.
Proof. intros Hlen. unfold override. rewrite length_zip_with. lia. Qed.

Lemma override_lookup v (mask : list bool) (d : list Z) (f : nat) (m : bool) x :
  mask !! f = Some m -> d !! f = Some x ->
  override v mask d !! f = Some (if m then v else x).
Proof.
  intros Hm Hx. unfold override. rewrite lookup_zip_with, Hm. simpl.
  rewrite Hx. reflexivity.
Qed.

(** What a loop of [mask_step]s computes: one mask per experiment, applied
    to the label vector of that experiment and to no other. *)
Lemma mask_loop_ok mk v paths dbc masks dbc' :
  rfold (mask_step mk v) (enumerate paths) ([], dbc) = Ok (masks, dbc') ->
  length masks = length paths /\ length dbc' = length dbc /\
  (forall i p, paths !! i = Some p ->
     exists mask d, mk i p = Ok mask /\ dbc !! i = Some d /\
                    length mask = length d /\ masks !! i = Some mask /\
                    dbc' !! i = Some (override v mask d)) /\
  (forall i, (length paths <= i)%nat -> dbc' !! i = dbc !! i).
Proof.
  revert masks dbc'.
  induction paths as [|p paths IH] using rev_ind; intros masks dbc' Hrun.
  - simpl in Hrun. injection Hrun as <- <-.
    split; [reflexivity|]. split; [reflexivity|]. split; [|auto].
    intros i p Hp. rewrite lookup_nil in Hp. discriminate.
  - rewrite enumerate_snoc, rfold_app in Hrun.
    apply rbind_ok in Hrun as ([masks0 dbc0] & Hpre & Hlast).
    apply IH in Hpre as (Hmasks & Hlen & Hdone & Hframe).
    simpl in Hlast. apply rbind_ok in Hlast as (s & Hstep & Hs).
    injection Hs as ->. unfold mask_step in Hstep.
    apply rbind_ok in Hstep as (mask & Hmask & Hstep).
    apply rbind_ok in Hstep as (d & Hd & Hstep).
    apply rbind_ok in Hstep as (d' & Hset & Hstep).
    injection Hstep as <- <-.
    apply getitem_ok in Hd. apply set_masked_ok in Hset as [Hml ->].
    pose proof (lookup_lt_Some _ _ _ Hd) as Hlt.
    rewrite Hframe in Hd by lia.
    rewrite !length_app, length_insert. simpl.
    repeat split; [lia | exact Hlen | |].
    + intros i q Hq. destruct (decide (i < length paths)%nat) as [Hi|Hi].
      * rewrite lookup_app_l in Hq by exact Hi.
        destruct (Hdone _ _ Hq) as (m & x & Hm & Hx & Hmx & Hmi & Hxi).
        exists m, x. repeat split; try assumption.
        -- rewrite lookup_app_l by lia. exact Hmi.
        -- rewrite list_lookup_insert_ne by lia. exact Hxi.
      * pose proof (lookup_lt_Some _ _ _ Hq) as Hq'.
        rewrite length_app in Hq'. simpl in Hq'.
        assert (i = length paths) as -> by lia.
        rewrite list_lookup_middle in Hq by reflexivity. injection Hq as <-.
        exists mask, d. repeat split; try assumption.
        -- rewrite <- Hmasks. apply list_lookup_middle. reflexivity.
        -- apply list_lookup_insert_eq. exact Hlt.
    + intros i Hi. rewrite list_lookup_insert_ne by lia. apply Hframe. lia.
Qed.

Section Labels.
Context `{Externals}.

Lemma astype_int_ok x y :
  astype_int x = Ok y -> y = x /\ np_has_int = true.
Proof. unfold astype_int. destruct np_has_int; [|discriminate]. intros [= <-]. auto. Qed.

Lemma rmap_fill_ok v dbc dbc' :
  rmap (fun d => fill d v) dbc = Ok dbc' -> dbc' = map (map (fun _ => v)) dbc.
Proof.
  revert dbc'. induction dbc as [|d dbc IH]; intros dbc' Hrun; cbn in Hrun.
  - injection Hrun as <-. reflexivity.
  - apply rbind_ok in Hrun as (y & Hy & Hrun).
    apply rbind_ok in Hrun as (ys & Hys & [= <-]).
    unfold fill in Hy. apply rbind_ok in Hy as (x & Hx & [= <-]).
    apply to_int64_ok in Hx as [-> _]. rewrite (IH _ Hys). reflexivity.
Qed.

Lemma rmap_fill_fit v d dbc dbc' :
  rmap (fun d => fill d v) (d :: dbc) = Ok dbc' -> in_int64 v.
Proof.
  intros Hrun. cbn in Hrun. apply rbind_ok in Hrun as (y & Hy & _).
  unfold fill in Hy. apply rbind_ok in Hy as (x & Hx & _).
  apply to_int64_ok in Hx as [_ Hv]. exact Hv.
Qed.

Lemma set_masked_fit (d : list Z) mask v d' :
  set_masked d mask v = Ok d' -> in_int64 v.
Proof.
  unfold set_masked. destruct (_ =? _)%nat; [|discriminate].
  intros Hrun. apply rbind_ok in Hrun as (x & Hx & _).
  apply to_int64_ok in Hx as [_ Hv]. exact Hv.
Qed.

(** A mask pass over at least one experiment converts its label. *)
Lemma mask_loop_fit mk v p paths dbc r :
  rfold (mask_step mk v) (enumerate (p :: paths)) ([], dbc) = Ok r -> in_int64 v.
Proof.
  intros Hrun. cbn in Hrun. apply rbind_ok in Hrun as (s1 & Hstep & _).
  apply rbind_ok in Hstep as (mask & _ & Hstep).
  apply rbind_ok in Hstep as (d & _ & Hstep).
  apply rbind_ok in Hstep as (d' & Hset & _).
  eapply set_masked_fit, Hset.
Qed.

(** Lines 136 to 141, when they return, leave NONE on every frame. *)
Lemma fill_labels_ok shapes dbc :
  fill_labels (zero_labels shapes) = Ok dbc -> dbc = initial_labels shapes.
Proof.
  intros Hrun. unfold fill_labels in Hrun. apply rmap_fill_ok in Hrun as ->.
  unfold zero_labels, initial_labels. rewrite map_map. apply map_ext. intros sh.
  clear. induction (snd sh) as [|n IH]; cbn; [reflexivity | rewrite IH; reflexivity].
Qed.

Lemma label_rest_step_eq frame_amps s e :
  label_rest_step frame_amps s e =
  mask_step (rest_mask_at frame_amps) (Behav_value Behav_REST) s e.
Proof.
  destruct s as [masks dbc], e as [i p]. unfold label_rest_step, mask_step.
  unfold rest_mask_at, rest_mask_of.
  destruct (getitem frame_amps i) as [amp|]; simpl; [|reflexivity].
  destruct (threshold_otsu amp _); reflexivity.
Qed.

Lemma label_boundary_step_eq a frame_amps s e :
  label_boundary_step a frame_amps s e =
  mask_step (boundary_mask_at a frame_amps) (Behav_value Behav_BOUNDARY) s e.
Proof.
  destruct s as [masks dbc], e as [i p]. unfold label_boundary_step, mask_step.
  unfold boundary_mask_at.
  destruct (getitem frame_amps i) as [amp|]; reflexivity.
Qed.

Lemma rfold_ext {S A : Type} (f g : S -> A -> result S) xs s :
  (forall s x, f s x = g s x) -> rfold f xs s = rfold g xs s.
Proof.
  intros Hfg. revert s. induction xs as [|x xs IH]; intros s; simpl; [reflexivity|].
  rewrite Hfg. destruct (g s x); simpl; auto.
Qed.

Lemma label_rest_eq path_list frame_amps dbc :
  label_rest path_list frame_amps dbc =
  rfold (mask_step (rest_mask_at frame_amps) (Behav_value Behav_REST))
        (enumerate path_list) ([], dbc).
Proof. apply rfold_ext, label_rest_step_eq. Qed.

Lemma label_boundary_eq a path_list frame_amps dbc :
  label_boundary a path_list frame_amps dbc =
  rfold (mask_step (boundary_mask_at a frame_amps) (Behav_value Behav_BOUNDARY))
        (enumerate path_list) ([], dbc).
Proof. apply rfold_ext, label_boundary_step_eq. Qed.

Lemma same_lengths_refl dbc : same_lengths dbc dbc.
Proof. apply Forall_Forall2_diag, Forall_forall. reflexivity. Qed.

Lemma same_lengths_insert dbc dbc' i d d' :
  same_lengths dbc dbc' -> dbc' !! i = Some d -> length d' = length d ->
  same_lengths dbc (<[i := d']> dbc').
Proof.
  intros HF Hd Hlen. unfold same_lengths in *.
  apply Forall2_same_length_lookup. apply Forall2_same_length_lookup in HF as [Hl HF].
  split; [rewrite length_insert; exact Hl|].
  intros j x y Hx Hy. destruct (decide (i = j)) as [->|Hne].
  - rewrite list_lookup_insert_eq in Hy by (eapply lookup_lt_Some, Hd).
    injection Hy as <-. rewrite Hlen. eauto.
  - rewrite list_lookup_insert_ne in Hy by exact Hne. eauto.
Qed.

Lemma label_gt_step_length a path mid d label_gt d' :
  label_gt_step a path mid d label_gt = Ok d' -> length d' = length d.
Proof.
  unfold label_gt_step. destruct label_gt as [[[s e] b] folder].
  destruct (negb _); [congruence|].
  destruct (_ && _); [|congruence].
  destruct (_ >? _); [|congruence].
  apply set_item_length.
Qed.

Lemma label_offset_lengths a paths i dbc0 dbc offset dbc' :
  same_lengths dbc0 dbc -> label_offset a paths i dbc offset = Ok dbc' ->
  same_lengths dbc0 dbc'.
Proof.
  intros HF Hrun. unfold label_offset in Hrun.
  apply rbind_ok in Hrun as (path & _ & Hrun).
  apply rbind_ok in Hrun as (d & Hd & Hrun).
  apply rbind_ok in Hrun as (d' & Hfold & Hrun).
  injection Hrun as <-. apply getitem_ok in Hd.
  eapply same_lengths_insert; [exact HF | exact Hd |].
  eapply (rfold_invariant (fun x => length x = length d)); [|reflexivity|exact Hfold].
  intros s x s' Hs Hstep. apply label_gt_step_length in Hstep. congruence.
Qed.

Lemma label_ground_truth_lengths a paths shapes dbc dbc' :
  label_ground_truth a paths shapes dbc = Ok dbc' -> same_lengths dbc dbc'.
Proof.
  intros Hrun. unfold label_ground_truth in Hrun.
  eapply (rfold_invariant (same_lengths dbc)); [|apply same_lengths_refl|exact Hrun].
  intros s i s' Hs Hstep. simpl in Hstep.
  apply rbind_ok in Hstep as (shape & _ & Hstep).
  eapply (rfold_invariant (same_lengths dbc)); [|exact Hs|exact Hstep].
  intros s1 offset s2 Hs1 Hoff. eapply label_offset_lengths; eauto.
Qed.

Lemma rfold_invariant_elem {S A : Type} (P : S -> Prop) (body : S -> A -> result S)
  (xs : list A) (s s' : S) :
  (forall s x s', x ∈ xs -> P s -> body s x = Ok s' -> P s') ->
  P s -> rfold body xs s = Ok s' -> P s'.
Proof.
  revert s. induction xs as [|x xs IH]; intros s Hbody Hs Hrun; simpl in Hrun.
  - injection Hrun as <-. exact Hs.
  - apply rbind_ok in Hrun as (s1 & Hx & Hrun).
    eapply IH; [|eapply Hbody; [left|exact Hs|exact Hx]|exact Hrun].
    intros s2 y s3 Hy. apply Hbody. right. exact Hy.
Qed.

Lemma label_gt_step_values a path mid d label_gt d' :
  label_gt ∈ label_gt_list -> Forall (gt_value path) d ->
  label_gt_step a path mid d label_gt = Ok d' -> Forall (gt_value path) d'.
Proof.
  intros Hin Hd. unfold label_gt_step. destruct label_gt as [[[s e] b] folder].
  destruct (str_in folder path) eqn:Hfolder; simpl; [|congruence].
  destruct (_ && _); [|congruence].
  destruct (_ >? _); [|congruence].
  intros Hset. apply set_item_ok in Hset as (_ & _ & ->).
  apply Forall_insert; [exact Hd|].
  right. exists (s, e), b, folder. auto.
Qed.

(** The ground-truth pass leaves on every frame NONE or a label of the table
    selected for the path of the frame's experiment. *)
Lemma label_ground_truth_values a paths shapes dbc gt :
  label_ground_truth a paths shapes dbc = Ok gt ->
  (forall i p d, paths !! i = Some p -> dbc !! i = Some d -> Forall (gt_value p) d) ->
  forall i p g, paths !! i = Some p -> gt !! i = Some g -> Forall (gt_value p) g.
Proof.
  intros Hrun Hinit. unfold label_ground_truth in Hrun.
  pose (P := fun dbc : list (list Z) =>
    forall i p d, paths !! i = Some p -> dbc !! i = Some d -> Forall (gt_value p) d).
  apply (rfold_invariant P) in Hrun; [exact Hrun| |exact Hinit].
  intros s i s' Hs Hstep. simpl in Hstep.
  apply rbind_ok in Hstep as (shape & _ & Hstep).
  apply (rfold_invariant P) in Hstep; [exact Hstep| |exact Hs].
  clear. intros s offset s' Hs Hoff. unfold label_offset in Hoff.
  apply rbind_ok in Hoff as (path & Hpath & Hoff).
  apply rbind_ok in Hoff as (d & Hd & Hoff).
  apply rbind_ok in Hoff as (d' & Hfold & Hoff).
  injection Hoff as <-. apply getitem_ok in Hpath, Hd.
  intros j p x Hp Hx. destruct (decide (i = j)) as [->|Hne].
  - rewrite list_lookup_insert_eq in Hx by (eapply lookup_lt_Some, Hd).
    injection Hx as <-. rewrite Hpath in Hp. injection Hp as <-.
    apply (rfold_invariant_elem (Forall (gt_value path))) in Hfold;
      [exact Hfold | | eapply Hs; eauto].
    intros d1 e d2 He Hd1. apply label_gt_step_values; assumption.
  - rewrite list_lookup_insert_ne in Hx by exact Hne. eapply Hs; eauto.
Qed.

(** The ground-truth pass writes only labels that fit the label vectors. *)
Lemma label_ground_truth_fit a paths shapes dbc gt :
  label_ground_truth a paths shapes dbc = Ok gt ->
  Forall (Forall in_int64) dbc -> Forall (Forall in_int64) gt.
Proof.
  intros Hrun Hinit. unfold label_ground_truth in Hrun.
  apply (rfold_invariant (Forall (Forall in_int64))) in Hrun; [exact Hrun| |exact Hinit].
  intros s i s' Hs Hstep. simpl in Hstep.
  apply rbind_ok in Hstep as (shape & _ & Hstep).
  apply (rfold_invariant (Forall (Forall in_int64))) in Hstep; [exact Hstep| |exact Hs].
  clear. intros s offset s' Hs Hoff. unfold label_offset in Hoff.
  apply rbind_ok in Hoff as (path & _ & Hoff).
  apply rbind_ok in Hoff as (d & Hd & Hoff).
  apply rbind_ok in Hoff as (d' & Hfold & Hoff).
  injection Hoff as <-. apply getitem_ok in Hd.
  apply Forall_insert; [exact Hs|].
  apply (rfold_invariant (Forall in_int64)) in Hfold;
    [exact Hfold | | eapply Forall_lookup_1; eassumption].
  intros d1 [[[gs ge] b] folder] d2 Hd1. unfold label_gt_step.
  destruct (negb _); [congruence|].
  destruct (_ && _); [|congruence].
  destruct (_ >? _); [|congruence].
  intros Hset. apply set_item_ok in Hset as (_ & Hv & ->).
  apply Forall_insert; assumption.
Qed.

Lemma py_range_empty a b : b <= a -> py_range a b = [].
Proof.
  intros Hle. unfold py_range. replace (Z.to_nat (b - a)) with 0%nat by lia.
  reflexivity.
Qed.

(** With no more electrodes than twice [clip_len // 2], every range of
    offsets is empty and the ground-truth pass writes no label. *)
Lemma label_ground_truth_no_offset a paths shapes dbc :
  length shapes = length dbc ->
  Forall (fun s => Z.of_nat (fst s) <= 2 * (clip_len a / 2)) shapes ->
  label_ground_truth a paths shapes dbc = Ok dbc.
Proof.
  intros Hlen Hsmall. unfold label_ground_truth.
  assert (Hstep : forall idx, Forall (fun i => (i < length shapes)%nat) idx ->
    rfold (fun dbc exp_idx =>
             try s := getitem shapes exp_idx in
             rfold (label_offset a paths exp_idx)
                   (py_range (clip_len a / 2) (Z.of_nat (fst s) - clip_len a / 2))
                   dbc) idx dbc = Ok dbc).
  { induction 1 as [|i idx Hi _ IH]; simpl; [reflexivity|].
    destruct (lookup_lt_is_Some_2 shapes i Hi) as [s Hs].
    rewrite (proj2 (getitem_ok _ _ _) Hs). simpl.
    rewrite Forall_lookup in Hsmall. specialize (Hsmall _ _ Hs). simpl in Hsmall.
    rewrite py_range_empty by lia. simpl. exact IH. }
  apply Hstep. rewrite <- Hlen. apply Forall_forall. intros i Hi.
  apply list_elem_of_In, in_seq in Hi. lia.
Qed.

End Labels.

(** ** What the ground-truth pass writes *)

Lemma py_range_snoc a k :
  py_range a (a + Z.of_nat (S k)) = py_range a (a + Z.of_nat k) ++ [a + Z.of_nat k].
Proof.
  unfold py_range.
  replace (Z.to_nat (a + Z.of_nat (S k) - a)) with (S k) by lia.
  replace (Z.to_nat (a + Z.of_nat k - a)) with k by lia.
  rewrite seq_S, map_app. reflexivity.
Qed.

Section GroundTruth.
Context `{Externals}.

Lemma label_gt_step_applies a path mid d label_gt :
  label_gt_step a path mid d label_gt =
  if gt_applies a path mid label_gt
  then set_item d mid (Behav_value (snd (fst label_gt)))
  else Ok d.
Proof.
  unfold label_gt_step, gt_applies. destruct label_gt as [[[s e] b] folder]. simpl.
  destruct (str_in folder path); simpl; [|reflexivity].
  destruct ((s <=? mid) && (mid <? e)); simpl; [|reflexivity].
  destruct (_ >? _); reflexivity.
Qed.

(** The loop over the table, for one frame: the last entry that applies
    decides, and a frame outside the vector raises as soon as an entry
    applies. *)
Lemma label_gt_steps_ok a path mid entries acc d d' :
  0 <= mid ->
  (acc <> None -> mid < Z.of_nat (length d)) ->
  rfold (label_gt_step a path mid) entries (with_label mid acc d) = Ok d' ->
  d' = with_label mid (fold_left (gt_pick a path mid) entries acc) d /\
  (fold_left (gt_pick a path mid) entries acc <> None -> mid < Z.of_nat (length d)).
Proof.
  intros Hmid. revert acc.
  induction entries as [|e entries IH]; intros acc Hacc Hrun; simpl in Hrun.
  - injection Hrun as <-. auto.
  - apply rbind_ok in Hrun as (d1 & Hstep & Hrun).
    rewrite label_gt_step_applies in Hstep. simpl. unfold gt_pick at 2 4.
    destruct (gt_applies a path mid e).
    + assert (Hlen : length (with_label mid acc d) = length d).
      { destruct acc; simpl; [apply length_insert | reflexivity]. }
      apply set_item_ok in Hstep as (Hin & _ & ->). rewrite Hlen in Hin.
      destruct (Z.ltb_spec mid 0); [lia|].
      apply (IH (Some (snd (fst e)))); [intros _; lia|].
      destruct acc; simpl in *; [rewrite list_insert_insert_eq in Hrun|]; exact Hrun.
    + injection Hstep as <-. apply IH; assumption.
Qed.

Lemma gt_labelled_length a path stop d :
  length (gt_labelled a path stop d) = length d.
Proof. unfold gt_labelled. apply length_imap. Qed.

Lemma gt_labelled_start a path d :
  gt_labelled a path (2 * (clip_len a / 2)) d = d.
Proof.
  unfold gt_labelled. apply list_eq. intros f. rewrite list_lookup_imap.
  destruct (d !! f) as [x|]; [|reflexivity]. simpl.
  destruct (Z.leb_spec (2 * (clip_len a / 2)) (Z.of_nat f));
    destruct (Z.ltb_spec (Z.of_nat f) (2 * (clip_len a / 2)));
    try reflexivity; lia.
Qed.

Lemma gt_labelled_step a path (k : nat) d :
  0 <= clip_len a / 2 ->
  let mid := 2 * (clip_len a / 2) + Z.of_nat k in
  (gt_label a path mid <> None -> mid < Z.of_nat (length d)) ->
  with_label mid (gt_label a path mid) (gt_labelled a path mid d)
  = gt_labelled a path (mid + 1) d.
Proof.
  intros Hc mid Hin. apply list_eq. intros f.
  unfold gt_labelled at 2. rewrite list_lookup_imap.
  destruct (decide (Z.of_nat f = mid)) as [Hf|Hf].
  - assert (Z.to_nat mid = f) as Hf' by lia.
    destruct (gt_label a path mid) as [b|] eqn:Hb; simpl.
    + rewrite Hf', list_lookup_insert_eq
        by (rewrite gt_labelled_length; specialize (Hin ltac:(discriminate)); lia).
      destruct (d !! f) as [x|] eqn:Hx.
      * simpl. rewrite Hf, Hb.
        destruct (Z.leb_spec (2 * (clip_len a / 2)) mid); [|lia].
        destruct (Z.ltb_spec mid (mid + 1)); [|lia]. reflexivity.
      * apply lookup_ge_None in Hx. specialize (Hin ltac:(discriminate)). lia.
    + unfold gt_labelled. rewrite list_lookup_imap.
      destruct (d !! f) as [x|]; [|reflexivity]. simpl. rewrite Hf, Hb.
      destruct (_ && _); destruct (_ && _); reflexivity.
  - assert (Hne : Z.to_nat mid <> f) by lia.
    assert (Hsame : gt_labelled a path mid d !! f
                    = (fun x => if (2 * (clip_len a / 2) <=? Z.of_nat f)
                                    && (Z.of_nat f <? mid + 1)
                                then match gt_label a path (Z.of_nat f) with
                                     | Some b => Behav_value b
                                     | None => x
                                     end
                                else x) <$> d !! f).
    { unfold gt_labelled. rewrite list_lookup_imap.
      destruct (d !! f) as [x|]; [|reflexivity]. simpl.
      replace (Z.of_nat f <? mid + 1) with (Z.of_nat f <? mid); [reflexivity|].
      destruct (Z.ltb_spec (Z.of_nat f) mid);
        destruct (Z.ltb_spec (Z.of_nat f) (mid + 1)); try reflexivity; lia. }
    destruct (gt_label a path mid) as [b|]; simpl;
      [rewrite list_lookup_insert_ne by exact Hne|]; exact Hsame.
Qed.

(** The loop over the offsets of one experiment visits the frames
    [2 * (clip_len // 2)], ... in order. *)
Lemma label_offsets_ok a paths i path d (k : nat) dbc dbc' :
  0 <= clip_len a / 2 ->
  paths !! i = Some path -> dbc !! i = Some d ->
  rfold (label_offset a paths i)
        (py_range (clip_len a / 2) (clip_len a / 2 + Z.of_nat k)) dbc = Ok dbc' ->
  dbc' = <[i := gt_labelled a path (2 * (clip_len a / 2) + Z.of_nat k) d]> dbc.
Proof.
  intros Hc Hpath Hd. revert dbc'.
  induction k as [|k IH]; intros dbc' Hrun.
  - rewrite Z.add_0_r, py_range_empty in Hrun by lia. injection Hrun as <-.
    rewrite Z.add_0_r, gt_labelled_start. symmetry. apply list_insert_id, Hd.
  - rewrite py_range_snoc, rfold_app in Hrun.
    apply rbind_ok in Hrun as (dbc1 & Hpre & Hlast).
    apply IH in Hpre. subst dbc1. simpl in Hlast.
    apply rbind_ok in Hlast as (dbc2 & Hstep & Hret). injection Hret as <-.
    unfold label_offset in Hstep.
    apply rbind_ok in Hstep as (path' & Hpath' & Hstep).
    apply getitem_ok in Hpath'. rewrite Hpath in Hpath'. injection Hpath' as <-.
    apply rbind_ok in Hstep as (d1 & Hd1 & Hstep).
    apply getitem_ok in Hd1.
    rewrite list_lookup_insert_eq in Hd1 by (eapply lookup_lt_Some, Hd).
    injection Hd1 as <-.
    apply rbind_ok in Hstep as (d2 & Hfold & Hret). injection Hret as <-.
    replace (clip_len a / 2 + Z.of_nat k + clip_len a / 2)
      with (2 * (clip_len a / 2) + Z.of_nat k) in Hfold by lia.
    apply (label_gt_steps_ok _ _ _ _ None) in Hfold; [|lia|congruence].
    destruct Hfold as [-> Hin]. fold (gt_label a path (2 * (clip_len a / 2) + Z.of_nat k)) in *.
    rewrite gt_labelled_length in Hin.
    rewrite list_insert_insert_eq, gt_labelled_step by assumption.
    replace (2 * (clip_len a / 2) + Z.of_nat (S k))
      with (2 * (clip_len a / 2) + Z.of_nat k + 1) by lia.
    reflexivity.
Qed.

(** The ground-truth pass, experiment by experiment: the frames from
    [2 * (clip_len // 2)] up to the number of rows of the experiment's
    matrix get the label of the table, the other frames keep theirs. *)
Lemma label_ground_truth_ok a paths shapes dbc gt :
  0 <= clip_len a ->
  length paths = length dbc -> length shapes = length dbc ->
  label_ground_truth a paths shapes dbc = Ok gt ->
  length gt = length dbc /\
  forall i path s d, paths !! i = Some path -> shapes !! i = Some s -> dbc !! i = Some d ->
    gt !! i = Some (gt_labelled a path (Z.of_nat (fst s)) d).
Proof.
  intros Hclip Hpaths Hshapes Hrun. unfold label_ground_truth in Hrun.
  assert (Hc : 0 <= clip_len a / 2) by (apply Z.div_pos; lia).
  assert (Hprefix : forall n gt', (n <= length dbc)%nat ->
    rfold (fun dbc exp_idx =>
             try s := getitem shapes exp_idx in
             rfold (label_offset a paths exp_idx)
                   (py_range (clip_len a / 2) (Z.of_nat (fst s) - clip_len a / 2))
                   dbc) (seq 0 n) dbc = Ok gt' ->
    length gt' = length dbc /\
    (forall i path s d, (i < n)%nat -> paths !! i = Some path ->
       shapes !! i = Some s -> dbc !! i = Some d ->
       gt' !! i = Some (gt_labelled a path (Z.of_nat (fst s)) d)) /\
    (forall i, (n <= i)%nat -> gt' !! i = dbc !! i)).
  { induction n as [|n IH]; intros gt' Hn Hfold.
    - simpl in Hfold. injection Hfold as <-.
      split; [reflexivity|]. split; [intros; lia | reflexivity].
    - rewrite seq_S, rfold_app in Hfold.
      apply rbind_ok in Hfold as (dbc1 & Hpre & Hlast).
      apply IH in Hpre as (Hlen & Hdone & Hrest); [|lia].
      simpl in Hlast. apply rbind_ok in Hlast as (dbc2 & Hstep & Hret).
      injection Hret as <-.
      apply rbind_ok in Hstep as (s & Hs & Hstep). apply getitem_ok in Hs.
      destruct (lookup_lt_is_Some_2 paths n) as [path Hpath]; [lia|].
      destruct (lookup_lt_is_Some_2 dbc n) as [d Hd]; [lia|].
      assert (Hd1 : dbc1 !! n = Some d) by (rewrite Hrest by lia; exact Hd).
      assert (Hdbc2 : dbc2 = <[n := gt_labelled a path (Z.of_nat (fst s)) d]> dbc1).
      { destruct (Z.le_gt_cases (Z.of_nat (fst s) - clip_len a / 2) (clip_len a / 2))
          as [Hempty|Hsome].
        - rewrite py_range_empty in Hstep by exact Hempty. injection Hstep as <-.
          symmetry. apply list_insert_id. rewrite Hd1. f_equal.
          unfold gt_labelled. apply list_eq. intros f. rewrite list_lookup_imap.
          destruct (d !! f) as [x|]; [|reflexivity]. simpl.
          destruct (Z.leb_spec (2 * (clip_len a / 2)) (Z.of_nat f));
            destruct (Z.ltb_spec (Z.of_nat f) (Z.of_nat (fst s)));
            try reflexivity; lia.
        - pose (k := Z.to_nat (Z.of_nat (fst s) - 2 * (clip_len a / 2))).
          replace (Z.of_nat (fst s) - clip_len a / 2)
            with (clip_len a / 2 + Z.of_nat k) in Hstep by lia.
          eapply label_offsets_ok in Hstep; [|exact Hc|exact Hpath|exact Hd1].
          rewrite Hstep.
          replace (2 * (clip_len a / 2) + Z.of_nat k) with (Z.of_nat (fst s)) by lia.
          reflexivity. }
      subst dbc2. rewrite length_insert.
      split; [exact Hlen|]. split.
      + intros i p s' d' Hi Hp Hs' Hd'.
        destruct (decide (i = n)) as [->|Hne].
        * rewrite list_lookup_insert_eq by (rewrite Hlen; lia).
          congruence.
        * rewrite list_lookup_insert_ne by congruence. eapply Hdone; eauto. lia.
      + intros i Hi. rewrite list_lookup_insert_ne by lia. apply Hrest. lia. }
  apply Hprefix in Hrun as (Hlen & Hdone & _); [|reflexivity].
  split; [exact Hlen|]. intros i path s d Hp Hs Hd.
  eapply Hdone; eauto. eapply lookup_lt_Some, Hd.
Qed.

End GroundTruth.

(** ** A successful construction, read backwards *)

Lemma new_list_returned st l st' :
  new_list st = Returned l st' ->
  l = length (st_lists st) /\ st' = Store (st_lists st ++ [[]]) (st_arrays st).
Proof. unfold new_list. intros [= <- <-]. auto. Qed.

Lemma holds_block st l before xs after :
  st_lists st !! l = Some (seq (length before) (length xs)) ->
  st_arrays st = before ++ xs ++ after ->
  holds st l (seq (length before) (length xs)) xs.
Proof.
  intros HL HA. split; [exact HL|].
  apply Forall2_same_length_lookup. split; [apply length_seq|].
  intros i r x Hr Hx. apply lookup_seq in Hr as [-> Hi]. simpl.
  rewrite HA, lookup_app_r by lia.
  replace (length before + i - length before)%nat with i by lia.
  apply lookup_app_l_Some, Hx.
Qed.

Lemma concatenate_ok {A : Type} (xs : list (list A)) v :
  concatenate xs = Ok v -> xs <> [] /\ v = concat xs.
Proof. destruct xs; [discriminate|]. intros [= <-]. split; [discriminate|reflexivity]. Qed.

Section Run.
Context `{Externals}.

Lemma loaded_shape ti p t :
  shape (loaded ti p t) = (length electrode_names, Z.to_nat (t - ti)).
Proof. unfold shape, shape0, loaded. simpl. rewrite length_map. reflexivity. Qed.

Lemma loaded_shapes ti paths tfs :
  length paths = length tfs ->
  map shape (zip_with (loaded ti) paths tfs)
  = map (fun t => (length electrode_names, Z.to_nat (t - ti))) tfs.
Proof.
  revert tfs. induction paths as [|p paths IH]; intros [|t tfs] Hlen;
    simpl in *; try discriminate; [reflexivity|].
  rewrite loaded_shape, IH by lia. reflexivity.
Qed.

Lemma center_rows_shapes xs : map shape (map center_rows xs) = map shape xs.
Proof.
  rewrite map_map. apply map_ext. intros x.
  destruct (center_rows_shape x) as [H0 H1]. unfold shape. congruence.
Qed.

Lemma loaded_all_shape0 ti paths tfs :
  Forall (fun x => shape0 x = length electrode_names) (zip_with (loaded ti) paths tfs).
Proof.
  revert tfs. induction paths as [|p paths IH]; intros [|t tfs]; simpl;
    try constructor; [|apply IH].
  unfold shape0, loaded. simpl. apply length_map.
Qed.

Lemma same_shape_shape0 E xs ys :
  Forall2 same_shape xs ys -> Forall (fun x => shape0 x = E) xs ->
  Forall (fun x => shape0 x = E) ys.
Proof.
  induction 1 as [|x y xs ys [H0 H1] _ IH]; intros Hxs; [constructor|].
  inversion Hxs; subst. constructor; [congruence | auto].
Qed.

(** Every successful construction is explained by a trace, in which the raw
    matrices come first in the store and the smoothed copies follow them. *)
Lemma init_returned_layout paths a s st :
  init paths a empty_store = Returned s st ->
  exists t, explains paths a s st t /\ layout paths a t.
Proof.
  intros Hrun. unfold init in Hrun.
  (* the three list objects *)
  apply bind_returned in Hrun as (eeg & s0 & Hnew & Hrun).
  apply new_list_returned in Hnew as [Heeg Hs0]. subst eeg s0.
  apply bind_returned in Hrun as (sm0 & s0 & Hnew & Hrun).
  apply new_list_returned in Hnew as [Hsm0 Hs0]. subst sm0 s0.
  apply bind_returned in Hrun as (wav & s0 & Hnew & Hrun).
  apply new_list_returned in Hnew as [Hwav Hs0]. subst wav s0.
  cbn [st_lists st_arrays empty_store app length] in Hrun.
  (* reading *)
  apply bind_returned in Hrun as (tf' & s1 & Hread & Hrun).
  apply (read_data_returned _ _ _ _ _ _ _ []) in Hread; [|reflexivity].
  destruct Hread as (HL1 & HA1 & Hbounds & Hwf1).
  cbn [st_lists st_arrays app] in HL1, HA1.
  set (tfs := tf_bounds paths (tf a)) in *.
  set (raw := zip_with (loaded (ti a)) paths tfs) in *.
  assert (Htfs : length tfs = length paths) by apply tf_bounds_length.
  assert (Hraw : length raw = length paths).
  { unfold raw. rewrite length_zip_with. lia. }
  assert (Hraw0 : Forall (fun x => shape0 x = length electrode_names) raw)
    by apply loaded_all_shape0.
  (* smoothing *)
  apply bind_returned in Hrun as (sm & s2 & Hsmooth & Hrun).
  assert (Hstage2 : exists sms,
    (if smooth a then Forall2 same_shape raw sms /\ Forall nd_wf sms else sms = raw) /\
    sms = (if smooth a then map smoothed raw else raw) /\
    (smooth a = true -> Forall filtered_ok raw) /\
    sm = (if smooth a then 1%nat else 0%nat) /\
    st_lists s2 = [seq 0 (length paths);
                   if smooth a then seq (length paths) (length paths) else []; []] /\
    st_arrays s2 = if smooth a then raw ++ sms else raw).
  { destruct (smooth a).
    - apply bind_returned in Hsmooth as ([] & s2' & Hsmooth & Hret).
      apply ret_returned in Hret as [-> ->].
      rewrite <- Hraw in Hsmooth.
      eapply (smooth_data_content 0%nat 1%nat (seq 0 (length paths)) raw) in Hsmooth;
        [ | discriminate
          | rewrite <- Hraw; apply (holds_block _ _ [] raw []);
            [rewrite HL1, Hraw; reflexivity | rewrite HA1, app_nil_r; reflexivity]
          | rewrite HL1; reflexivity
          | exact Hraw0 ].
      destruct Hsmooth as (HL2 & HA2 & Hok).
      exists (map smoothed raw). rewrite HL2, HA2, HL1, HA1, Hraw.
      split; [split|auto].
      + apply Forall2_fmap_r, Forall_Forall2_diag.
        apply Forall_forall. intros x _. apply smoothed_shape.
      + apply Forall_map. eapply Forall_impl; [exact Hok|]. apply filtered_ok_wf.
    - apply ret_returned in Hsmooth as [-> ->]. exists raw.
      repeat split; auto; discriminate. }
  destruct Hstage2 as (sms & Hsms & Hsmsdef & Hfiltered & -> & HL2 & HA2).
  assert (Hlsms : length sms = length paths).
  { destruct (smooth a); [|congruence].
    destruct Hsms as [Hsh _]. apply Forall2_length in Hsh. lia. }
  assert (Hsms0 : Forall (fun x => shape0 x = length electrode_names) sms).
  { destruct (smooth a); [|congruence].
    destruct Hsms as [Hsh _]. eapply same_shape_shape0; eauto. }
  assert (Hsmswf : Forall nd_wf sms).
  { destruct (smooth a); [tauto|congruence]. }
  (* mean centering *)
  apply bind_returned in Hrun as ([] & s3 & Hcenter & Hrun).
  set (smooths := if mean_center a then map center_rows sms else sms) in *.
  assert (Hstage3 :
    st_lists s3 = st_lists s2 /\
    st_arrays s3 = if smooth a then raw ++ smooths else smooths).
  { unfold smooths. destruct (mean_center a).
    - rewrite <- Hlsms in Hcenter. destruct (smooth a).
      + eapply (center_data_returned 1%nat raw sms []) in Hcenter;
          [ | rewrite HL2, Hraw, Hlsms; reflexivity
            | rewrite HA2, app_nil_r; reflexivity | assumption | assumption ].
        subst s3. rewrite app_nil_r. auto.
      + eapply (center_data_returned 0%nat [] sms []) in Hcenter;
          [ | rewrite HL2, Hlsms; reflexivity
            | rewrite HA2, app_nil_r; subst sms; reflexivity
            | assumption | assumption ].
        subst s3. rewrite app_nil_r. auto.
    - apply ret_returned in Hcenter as [_ ->]. split; [reflexivity|].
      rewrite HA2. destruct (smooth a); congruence. }
  destruct Hstage3 as [HL3 HA3]. rewrite HL2 in HL3.
  assert (Hlsm : length smooths = length paths).
  { unfold smooths. destruct (mean_center a); [rewrite length_map|]; exact Hlsms. }
  set (eegs := if smooth a then raw else smooths) in *.
  set (smref := if smooth a then 1%nat else 0%nat) in *.
  set (srefs := if smooth a then seq (length paths) (length paths)
                else seq 0 (length paths)) in *.
  assert (Hleeg : length eegs = length paths).
  { unfold eegs. destruct (smooth a); assumption. }
  assert (Hh3e : holds s3 0%nat (seq 0 (length paths)) eegs).
  { rewrite <- Hleeg. unfold eegs. destruct (smooth a).
    - apply (holds_block _ _ [] raw smooths); [rewrite HL3, Hraw; reflexivity|exact HA3].
    - apply (holds_block _ _ [] smooths []);
        [rewrite HL3, Hlsm; reflexivity | rewrite HA3, app_nil_r; reflexivity]. }
  assert (Hh3s : holds s3 smref srefs smooths).
  { unfold smref, srefs. destruct (smooth a).
    - rewrite <- Hraw at 1. rewrite <- Hlsm.
      apply (holds_block _ _ raw smooths []);
        [rewrite HL3, Hraw, Hlsm; reflexivity | rewrite HA3, app_nil_r; reflexivity].
    - rewrite <- Hlsm.
      apply (holds_block _ _ [] smooths []);
        [rewrite HL3, Hlsm; reflexivity | rewrite HA3, app_nil_r; reflexivity]. }
  assert (Hwfe : Forall nd_wf eegs).
  { unfold eegs, smooths. destruct (smooth a); [exact Hwf1|].
    destruct (mean_center a); [|exact Hsmswf].
    apply Forall_map. eapply Forall_impl; [exact Hsmswf|]. apply center_rows_wf. }
  assert (Hshapes : map shape eegs = shapes_of paths a).
  { unfold shapes_of. fold tfs. rewrite <- (loaded_shapes (ti a) paths tfs) by lia.
    fold raw. unfold eegs, smooths.
    destruct (smooth a); [reflexivity|]. subst sms.
    destruct (mean_center a); [apply center_rows_shapes | reflexivity]. }
  (* time-frequency analysis *)
  apply bind_returned in Hrun as (freq & s4 & Hwavs & Hrun).
  eapply (wavelet_data_returned a smref 2%nat _ None s3 freq s4 srefs smooths [])
    in Hwavs;
    [ | unfold smref; destruct (smooth a); discriminate
      | exact Hh3s | rewrite HL3; reflexivity ].
  destruct Hwavs as (ys & Hys & HL4 & HA4 & Hfreq0 & Hfreq1).
  rewrite <- Hlsm in Hys. apply lookup_seq_all in Hys. subst ys.
  rewrite length_seq in HL4. cbn [app] in HL4.
  set (wavs := map (fun y => fst (wavelets a y)) smooths) in *.
  assert (Hlwav : length wavs = length paths).
  { unfold wavs. rewrite length_map. exact Hlsm. }
  apply bind_returned in Hrun as (freq_channels & s5 & Hfreq & Hrun).
  apply lift_returned in Hfreq as [Hfreq ->].
  assert (Hpaths : paths <> []).
  { intros ->. rewrite (Hfreq0 eq_refl) in Hfreq. discriminate. }
  assert (Hh4w : holds s4 2%nat (seq (length (st_arrays s3)) (length wavs)) wavs).
  { apply (holds_block _ _ (st_arrays s3) wavs []);
      [ rewrite HL4, HL3, Hlwav; reflexivity | rewrite HA4, app_nil_r; reflexivity ]. }
  assert (Hh4e : holds s4 0%nat (seq 0 (length paths)) eegs).
  { eapply holds_extend; [exact Hh3e | rewrite HL4, HL3; reflexivity | eauto]. }
  assert (Hh4s : holds s4 smref srefs smooths).
  { eapply holds_extend; [exact Hh3s | | eauto].
    rewrite HL4, HL3. unfold smref. destruct (smooth a); reflexivity. }
  (* frame statistics *)
  apply bind_returned in Hrun as (frame_var_list & s5 & Hvar & Hrun).
  eapply frame_statistic_returned in Hvar; [|exact Hh4w].
  destruct Hvar as [-> ->].
  apply bind_returned in Hrun as (frame_amp_list & s5 & Hamp & Hrun).
  eapply frame_statistic_returned in Hamp; [|exact Hh4w].
  destruct Hamp as [-> ->].
  (* frame normalization *)
  apply bind_returned in Hrun as ([] & s6 & Hnorm & Hrun).
  set (norms := if normalize a then map normalized wavs else wavs) in *.
  set (wrefs0 := seq (length (st_arrays s3)) (length wavs)) in *.
  assert (Hold : forall r, r ∈ seq 0 (length paths) ++ srefs ->
                           (r < length (st_arrays s3))%nat).
  { intros r Hr. apply elem_of_app in Hr as [Hr|Hr];
      apply list_elem_of_lookup in Hr as [i Hi].
    - destruct (holds_lookup _ _ _ _ _ _ Hh3e Hi) as (x & _ & Hx).
      eapply lookup_lt_Some, Hx.
    - destruct (holds_lookup _ _ _ _ _ _ Hh3s Hi) as (x & _ & Hx).
      eapply lookup_lt_Some, Hx. }
  assert (Hstage6 : exists wrefs,
    holds s6 0%nat (seq 0 (length paths)) eegs /\
    holds s6 smref srefs smooths /\
    holds s6 2%nat wrefs norms /\
    (normalize a = true ->
     Forall (fun w => normalize_frames w = Ok (normalized w)) wavs) /\
    Forall2 (fun r w => st_arrays s6 !! r = Some w) wrefs0 wavs /\
    (normalize a = true ->
     forall r, r ∈ wrefs0 -> r ∉ seq 0 (length paths) ++ srefs ++ wrefs)).
  { unfold norms. destruct (normalize a).
    - eapply normalize_data_returned in Hnorm; [|exact Hh4w].
      destruct Hnorm as (HL6 & HA6 & Hok).
      exists (seq (length (st_arrays s4)) (length (map normalized wavs))).
      split; [|split].
      + eapply holds_extend; [exact Hh4e | rewrite HL6, HL4, HL3; reflexivity | eauto].
      + eapply holds_extend; [exact Hh4s | | eauto].
        rewrite HL6, HL4, HL3. unfold smref. destruct (smooth a); reflexivity.
      + split; [|split; [|split]].
        * apply (holds_block _ _ (st_arrays s4) (map normalized wavs) []);
            [ rewrite HL6, HL4, HL3, length_map; reflexivity
            | rewrite HA6, app_nil_r; reflexivity ].
        * intros _. exact Hok.
        * destruct Hh4w as [_ HF]. eapply Forall2_impl; [exact HF|].
          intros r w Hrw. simpl in *. rewrite HA6. apply lookup_app_l_Some, Hrw.
        * intros _ r Hr Hin. unfold wrefs0 in Hr.
          apply list_elem_of_In, in_seq in Hr.
          rewrite app_assoc in Hin. apply elem_of_app in Hin as [Hin|Hin].
          -- apply Hold in Hin. lia.
          -- apply list_elem_of_In, in_seq in Hin.
             rewrite HA4, length_app in Hin. lia.
    - apply ret_returned in Hnorm as [_ ->].
      exists (seq (length (st_arrays s3)) (length wavs)).
      split; [exact Hh4e|]. split; [exact Hh4s|]. split; [exact Hh4w|].
      split; [discriminate|]. split; [apply Hh4w | discriminate]. }
  destruct Hstage6 as (wrefs & Hh6e & Hh6s & Hh6w & Hnormok & Hobjs & Hdropped).
  (* identifiers *)
  apply bind_returned in Hrun as (shapes & s7 & Hshp & Hrun).
  eapply experiment_shapes_returned in Hshp; [|exact Hh6e].
  destruct Hshp as [-> ->].
  fold shape in Hrun. rewrite Hshapes in Hrun.
  apply bind_returned in Hrun as (exp_idx & s7 & Hexp & Hrun).
  apply lift_returned in Hexp as [Hexp ->].
  apply concatenate_ok in Hexp as [_ ->].
  apply bind_returned in Hrun as (exp_idx & s7 & Hexp & Hrun).
  apply lift_returned in Hexp as [Hexp ->].
  apply astype_int_ok in Hexp as [-> Hnpint].
  apply bind_returned in Hrun as (frame_idx & s7 & Hframe & Hrun).
  apply lift_returned in Hframe as [Hframe ->].
  apply concatenate_ok in Hframe as [_ ->].
  apply bind_returned in Hrun as (frame_idx & s7 & Hframe & Hrun).
  apply lift_returned in Hframe as [Hframe ->].
  apply astype_int_ok in Hframe as [-> _].
  (* labels *)
  apply bind_returned in Hrun as (dbc0 & s7 & Hfill & Hrun).
  apply lift_returned in Hfill as [Hfill ->].
  assert (Hnone : in_int64 (Behav_value Behav_NONE)).
  { unfold fill_labels, zero_labels, shapes_of in Hfill. fold tfs in Hfill.
    destruct paths as [|p0 paths0]; [contradiction|].
    destruct tfs as [|t0 tfs0]; [discriminate|].
    eapply rmap_fill_fit, Hfill. }
  apply fill_labels_ok in Hfill as ->.
  apply bind_returned in Hrun as (gt & s7 & Hgt & Hrun).
  apply lift_returned in Hgt as [Hgt ->].
  assert (Hgtfit : Forall (Forall in_int64) gt).
  { eapply label_ground_truth_fit; [exact Hgt|].
    unfold initial_labels. apply Forall_map, Forall_forall. intros sh _.
    apply Forall_replicate, Hnone. }
  apply bind_returned in Hrun as ([rest_mask rl] & s7 & Hrest & Hrun).
  apply lift_returned in Hrest as [Hrest ->].
  apply bind_returned in Hrun as ([bound_mask bl] & s7 & Hbound & Hrun).
  apply lift_returned in Hbound as [Hbound ->].
  assert (Hmaskfit : in_int64 (Behav_value Behav_REST) /\
                     in_int64 (Behav_value Behav_BOUNDARY)).
  { destruct paths as [|p0 paths0]; [contradiction|].
    pose proof Hrest as Hrest'. pose proof Hbound as Hbound'.
    rewrite label_rest_eq in Hrest'. rewrite label_boundary_eq in Hbound'.
    split; eapply mask_loop_fit; eassumption. }
  (* concatenation *)
  apply bind_returned in Hrun as (norm_refs & s7 & Hrefs & Hrun).
  apply list_read_returned in Hrefs as [Hrefs ->].
  pose proof Hh6w as [Hwl Hwf6]. rewrite Hwl in Hrefs. injection Hrefs as <-.
  apply bind_returned in Hrun as (norm_arrays & s7 & Hloads & Hrun).
  eapply map_M_np_load_returned in Hloads; [|exact Hwf6].
  destruct Hloads as [-> ->].
  apply bind_returned in Hrun as (data_concat & s7 & Hcat & Hrun).
  apply lift_returned in Hcat as [Hcat ->].
  apply bind_returned in Hrun as (labels & s7 & Hlabels & Hrun).
  apply lift_returned in Hlabels as [Hlabels ->].
  apply concatenate_ok in Hlabels as [_ ->].
  apply bind_returned in Hrun as (u8 & s7 & Hassert & Hrun).
  apply lift_returned in Hassert as [Hassert ->].
  apply assert_ok, andb_prop in Hassert as [Has1 Has2].
  apply Nat.eqb_eq in Has1, Has2.
  (* masks *)
  apply bind_returned in Hrun as (masked & s7 & Hmasked & Hrun).
  apply lift_returned in Hmasked as [Hmasked ->].
  apply bind_returned in Hrun as (frame_index & s7 & Hfi & Hrun).
  apply lift_returned in Hfi as [Hfi ->].
  apply bind_returned in Hrun as (experminet_index & s7 & Hei & Hrun).
  apply lift_returned in Hei as [Hei ->].
  apply bind_returned in Hrun as (amps & s7 & Hamps & Hrun).
  apply lift_returned in Hamps as [Hamps ->].
  apply concatenate_ok in Hamps as [_ ->].
  apply bind_returned in Hrun as (frame_amplitudes & s7 & Hfa & Hrun).
  apply lift_returned in Hfa as [Hfa ->].
  apply ret_returned in Hrun as [-> ->].
  exists {| tr_raw := raw; tr_eeg := eegs; tr_smooth := smooths; tr_wav := wavs;
            tr_norm := norms; tr_erefs := seq 0 (length paths); tr_srefs := srefs;
            tr_wrefs := wrefs; tr_wrefs0 := wrefs0; tr_gt := gt; tr_rest := rl; tr_final := bl;
            tr_masked := masked |}.
  split.
  - constructor; cbn; try assumption; try reflexivity.
    + exists sms. split; [exact Hsms | reflexivity].
    + split; [discriminate|]. unfold smref. destruct (smooth a); discriminate.
    + destruct Hmaskfit. auto.
    + split; assumption.
  - constructor; cbn; try assumption; try reflexivity.
    unfold smooths, smooth_stage. rewrite Hsmsdef. reflexivity.
Qed.

(** Every successful construction is explained by a trace. *)
Lemma init_returned paths a s st :
  init paths a empty_store = Returned s st -> exists t, explains paths a s st t.
Proof.
  intros Hrun. apply init_returned_layout in Hrun as (t & Ht & _). eauto.
Qed.

End Run.

(** ** Masks *)

Lemma select_count {A : Type} (mask : list bool) (d : list A) :
  length mask = length d -> length (select mask d) = length (select mask mask).
Proof.
  revert d. induction mask as [|m mask IH]; intros [|x d] Hlen; simpl in *;
    try discriminate; [reflexivity|].
  destruct m; simpl; rewrite (IH d) by lia; reflexivity.
Qed.

Lemma select_Forall {A : Type} (P : A -> Prop) (mask : list bool) (d : list A) :
  (forall k x, mask !! k = Some true -> d !! k = Some x -> P x) ->
  Forall P (select mask d).
Proof.
  revert d. induction mask as [|m mask IH]; intros [|x d] HP; simpl;
    try constructor.
  assert (Htail : Forall P (select mask d)).
  { apply IH. intros k y Hm Hy. apply (HP (S k)); assumption. }
  destruct m; [constructor|]; try assumption.
  apply (HP 0%nat); reflexivity.
Qed.

Lemma get_masked_ok {A : Type} (d : list A) mask v :
  get_masked d mask = Ok v -> length mask = length d /\ v = select mask d.
Proof.
  unfold get_masked. destruct (Nat.eqb_spec (length mask) (length d)); [|discriminate].
  intros [= <-]. auto.
Qed.

Lemma mask_columns_ok c mask c' :
  mask_columns c mask = Ok c' ->
  length mask = shape1 c /\
  c' = NdArray (map (select mask) (rows c)) (length (select mask mask)).
Proof.
  unfold mask_columns. destruct (Nat.eqb_spec (length mask) (shape1 c)); [|discriminate].
  intros [= <-]. auto.
Qed.

Section Tail.
Context `{Externals}.

Lemma and_not_label_map v (f : Z -> bool) labels :
  and_not_label v (map f labels) labels = map (fun l => f l && negb (l =? v)) labels.
Proof.
  unfold and_not_label. induction labels as [|l labels IH]; simpl; [reflexivity|].
  rewrite IH. reflexivity.
Qed.

Lemma replicate_map_const {A : Type} (labels : list A) :
  replicate (length labels) true = map (fun _ => true) labels.
Proof. induction labels; simpl; congruence. Qed.

Lemma inclusion_mask_map a labels :
  inclusion_mask a labels = map (retained a) labels.
Proof.
  unfold inclusion_mask, retained. rewrite replicate_map_const.
  destruct (dump_rest a), (no_bounds a); rewrite ?and_not_label_map;
    apply map_ext; intros l; simpl; rewrite ?andb_true_r; reflexivity.
Qed.

End Tail.

(** ** Well-formed arrays *)

Lemma np_transpose_wf x : nd_wf (np_transpose x).
Proof.
  unfold nd_wf, np_transpose, columns. simpl.
  apply Forall_map, Forall_forall. intros j _. unfold column, shape0.
  apply length_map.
Qed.

Lemma hstack_length m xs :
  Forall (fun x => shape0 x = m) xs -> length (hstack m xs) = m.
Proof.
  induction 1 as [|x xs Hx _ IH]; simpl; [apply length_replicate|].
  rewrite length_zip_with, IH. unfold shape0 in Hx. lia.
Qed.

Lemma hstack_wf m xs :
  Forall nd_wf xs ->
  Forall (fun r => length r = foldr (fun y n => (shape1 y + n)%nat) 0%nat xs)
         (hstack m xs).
Proof.
  induction 1 as [|x xs Hx _ IH]; simpl.
  - apply Forall_replicate. reflexivity.
  - apply Forall_zip_with_fst with (P := fun r => length r = shape1 x);
      [exact Hx|].
    eapply Forall_impl; [exact IH|]. intros r2 H2 r1 H1. simpl in *.
    rewrite length_app. lia.
Qed.

Lemma concatenate_axis1_ok xs c :
  concatenate_axis1 xs = Ok c ->
  exists x xs', xs = x :: xs' /\ Forall (fun y => shape0 y = shape0 x) xs /\
    c = NdArray (hstack (shape0 x) xs) (foldr (fun y n => (shape1 y + n)%nat) 0%nat xs).
Proof.
  unfold concatenate_axis1. destruct xs as [|x xs']; [discriminate|].
  destruct (forallb _ _) eqn:Hall; [|discriminate].
  intros [= <-]. exists x, xs'. repeat split.
  apply Forall_forall. intros y Hy.
  rewrite forallb_forall in Hall. apply Nat.eqb_eq, Hall, list_elem_of_In, Hy.
Qed.

Lemma concatenate_axis1_wf xs c :
  Forall nd_wf xs -> concatenate_axis1 xs = Ok c -> nd_wf c.
Proof.
  intros Hwf Hc. apply concatenate_axis1_ok in Hc as (x & xs' & -> & _ & ->).
  unfold nd_wf. simpl rows. simpl shape1. apply (hstack_wf _ (x :: xs')), Hwf.
Qed.

Lemma scrub_wf c : nd_wf c -> nd_wf (scrub c).
Proof.
  unfold nd_wf, scrub. simpl. intros Hwf. apply Forall_map.
  eapply Forall_impl; [exact Hwf|]. intros r Hr. simpl. rewrite length_map. exact Hr.
Qed.

Lemma mask_columns_wf c mask c' :
  nd_wf c -> mask_columns c mask = Ok c' -> nd_wf c'.
Proof.
  intros Hwf Hm. apply mask_columns_ok in Hm as [Hlen ->].
  unfold nd_wf in *. simpl. apply Forall_map.
  eapply Forall_impl; [exact Hwf|]. intros r Hr. simpl.
  apply select_count. congruence.
Qed.

Section WellFormed.
Context `{Externals}.

Lemma wavelets_wf a x : nd_wf (fst (wavelets a x)).
Proof.
  unfold wavelets. destruct (find_wav _ _ _ _ _ _). simpl. apply np_transpose_wf.
Qed.

Lemma normalized_wf w : nd_wf w -> nd_wf (normalized w).
Proof.
  unfold nd_wf, normalized. simpl. intros Hwf. apply Forall_map.
  eapply Forall_impl; [exact Hwf|]. intros r Hr. simpl.
  rewrite length_zip_with, length_map. unfold columns.
  rewrite length_map, length_seq. simpl in *. lia.
Qed.

Lemma explains_norm_wf paths a s st t :
  explains paths a s st t -> Forall nd_wf (tr_norm t).
Proof.
  intros Ht. rewrite (ex_norm _ _ _ _ _ Ht), (ex_wav _ _ _ _ _ Ht).
  assert (Hwav : Forall nd_wf (map (fun x => fst (wavelets a x)) (tr_smooth t))).
  { apply Forall_map, Forall_forall. intros x _. apply wavelets_wf. }
  destruct (normalize a); [|exact Hwav].
  apply Forall_map. eapply Forall_impl; [exact Hwav|]. apply normalized_wf.
Qed.

Lemma explains_data_concat_wf paths a s st t :
  explains paths a s st t -> nd_wf (data_concat s).
Proof.
  intros Ht. eapply concatenate_axis1_wf;
    [eapply explains_norm_wf, Ht | apply (ex_concat _ _ _ _ _ Ht)].
Qed.

End WellFormed.

(** ** Positions: masks, concatenation, stacking *)

Lemma select_elem_of {A : Type} (mask : list bool) (d : list A) (x : A) :
  x ∈ select mask d -> x ∈ d.
Proof.
  revert d. induction mask as [|m mask IH]; intros [|y d] Hx; simpl in Hx;
    try (apply elem_of_nil in Hx; contradiction).
  destruct m.
  - apply elem_of_cons in Hx as [->|Hx]; [left | right; auto].
  - right; auto.
Qed.

Lemma select_lookup_from {A : Type} (mask : list bool) (d : list A) (a k : nat) :
  length mask = length d ->
  select mask d !! k
  = select mask (seq a (length mask)) !! k ≫= (fun p => d !! (p - a)%nat).
Proof.
  revert d a k. induction mask as [|m mask IH]; intros [|x d] a k Hlen;
    try discriminate; [reflexivity|].
  injection Hlen as Hlen. cbn [length seq select].
  assert (Hshift : forall k',
    select mask (seq (S a) (length mask)) !! k' ≫= (fun p => d !! (p - S a)%nat)
    = select mask (seq (S a) (length mask)) !! k' ≫= (fun p => (x :: d) !! (p - a)%nat)).
  { intros k'. destruct (select mask (seq (S a) (length mask)) !! k') as [p|] eqn:Hp;
      [|reflexivity].
    apply list_elem_of_lookup_2, select_elem_of, list_elem_of_In, in_seq in Hp.
    cbn. replace (p - a)%nat with (S (p - S a)) by lia. reflexivity. }
  destruct m.
  - destruct k as [|k].
    + cbn. rewrite Nat.sub_diag. reflexivity.
    + change (select mask d !! k
              = select mask (seq (S a) (length mask)) !! k
                  ≫= (fun p => (x :: d) !! (p - a)%nat)).
      rewrite (IH d (S a) k Hlen). apply Hshift.
  - rewrite (IH d (S a) k Hlen). apply Hshift.
Qed.

(** The [k]-th selected entry is the entry at the [k]-th selected
    position. *)
Lemma select_lookup {A : Type} (mask : list bool) (d : list A) (k : nat) :
  length mask = length d ->
  select mask d !! k = positions mask !! k ≫= (fun p => d !! p).
Proof.
  intros Hlen. rewrite (select_lookup_from mask d 0 k Hlen). unfold positions.
  destruct (select mask (seq 0 (length mask)) !! k) as [p|]; [|reflexivity].
  cbn. rewrite Nat.sub_0_r. reflexivity.
Qed.

Lemma select_seq_increasing (mask : list bool) (a n k k' p p' : nat) :
  (k < k')%nat ->
  select mask (seq a n) !! k = Some p -> select mask (seq a n) !! k' = Some p' ->
  (p < p')%nat.
Proof.
  revert a n k k'. induction mask as [|m mask IH]; intros a [|n] k k' Hk Hp Hp';
    try discriminate.
  cbn [seq select] in Hp, Hp'. destruct m.
  - destruct k' as [|k']; [lia|]. destruct k as [|k].
    + injection Hp as <-. cbn in Hp'.
      apply list_elem_of_lookup_2, select_elem_of, list_elem_of_In, in_seq in Hp'. lia.
    + cbn in Hp, Hp'. eapply (IH (S a) n k k'); [lia | eassumption | eassumption].
  - eapply (IH (S a) n k k'); eassumption.
Qed.

Lemma positions_increasing (mask : list bool) (k k' p p' : nat) :
  (k < k')%nat -> positions mask !! k = Some p -> positions mask !! k' = Some p' ->
  (p < p')%nat.
Proof. apply select_seq_increasing. Qed.

Lemma select_seq_true (mask : list bool) (a k p : nat) :
  select mask (seq a (length mask)) !! k = Some p ->
  (a <= p)%nat /\ mask !! (p - a)%nat = Some true.
Proof.
  revert a k. induction mask as [|m mask IH]; intros a k Hp; [discriminate|].
  cbn [length seq select] in Hp.
  assert (Hrest : forall k', select mask (seq (S a) (length mask)) !! k' = Some p ->
                             (a <= p)%nat /\ (m :: mask) !! (p - a)%nat = Some true).
  { intros k' Hk'. apply IH in Hk' as [Hle Hm]. split; [lia|].
    replace (p - a)%nat with (S (p - S a)) by lia. exact Hm. }
  destruct m.
  - destruct k as [|k]; [|exact (Hrest k Hp)].
    injection Hp as <-. rewrite Nat.sub_diag. auto.
  - exact (Hrest k Hp).
Qed.

Lemma positions_true (mask : list bool) (k p : nat) :
  positions mask !! k = Some p -> mask !! p = Some true.
Proof.
  intros Hp. apply select_seq_true in Hp as [_ Hp].
  rewrite Nat.sub_0_r in Hp. exact Hp.
Qed.

Lemma offset_S (ns : list nat) (i n : nat) :
  ns !! i = Some n -> offset ns (S i) = (offset ns i + n)%nat.
Proof.
  unfold offset. revert i. induction ns as [|m ns IH]; intros [|i] Hn;
    try discriminate; cbn in *.
  - injection Hn as ->. rewrite take_0. cbn. lia.
  - rewrite (IH i Hn). lia.
Qed.

Lemma offset_mono (ns : list nat) (i j : nat) :
  (i <= j)%nat -> (offset ns i <= offset ns j)%nat.
Proof.
  unfold offset. revert i j. induction ns as [|m ns IH]; intros [|i] [|j] Hij;
    rewrite ?take_0, ?take_nil; cbn; try lia.
  specialize (IH i j). lia.
Qed.

(** A position of the concatenation lies in exactly one part. *)
Lemma offset_decode (ns : list nat) (p : nat) :
  (p < sum_list ns)%nat ->
  exists i n j, ns !! i = Some n /\ (j < n)%nat /\ p = (offset ns i + j)%nat.
Proof.
  revert p. induction ns as [|m ns IH]; intros p Hp; cbn in Hp; [lia|].
  destruct (decide (p < m)%nat) as [Hlt|Hge].
  - exists 0%nat, m, p. unfold offset. rewrite take_0. auto.
  - destruct (IH (p - m)%nat) as (i & n & j & Hi & Hj & Hp'); [lia|].
    exists (S i), n, j. split; [exact Hi|]. split; [exact Hj|].
    unfold offset in *. cbn. lia.
Qed.

Lemma offset_unique (ns : list nat) (i i' n n' j j' : nat) :
  ns !! i = Some n -> ns !! i' = Some n' -> (j < n)%nat -> (j' < n')%nat ->
  (offset ns i + j < offset ns i' + j')%nat ->
  (i < i')%nat \/ (i = i' /\ (j < j')%nat).
Proof.
  intros Hi Hi' Hj Hj' Hlt.
  destruct (Nat.lt_trichotomy i i') as [H|[H|H]]; [auto | right | exfalso].
  - subst i'. split; [reflexivity | lia].
  - pose proof (offset_S ns i' n' Hi') as HS.
    pose proof (offset_mono ns (S i') i ltac:(lia)). lia.
Qed.

Lemma concat_length_sum {A : Type} (xss : list (list A)) :
  length (concat xss) = sum_list (map length xss).
Proof. induction xss as [|xs xss IH]; cbn; [|rewrite length_app, IH]; reflexivity. Qed.

Lemma concat_lookup_offset {A : Type} (xss : list (list A)) (i j : nat) (xs : list A) :
  xss !! i = Some xs -> (j < length xs)%nat ->
  concat xss !! (offset (map length xss) i + j)%nat = xs !! j.
Proof.
  unfold offset. revert i. induction xss as [|ys xss IH]; intros [|i] Hi Hj;
    try discriminate; cbn in *.
  - injection Hi as ->. apply lookup_app_l. exact Hj.
  - rewrite lookup_app_r by lia.
    replace (length ys + sum_list (take i (map length xss)) + j - length ys)%nat
      with (sum_list (take i (map length xss)) + j)%nat by lia.
    apply IH; assumption.
Qed.

(** Row [b] of the stacked array is the concatenation of the rows [b]. *)
Lemma hstack_lookup (m : nat) (xs : list ndarray) (b : nat) :
  Forall (fun x => shape0 x = m) xs -> (b < m)%nat ->
  hstack m xs !! b = Some (concat (map (fun x => default [] (rows x !! b)) xs)).
Proof.
  intros Hxs Hb. induction Hxs as [|x xs Hx _ IH]; cbn.
  - apply lookup_replicate_2. exact Hb.
  - rewrite lookup_zip_with, IH.
    destruct (rows x !! b) as [r|] eqn:Hr; [reflexivity|].
    apply lookup_ge_None in Hr. unfold shape0 in Hx. lia.
Qed.

(** Column [offset + j] of the stacked array is column [j] of the array the
    position lies in. *)
Lemma hstack_column (xs : list ndarray) (c : ndarray) (i j : nat) (x : ndarray) :
  Forall nd_wf xs -> concatenate_axis1 xs = Ok c ->
  xs !! i = Some x -> (j < shape1 x)%nat ->
  column c (offset (map shape1 xs) i + j)%nat = column x j.
Proof.
  intros Hwf Hcat Hi Hj.
  apply concatenate_axis1_ok in Hcat as (x0 & xs' & Hxs & Hsame & ->).
  assert (Hx0 : shape0 x = shape0 x0).
  { rewrite Forall_forall in Hsame. apply Hsame. eapply list_elem_of_lookup_2, Hi. }
  assert (Hlen : length (hstack (shape0 x0) xs) = shape0 x0) by (apply hstack_length, Hsame).
  unfold column. cbn [rows].
  apply list_eq. intros b. rewrite !list_lookup_fmap.
  destruct (decide (b < shape0 x0)%nat) as [Hb|Hb].
  - rewrite (hstack_lookup _ _ b Hsame Hb).
    destruct (rows x !! b) as [r|] eqn:Hr;
      [|apply lookup_ge_None in Hr; unfold shape0 in *; lia].
    cbn. f_equal.
    set (parts := map (fun y => default [] (rows y !! b)) xs).
    assert (Hparts : map length parts = map shape1 xs).
    { unfold parts. rewrite map_map. apply map_ext_Forall.
      rewrite Forall_forall in Hwf, Hsame |- *. intros y Hy.
      destruct (rows y !! b) as [ry|] eqn:Hry.
      - cbn. specialize (Hwf y Hy). unfold nd_wf in Hwf. rewrite Forall_forall in Hwf.
        apply Hwf. eapply list_elem_of_lookup_2, Hry.
      - apply lookup_ge_None in Hry. specialize (Hsame y Hy).
        unfold shape0 in *. lia. }
    assert (Hr' : length r = shape1 x).
    { rewrite Forall_forall in Hwf. specialize (Hwf x (list_elem_of_lookup_2 _ _ _ Hi)).
      unfold nd_wf in Hwf. rewrite Forall_forall in Hwf.
      apply Hwf. eapply list_elem_of_lookup_2, Hr. }
    assert (Hpi : parts !! i = Some r).
    { unfold parts. rewrite list_lookup_fmap, Hi. cbn. rewrite Hr. reflexivity. }
    pose proof (concat_lookup_offset parts i j r Hpi ltac:(lia)) as Hc.
    rewrite Hparts in Hc.
    rewrite (nth_lookup _ _ 0%float), Hc, <- (nth_lookup _ _ 0%float). reflexivity.
  - rewrite (proj2 (lookup_ge_None _ _)) by lia.
    rewrite (proj2 (lookup_ge_None (rows x) b)) by (unfold shape0 in *; lia).
    reflexivity.
Qed.

(** Column [k] of [c[:, mask]] is the column of [c] at the [k]-th selected
    position. *)
Lemma mask_columns_column (c c' : ndarray) (mask : list bool) (k p : nat) :
  nd_wf c -> mask_columns c mask = Ok c' -> positions mask !! k = Some p ->
  column c' k = column c p.
Proof.
  intros Hwf Hm Hp. apply mask_columns_ok in Hm as [Hlen ->].
  unfold column. cbn [rows]. rewrite map_map. apply map_ext_Forall.
  unfold nd_wf in Hwf. eapply Forall_impl; [exact Hwf|]. intros r Hr. cbn beta.
  cbn beta in Hr. rewrite !(nth_lookup _ _ 0%float).
  rewrite (select_lookup mask r k) by lia. rewrite Hp. reflexivity.
Qed.

Lemma scrub_column (c : ndarray) (k : nat) :
  (k < shape1 c)%nat -> nd_wf c ->
  column (scrub c) k = map scrub_entry (column c k).
Proof.
  intros Hk Hwf. unfold column, scrub. cbn [rows]. rewrite !map_map.
  apply map_ext_Forall. unfold nd_wf in Hwf. eapply Forall_impl; [exact Hwf|].
  intros r Hr. cbn beta in Hr |- *.
  rewrite !(nth_lookup _ _ 0%float), list_lookup_fmap.
  destruct (r !! k) as [v|] eqn:Hv; [reflexivity|].
  apply lookup_ge_None in Hv. lia.
Qed.

Section Decode.
Context `{Externals}.

Lemma exp_idx_parts_lengths shapes :
  map length (exp_idx_parts shapes) = map snd shapes.
Proof.
  unfold exp_idx_parts, enumerate. apply list_eq. intros i.
  rewrite !list_lookup_fmap, lookup_zip_with.
  destruct (shapes !! i) as [sh|] eqn:Hsh.
  - rewrite lookup_seq_lt by (eapply lookup_lt_Some, Hsh). cbn.
    rewrite length_replicate. reflexivity.
  - rewrite lookup_seq_ge by (apply lookup_ge_None, Hsh). reflexivity.
Qed.

Lemma frame_idx_parts_lengths shapes :
  map length (frame_idx_parts shapes) = map snd shapes.
Proof.
  unfold frame_idx_parts. rewrite map_map. apply map_ext. intros sh.
  rewrite length_map, length_seq. reflexivity.
Qed.

(** The entries of the identifier arrays at the position of frame [j] of
    experiment [i]. *)
Lemma idx_at_offset shapes i sh j :
  shapes !! i = Some sh -> (j < snd sh)%nat ->
  concat (exp_idx_parts shapes) !! (offset (map snd shapes) i + j)%nat
    = Some (Z.of_nat i) /\
  concat (frame_idx_parts shapes) !! (offset (map snd shapes) i + j)%nat
    = Some (Z.of_nat j).
Proof.
  intros Hsh Hj. split.
  - rewrite <- exp_idx_parts_lengths.
    rewrite (concat_lookup_offset _ i j (replicate (snd sh) (Z.of_nat i))).
    + apply lookup_replicate_2. exact Hj.
    + unfold exp_idx_parts, enumerate.
      rewrite list_lookup_fmap, lookup_zip_with, lookup_seq_lt
        by (eapply lookup_lt_Some, Hsh).
      cbn. rewrite Hsh. reflexivity.
    + rewrite length_replicate. exact Hj.
  - rewrite <- frame_idx_parts_lengths.
    rewrite (concat_lookup_offset _ i j (map Z.of_nat (seq 0 (snd sh)))).
    + rewrite list_lookup_fmap, lookup_seq_lt by exact Hj. reflexivity.
    + unfold frame_idx_parts. rewrite list_lookup_fmap, Hsh. reflexivity.
    + rewrite length_map, length_seq. exact Hj.
Qed.

(** Every position of the identifier arrays is that of one frame of one
    experiment. *)
Lemma idx_decode shapes p :
  (p < length (concat (exp_idx_parts shapes)))%nat ->
  exists i sh j,
    shapes !! i = Some sh /\ (j < snd sh)%nat /\
    p = (offset (map snd shapes) i + j)%nat /\
    concat (exp_idx_parts shapes) !! p = Some (Z.of_nat i) /\
    concat (frame_idx_parts shapes) !! p = Some (Z.of_nat j).
Proof.
  intros Hp. rewrite concat_length_sum, exp_idx_parts_lengths in Hp.
  apply offset_decode in Hp as (i & n & j & Hi & Hj & ->).
  rewrite list_lookup_fmap in Hi.
  destruct (shapes !! i) as [sh|] eqn:Hsh; [|discriminate].
  injection Hi as <-.
  exists i, sh, j. repeat split; try assumption; try reflexivity;
    apply (idx_at_offset shapes i sh j Hsh Hj).
Qed.

End Decode.

(** * When the constructor returns

    The stages run forwards: what each of them needs in order to return. *)

Lemma bind_runs {A B : Type} (m : M A) (k : A -> M B) st a st1 :
  m st = Returned a st1 -> bind m k st = k a st1.
Proof. intros Hm. unfold bind. rewrite Hm. reflexivity. Qed.

Lemma list_read_runs l st xs :
  st_lists st !! l = Some xs -> list_read l st = Returned xs st.
Proof. intros Hl. unfold list_read. rewrite Hl. reflexivity. Qed.

Lemma list_getitem_runs l i st xs x :
  st_lists st !! l = Some xs -> xs !! i = Some x ->
  list_getitem l i st = Returned x st.
Proof.
  intros Hl Hi. unfold list_getitem.
  rewrite (bind_runs _ _ _ _ _ (list_read_runs _ _ _ Hl)), Hi. reflexivity.
Qed.

Lemma list_last_runs l st xs x :
  st_lists st !! l = Some (xs ++ [x]) -> list_last l st = Returned x st.
Proof.
  intros Hl. unfold list_last.
  rewrite (bind_runs _ _ _ _ _ (list_read_runs _ _ _ Hl)), last_snoc. reflexivity.
Qed.

Lemma list_append_runs l x st xs :
  st_lists st !! l = Some xs ->
  list_append l x st
  = Returned tt (Store (<[l := xs ++ [x]]> (st_lists st)) (st_arrays st)).
Proof.
  intros Hl. unfold list_append.
  rewrite (bind_runs _ _ _ _ _ (list_read_runs _ _ _ Hl)). reflexivity.
Qed.

Lemma list_setitem_runs l i x st xs :
  st_lists st !! l = Some xs -> (i < length xs)%nat ->
  list_setitem l i x st
  = Returned tt (Store (<[l := <[i := x]> xs]> (st_lists st)) (st_arrays st)).
Proof.
  intros Hl Hi. unfold list_setitem.
  rewrite (bind_runs _ _ _ _ _ (list_read_runs _ _ _ Hl)).
  destruct (lookup_lt_is_Some_2 xs i Hi) as [y ->]. reflexivity.
Qed.

Lemma np_load_runs r st a :
  st_arrays st !! r = Some a -> np_load r st = Returned a st.
Proof. intros Hr. unfold np_load. rewrite Hr. reflexivity. Qed.

Lemma lift_runs {A : Type} (r : result A) (a : A) st :
  r = Ok a -> lift r st = Returned a st.
Proof. intros ->. reflexivity. Qed.

(** A loop returns when its body returns under an invariant that it
    keeps. *)
Lemma for_range_runs (J : nat -> store -> Prop) (body : nat -> M unit) (n : nat) st :
  (forall k s, (k < n)%nat -> J k s ->
     exists s1, body k s = Returned tt s1 /\ J (S k) s1) ->
  J 0%nat st ->
  exists st', for_each (seq 0 n) body st = Returned tt st' /\ J n st'.
Proof.
  intros Hstep H0. induction n as [|n IH].
  - exists st. split; [reflexivity | exact H0].
  - destruct IH as (s & Hrun & HJ); [intros k s' Hk; apply Hstep; lia|].
    destruct (Hstep n s ltac:(lia) HJ) as (s1 & Hbody & HJ1).
    exists s1. split; [|exact HJ1].
    rewrite seq_S, for_each_app. cbn [Nat.add].
    rewrite (bind_runs _ _ _ _ _ Hrun). cbn [for_each].
    rewrite (bind_runs _ _ _ _ _ Hbody). reflexivity.
Qed.

Lemma rfold_runs {S A : Type} (P : S -> Prop) (body : S -> A -> result S)
  (xs : list A) (s : S) :
  (forall s x, x ∈ xs -> P s -> exists s', body s x = Ok s' /\ P s') ->
  P s -> exists s', rfold body xs s = Ok s' /\ P s'.
Proof.
  revert s. induction xs as [|x xs IH]; intros s Hstep Hs.
  - exists s. split; [reflexivity | exact Hs].
  - destruct (Hstep s x ltac:(left) Hs) as (s1 & Hbody & Hs1).
    destruct (IH s1) as (s' & Hrun & Hs'); [|exact Hs1|].
    + intros s0 y Hy. apply Hstep. right. exact Hy.
    + exists s'. split; [|exact Hs']. cbn [rfold]. rewrite Hbody. exact Hrun.
Qed.

Lemma map_M_load_runs {B : Type} (g : ndarray -> B) refs xs st :
  Forall2 (fun r x => st_arrays st !! r = Some x) refs xs ->
  map_M (fun r => do exp <- np_load r in ret (g exp)) refs st
  = Returned (map g xs) st.
Proof.
  induction 1 as [|r x refs xs Hr _ IH]; [reflexivity|]. cbn [map_M map].
  rewrite (bind_runs _ _ _ (g x) st);
    [|rewrite (bind_runs _ _ _ _ _ (np_load_runs _ _ _ Hr)); reflexivity].
  rewrite (bind_runs _ _ _ _ _ IH). reflexivity.
Qed.

Lemma map_M_np_load_runs refs xs st :
  Forall2 (fun r x => st_arrays st !! r = Some x) refs xs ->
  map_M np_load refs st = Returned xs st.
Proof.
  induction 1 as [|r x refs xs Hr _ IH]; [reflexivity|]. cbn [map_M].
  rewrite (bind_runs _ _ _ _ _ (np_load_runs _ _ _ Hr)).
  rewrite (bind_runs _ _ _ _ _ IH). reflexivity.
Qed.

Lemma set_row_runs a i v :
  (i < shape0 a)%nat -> length v = shape1 a ->
  set_row a i v = Ok (NdArray (<[i := v]> (rows a)) (shape1 a)).
Proof.
  intros Hi Hv. unfold set_row.
  destruct (lookup_lt_is_Some_2 (rows a) i Hi) as [r ->].
  unfold broadcast_to. rewrite Hv, Nat.eqb_refl. reflexivity.
Qed.

Lemma set_row_broadcast_runs a i v v' :
  (i < shape0 a)%nat -> broadcast_to (shape1 a) v = Ok v' ->
  set_row a i v = Ok (NdArray (<[i := v']> (rows a)) (shape1 a)).
Proof.
  intros Hi Hv. unfold set_row.
  destruct (lookup_lt_is_Some_2 (rows a) i Hi) as [r ->].
  rewrite Hv. reflexivity.
Qed.

Section Runs.
Context `{Externals}.

(** ** Reading *)

Lemma load_electrodes_runs eeg exp_dict ti tf refs arrays z st :
  st_lists st !! eeg = Some (refs ++ [length arrays]) ->
  st_arrays st = arrays ++ [z] ->
  shape0 z = length electrode_names -> shape1 z = Z.to_nat (tf - ti) ->
  (forall name, name ∈ electrode_names ->
     exists series v,
       df_getitem exp_dict name = Ok series /\
       broadcast_to (Z.to_nat (tf - ti)) (py_slice series ti tf) = Ok v) ->
  exists st',
    for_each (seq 0 (length electrode_names)) (load_electrode eeg exp_dict ti tf) st
    = Returned tt st' /\
    st_lists st' = st_lists st /\ length (st_arrays st') = S (length arrays).
Proof.
  intros Hl Ha Hz0 Hz1 Hcols.
  pose (J := fun (k : nat) (s : store) =>
    st_lists s = st_lists st /\
    exists y, st_arrays s = arrays ++ [y] /\
              shape0 y = length electrode_names /\ shape1 y = Z.to_nat (tf - ti)).
  destruct (for_range_runs J (load_electrode eeg exp_dict ti tf)
              (length electrode_names) st) as (st' & Hrun & HL & y & HA & _).
  - intros k s Hk (HL & y & HA & Hy0 & Hy1).
    destruct (lookup_lt_is_Some_2 electrode_names k Hk) as [name Hname].
    destruct (Hcols name (list_elem_of_lookup_2 _ _ _ Hname)) as (series & v & Hser & Hv).
    unfold load_electrode.
    rewrite (bind_runs _ _ _ name s)
      by (apply lift_runs, getitem_ok, Hname).
    rewrite (bind_runs _ _ _ series s) by (apply lift_runs, Hser).
    rewrite (bind_runs _ _ _ (length arrays) s)
      by (eapply list_last_runs; rewrite HL; exact Hl).
    rewrite (bind_runs _ _ _ y s)
      by (apply np_load_runs; rewrite HA; apply list_lookup_middle; reflexivity).
    rewrite <- Hy1 in Hv.
    rewrite (bind_runs _ _ _ _ s
               (lift_runs _ _ _ (set_row_broadcast_runs y k _ v ltac:(lia) Hv))).
    eexists. split; [reflexivity|].
    split; [exact HL|]. cbn [st_arrays].
    exists (NdArray (<[k := v]> (rows y)) (shape1 y)).
    split; [|split].
    + rewrite HA, insert_app_r_alt by lia. rewrite Nat.sub_diag. reflexivity.
    + unfold shape0 in *. cbn [rows]. rewrite length_insert. exact Hy0.
    + exact Hy1.
  - split; [reflexivity|]. exists z. auto.
  - exists st'. split; [exact Hrun|]. split; [exact HL|].
    rewrite HA, length_app. cbn. lia.
Qed.

Lemma read_data_runs eeg ti paths tf st refs :
  st_lists st !! eeg = Some refs ->
  (forall k exp t, paths !! k = Some exp -> tf_bounds paths tf !! k = Some t ->
     readable ti exp t) ->
  exists tf' st', read_data eeg ti paths tf st = Returned tf' st'.
Proof.
  revert tf st refs. induction paths as [|exp paths IH]; intros tf st refs Hl Hok.
  - exists tf, st. reflexivity.
  - destruct (Hok 0%nat exp _ eq_refl eq_refl) as (Hkeys & Hlt & Hcols).
    fold (recording_length exp) in Hlt, Hcols.
    cbn [read_data].
    assert (Hlen : experiment_length (read_csv exp) = Ok (recording_length exp)).
    { unfold experiment_length.
      destruct (Z.eqb_spec (df_num_keys (read_csv exp)) 0); [contradiction|reflexivity]. }
    rewrite (bind_runs _ _ _ _ st (lift_runs _ _ _ Hlen)).
    set (t := resolve_tf tf (recording_length exp)) in *.
    assert (Hassert : assert (ti <? t) "tf must be greater that ti" = Ok tt).
    { unfold assert. destruct (Z.ltb_spec ti t); [reflexivity | lia]. }
    rewrite (bind_runs _ _ _ _ st (lift_runs _ _ _ Hassert)).
    rewrite (bind_runs _ _ _ (length (st_arrays st))
               (Store (st_lists st)
                      (st_arrays st ++ [np_zeros (length electrode_names) (Z.to_nat (t - ti))])))
      by reflexivity.
    erewrite bind_runs; [|apply (list_append_runs eeg _ _ refs); exact Hl].
    cbn [st_lists st_arrays].
    destruct (load_electrodes_runs eeg (read_csv exp) ti t refs (st_arrays st)
                (np_zeros (length electrode_names) (Z.to_nat (t - ti)))
                (Store (<[eeg := refs ++ [length (st_arrays st)]]> (st_lists st))
                       (st_arrays st ++
                        [np_zeros (length electrode_names) (Z.to_nat (t - ti))])))
      as (st1 & Hrun & HL1 & _).
    + cbn [st_lists]. apply list_lookup_insert_eq. eapply lookup_lt_Some, Hl.
    + reflexivity.
    + apply np_zeros_shape0.
    + reflexivity.
    + exact Hcols.
    + rewrite (bind_runs _ _ _ _ _ Hrun).
      apply (IH (Some t) st1 (refs ++ [length (st_arrays st)])).
      * rewrite HL1. cbn [st_lists]. apply list_lookup_insert_eq.
        eapply lookup_lt_Some, Hl.
      * intros k exp' t' Hp Ht. apply (Hok (S k) exp' t' Hp Ht).
Qed.

(** ** Smoothing *)

Lemma smooth_rows_runs eeg sm i src x erefs srefs arrays z st :
  st_lists st !! eeg = Some erefs -> erefs !! i = Some src ->
  st_lists st !! sm = Some srefs -> srefs !! i = Some (length arrays) ->
  arrays !! src = Some x ->
  st_arrays st = arrays ++ [z] -> same_shape x z ->
  shape0 x = length electrode_names -> filtered_ok x ->
  exists st',
    for_each (seq 0 (length electrode_names)) (smooth_row eeg sm i) st
    = Returned tt st' /\
    st_lists st' = st_lists st /\ length (st_arrays st') = S (length arrays) /\
    forall r, (r < length arrays)%nat -> st_arrays st' !! r = arrays !! r.
Proof.
  intros Heeg Hsrc Hsm Hdst Hx Ha [Hz0 Hz1] Hrows Hok.
  pose (J := fun (k : nat) (s : store) =>
    st_lists s = st_lists st /\
    exists y, st_arrays s = arrays ++ [y] /\ shape0 y = shape0 x /\ shape1 y = shape1 x).
  destruct (for_range_runs J (smooth_row eeg sm i) (length electrode_names) st)
    as (st' & Hrun & HL & y & HA & _).
  - intros k s Hk (HL & y & HA & Hy0 & Hy1).
    destruct (lookup_lt_is_Some_2 (rows x) k) as [row Hrow];
      [unfold shape0 in Hrows; lia|].
    unfold filtered_ok in Hok.
    destruct (Forall_lookup_1 _ _ _ _ Hok Hrow) as (v & Hv & Hb).
    unfold smooth_row.
    rewrite (bind_runs _ _ _ src s)
      by (eapply list_getitem_runs; [rewrite HL; exact Heeg | exact Hsrc]).
    rewrite (bind_runs _ _ _ x s)
      by (apply np_load_runs; rewrite HA; apply lookup_app_l_Some, Hx).
    rewrite (bind_runs _ _ _ row s)
      by (apply lift_runs; unfold get_row; rewrite Hrow; reflexivity).
    rewrite (bind_runs _ _ _ v s) by (apply lift_runs, Hv).
    rewrite (bind_runs _ _ _ (length arrays) s)
      by (eapply list_getitem_runs; [rewrite HL; exact Hsm | exact Hdst]).
    rewrite (bind_runs _ _ _ y s)
      by (apply np_load_runs; rewrite HA; apply list_lookup_middle; reflexivity).
    rewrite <- Hy1 in Hb.
    rewrite (bind_runs _ _ _ _ s
               (lift_runs _ _ _ (set_row_broadcast_runs y k _ _ ltac:(lia) Hb))).
    eexists. split; [reflexivity|].
    split; [exact HL|]. cbn [st_arrays].
    eexists. split; [|split].
    + rewrite HA, insert_app_r_alt by lia. rewrite Nat.sub_diag. reflexivity.
    + unfold shape0 in *. cbn [rows]. rewrite length_insert. exact Hy0.
    + exact Hy1.
  - split; [reflexivity|]. exists z. auto.
  - exists st'. split; [exact Hrun|]. split; [exact HL|]. split.
    + rewrite HA, length_app. cbn. lia.
    + intros r Hr. rewrite HA. apply lookup_app_l. exact Hr.
Qed.

Lemma smooth_data_runs eeg sm erefs es st :
  eeg <> sm ->
  holds st eeg erefs es ->
  st_lists st !! sm = Some [] ->
  Forall (fun x => shape0 x = length electrode_names) es ->
  Forall filtered_ok es ->
  exists st', smooth_data eeg sm (length es) st = Returned tt st'.
Proof.
  intros Hne Hholds Hsm Hrows Hok. unfold smooth_data.
  pose proof (holds_length _ _ _ _ Hholds) as Hlen.
  destruct Hholds as [Heeg HF].
  set (a0 := length (st_arrays st)) in *.
  pose (K := fun (i : nat) (s : store) =>
    st_lists s = <[sm := seq a0 i]> (st_lists st) /\
    length (st_arrays s) = (a0 + i)%nat /\
    forall r, (r < a0)%nat -> st_arrays s !! r = st_arrays st !! r).
  destruct (for_range_runs K (smooth_experiment eeg sm) (length es) st)
    as (st' & Hrun & _); [| |eauto].
  - intros i s Hi (HL & HA & Hold).
    destruct (lookup_lt_is_Some_2 erefs i) as [src Hsrc]; [lia|].
    destruct (Forall2_lookup_l _ _ _ _ _ HF Hsrc) as (x & Hx & Hrx).
    pose proof (lookup_lt_Some _ _ _ Hrx) as Hsrclt. fold a0 in Hsrclt.
    assert (HLe : st_lists s !! eeg = Some erefs).
    { rewrite HL, list_lookup_insert_ne by congruence. exact Heeg. }
    assert (HLs : st_lists s !! sm = Some (seq a0 i)).
    { rewrite HL. apply list_lookup_insert_eq. eapply lookup_lt_Some, Hsm. }
    unfold smooth_experiment.
    rewrite (bind_runs _ _ _ src s)
      by (eapply list_getitem_runs; [exact HLe | exact Hsrc]).
    rewrite (bind_runs _ _ _ x s)
      by (apply np_load_runs; rewrite Hold by exact Hsrclt; exact Hrx).
    rewrite (bind_runs _ _ _ (length (st_arrays s))
               (Store (st_lists s) (st_arrays s ++ [np_zeros_like x]))) by reflexivity.
    erewrite bind_runs; [|apply (list_append_runs sm _ _ (seq a0 i)); exact HLs].
    cbn [st_lists st_arrays].
    destruct (smooth_rows_runs eeg sm i src x erefs (seq a0 i ++ [length (st_arrays s)])
                (st_arrays s) (np_zeros_like x)
                (Store (<[sm := seq a0 i ++ [length (st_arrays s)]]> (st_lists s))
                       (st_arrays s ++ [np_zeros_like x])))
      as (s1 & Hrows1 & HL1 & HA1 & Hold1).
    + cbn [st_lists]. rewrite list_lookup_insert_ne by congruence. exact HLe.
    + exact Hsrc.
    + cbn [st_lists]. apply list_lookup_insert_eq. eapply lookup_lt_Some, HLs.
    + rewrite lookup_app_r by (rewrite length_seq; lia).
      rewrite length_seq, Nat.sub_diag. reflexivity.
    + rewrite Hold by exact Hsrclt. exact Hrx.
    + reflexivity.
    + split; [apply np_zeros_shape0 | reflexivity].
    + eapply Forall_lookup_1 in Hrows; [|exact Hx]. exact Hrows.
    + eapply Forall_lookup_1 in Hok; [|exact Hx]. exact Hok.
    + exists s1. split; [exact Hrows1|]. split; [|split].
      * rewrite HL1. cbn [st_lists]. rewrite HL, list_insert_insert_eq, HA.
        rewrite seq_S. reflexivity.
      * rewrite HA1, HA. lia.
      * intros r Hr. rewrite Hold1 by lia. apply Hold, Hr.
  - split; [|split; [lia | auto]].
    cbn [seq]. symmetry. apply list_insert_id, Hsm.
Qed.

(** ** Mean centring *)

Lemma center_row_runs sm i j refs r st :
  st_lists st !! sm = Some refs -> refs !! i = Some r ->
  Forall (centrable st) refs -> (j < length electrode_names)%nat ->
  exists st',
    center_row sm i j st = Returned tt st' /\
    st_lists st' = st_lists st /\ Forall (centrable st') refs.
Proof.
  intros HL Hr Hgood Hj.
  destruct (Forall_lookup_1 _ _ _ _ Hgood Hr) as (x & Hx & Hx0 & Hwf).
  destruct (lookup_lt_is_Some_2 (rows x) j) as [row Hrow]; [unfold shape0 in Hx0; lia|].
  assert (Hlen : length (subtract_mean row) = shape1 x).
  { rewrite subtract_mean_length. unfold nd_wf in Hwf.
    apply (Forall_lookup_1 _ _ _ _ Hwf Hrow). }
  unfold center_row.
  rewrite (bind_runs _ _ _ r st) by (eapply list_getitem_runs; eassumption).
  rewrite (bind_runs _ _ _ x st) by (apply np_load_runs, Hx).
  rewrite (bind_runs _ _ _ row st)
    by (apply lift_runs; unfold get_row; rewrite Hrow; reflexivity).
  rewrite (bind_runs _ _ _ _ st
             (lift_runs _ _ _ (set_row_runs x j _ ltac:(lia) Hlen))).
  eexists. split; [reflexivity|]. split; [reflexivity|].
  eapply Forall_impl; [exact Hgood|]. intros r' (y & Hy & Hy0 & Hywf).
  unfold centrable. cbn [st_arrays].
  destruct (decide (r' = r)) as [->|Hne].
  - eexists. split; [apply list_lookup_insert_eq; eapply lookup_lt_Some, Hx|].
    split.
    + unfold shape0 in *. cbn [rows]. rewrite length_insert. exact Hx0.
    + unfold nd_wf in *. cbn [rows shape1]. apply Forall_insert; assumption.
  - exists y. rewrite list_lookup_insert_ne by congruence. auto.
Qed.

Lemma center_data_runs sm refs st :
  st_lists st !! sm = Some refs -> Forall (centrable st) refs ->
  exists st',
    center_data sm (length refs) st = Returned tt st'.
Proof.
  intros HL Hgood. unfold center_data.
  pose (K := fun (_ : nat) (s : store) =>
    st_lists s = st_lists st /\ Forall (centrable s) refs).
  destruct (for_range_runs K
              (fun i => for_each (seq 0 (length electrode_names)) (center_row sm i))
              (length refs) st) as (st' & Hrun & _); [| |eauto].
  - intros i s Hi (HLs & Hg).
    destruct (lookup_lt_is_Some_2 refs i Hi) as [r Hr].
    destruct (for_range_runs K (center_row sm i) (length electrode_names) s)
      as (s1 & Hrun & HK); [| |eauto].
    + intros j s2 Hj (HL2 & Hg2).
      destruct (center_row_runs sm i j refs r s2) as (s3 & Hrun3 & HL3 & Hg3);
        [rewrite HL2; exact HL | exact Hr | exact Hg2 | exact Hj|].
      exists s3. split; [exact Hrun3|]. split; [congruence | exact Hg3].
    + split; assumption.
  - split; [reflexivity | exact Hgood].
Qed.

(** ** Time-frequency analysis, statistics, normalization *)

Lemma wavelet_data_runs a sm wav idx freq st srefs wrefs :
  sm <> wav ->
  st_lists st !! sm = Some srefs -> st_lists st !! wav = Some wrefs ->
  Forall (fun i => exists r, srefs !! i = Some r /\ (r < length (st_arrays st))%nat) idx ->
  exists freq' st', wavelet_data a sm wav idx freq st = Returned freq' st'.
Proof.
  intros Hne. revert freq st wrefs.
  induction idx as [|i idx IH]; intros freq st wrefs Hsm Hwav Hidx.
  - exists freq, st. reflexivity.
  - inversion Hidx as [|? ? (r & Hr & Hlt) Hrest]; subst.
    destruct (lookup_lt_is_Some_2 (st_arrays st) r Hlt) as [x Hx].
    cbn [wavelet_data].
    rewrite (bind_runs _ _ _ r st) by (eapply list_getitem_runs; eassumption).
    rewrite (bind_runs _ _ _ x st) by (apply np_load_runs, Hx).
    destruct (wavelets a x) as [wav_exp freq'].
    rewrite (bind_runs _ _ _ (length (st_arrays st))
               (Store (st_lists st) (st_arrays st ++ [wav_exp]))) by reflexivity.
    erewrite bind_runs; [|apply (list_append_runs wav _ _ wrefs); exact Hwav].
    cbn [st_lists st_arrays].
    apply (IH (Some freq') _ (wrefs ++ [length (st_arrays st)])).
    + cbn [st_lists]. rewrite list_lookup_insert_ne by congruence. exact Hsm.
    + cbn [st_lists]. apply list_lookup_insert_eq. eapply lookup_lt_Some, Hwav.
    + cbn [st_arrays]. eapply Forall_impl; [exact Hrest|].
      intros j (r' & Hr' & Hlt'). exists r'. split; [exact Hr'|].
      rewrite length_app. lia.
Qed.

Lemma frame_statistic_runs f wav wrefs ws st :
  holds st wav wrefs ws ->
  frame_statistic f wav st = Returned (map (log_reduce f) ws) st.
Proof.
  intros [HL HF]. unfold frame_statistic.
  rewrite (bind_runs _ _ _ _ _ (list_read_runs _ _ _ HL)).
  apply map_M_load_runs, HF.
Qed.

Lemma experiment_shapes_runs eeg erefs es st :
  holds st eeg erefs es ->
  experiment_shapes eeg st
  = Returned (map (fun x => (shape0 x, shape1 x)) es) st.
Proof.
  intros [HL HF]. unfold experiment_shapes.
  rewrite (bind_runs _ _ _ _ _ (list_read_runs _ _ _ HL)).
  apply (map_M_load_runs (fun x => (shape0 x, shape1 x))), HF.
Qed.

Lemma normalize_frames_runs w :
  (shape0 w <> 0%nat \/ shape1 w = 0%nat) -> normalize_frames w = Ok (normalized w).
Proof.
  intros Hw. unfold normalize_frames.
  destruct (Nat.eqb_spec (shape0 w) 0); destruct (Nat.eqb_spec (shape1 w) 0);
    cbn; try reflexivity. lia.
Qed.

Lemma normalize_data_runs wav wrefs ws st :
  holds st wav wrefs ws ->
  Forall (fun w => shape0 w <> 0%nat \/ shape1 w = 0%nat) ws ->
  exists st', normalize_data wav wav st = Returned tt st'.
Proof.
  intros Hholds Hws. unfold normalize_data.
  pose proof (holds_length _ _ _ _ Hholds) as Hlen.
  destruct Hholds as [HL HF].
  rewrite (bind_runs _ _ _ _ _ (list_read_runs _ _ _ HL)).
  pose (K := fun (i : nat) (s : store) =>
    exists refs, st_lists s !! wav = Some refs /\ length refs = length wrefs /\
                 (forall j, (i <= j)%nat -> refs !! j = wrefs !! j) /\
                 forall r x, st_arrays st !! r = Some x -> st_arrays s !! r = Some x).
  destruct (for_range_runs K (normalize_experiment wav wav) (length wrefs) st)
    as (st' & Hrun & _); [| |eauto].
  - intros i s Hi (refs & HLs & Hlr & Hkeep & Hold).
    destruct (lookup_lt_is_Some_2 wrefs i Hi) as [r Hr].
    destruct (Forall2_lookup_l _ _ _ _ _ HF Hr) as (w & Hw & Hrw).
    pose proof (Forall_lookup_1 _ _ _ _ Hws Hw) as Hwok. cbn beta in Hwok.
    unfold normalize_experiment.
    rewrite (bind_runs _ _ _ r s)
      by (eapply list_getitem_runs; [exact HLs | rewrite Hkeep by lia; exact Hr]).
    rewrite (bind_runs _ _ _ w s) by (apply np_load_runs, Hold, Hrw).
    rewrite (bind_runs _ _ _ _ s (lift_runs _ _ _ (normalize_frames_runs w Hwok))).
    rewrite (bind_runs _ _ _ (length (st_arrays s))
               (Store (st_lists s) (st_arrays s ++ [normalized w]))) by reflexivity.
    erewrite (list_setitem_runs wav i _ _ refs); [|exact HLs|lia].
    eexists. split; [reflexivity|].
    exists (<[i := length (st_arrays s)]> refs). cbn [st_lists st_arrays].
    split; [apply list_lookup_insert_eq; eapply lookup_lt_Some, HLs|].
    split; [rewrite length_insert; exact Hlr|]. split.
    + intros j Hj. rewrite list_lookup_insert_ne by lia. apply Hkeep. lia.
    + intros r' x Hx. apply lookup_app_l_Some, Hold, Hx.
  - exists wrefs. auto.
Qed.

End Runs.

Section MasksAndLabels.
Context `{Externals}.

(** ** Inclusion mask *)

(** C6: in every constructed object, with [dump_rest] no frame selected by
    the inclusion mask is labelled REST, with [no_bounds] none is labelled
    BOUNDARY, and a frame is left out only for one of these two reasons (so
    the mask is all true when neither flag is set). *)
Theorem inclusion_mask_drops_rest_and_boundary paths a s st :
  init paths a empty_store = Returned s st ->
  length (data_mask s) = length (data_behav_concat s) /\
  (dump_rest a = true ->
   Forall (fun l => l <> Behav_value Behav_REST)
          (select (data_mask s) (data_behav_concat s))) /\
  (no_bounds a = true ->
   Forall (fun l => l <> Behav_value Behav_BOUNDARY)
          (select (data_mask s) (data_behav_concat s))) /\
  (forall k, data_mask s !! k = Some false ->
     exists l, data_behav_concat s !! k = Some l /\
       ((dump_rest a = true /\ l = Behav_value Behav_REST) \/
        (no_bounds a = true /\ l = Behav_value Behav_BOUNDARY))).
Proof.
  intros Hrun. apply init_returned in Hrun as [t Ht].
  rewrite (ex_mask _ _ _ _ _ Ht), inclusion_mask_map.
  assert (Hkeep : forall k l, map (retained a) (data_behav_concat s) !! k = Some true ->
            data_behav_concat s !! k = Some l -> retained a l = true).
  { intros k l Hm Hl. rewrite list_lookup_fmap, Hl in Hm. simpl in Hm. congruence. }
  split; [apply length_map|]. split; [|split].
  - intros Hflag. apply select_Forall. intros k l Hm Hl.
    specialize (Hkeep _ _ Hm Hl). unfold retained in Hkeep. rewrite Hflag in Hkeep.
    apply andb_prop in Hkeep as [Hne _]. apply negb_true_iff, Z.eqb_neq in Hne. exact Hne.
  - intros Hflag. apply select_Forall. intros k l Hm Hl.
    specialize (Hkeep _ _ Hm Hl). unfold retained in Hkeep. rewrite Hflag in Hkeep.
    apply andb_prop in Hkeep as [_ Hne]. apply negb_true_iff, Z.eqb_neq in Hne. exact Hne.
  - intros k Hm. rewrite list_lookup_fmap in Hm.
    destruct (data_behav_concat s !! k) as [l|]; [|discriminate].
    simpl in Hm. injection Hm as Hm. exists l. split; [reflexivity|].
    unfold retained in Hm. apply andb_false_iff in Hm as [Hm|Hm].
    + left. destruct (dump_rest a); [|discriminate].
      apply negb_false_iff, Z.eqb_eq in Hm. auto.
    + right. destruct (no_bounds a); [|discriminate].
      apply negb_false_iff, Z.eqb_eq in Hm. auto.
Qed.

(** ** Rest frames *)

Lemma explains_rest_masks paths a s st t :
  explains paths a s st t ->
  length (test_rest_mask s) = length paths /\
  forall i experiment, paths !! i = Some experiment ->
    exists amp thr,
      frame_amp_list s !! i = Some amp /\
      threshold_otsu amp (Z.of_nat (String.length experiment) / 2) = Ok thr /\
      test_rest_mask s !! i = Some (below thr amp).
Proof.
  intros Ht.
  pose proof (ex_rest _ _ _ _ _ Ht) as Hrest. rewrite label_rest_eq in Hrest.
  apply mask_loop_ok in Hrest as (Hlen & _ & Hdone & _).
  split; [exact Hlen|]. intros i p Hp.
  destruct (Hdone _ _ Hp) as (mask & d & Hmask & _ & _ & Hmi & _).
  unfold rest_mask_at in Hmask. apply rbind_ok in Hmask as (amp & Hamp & Hmask).
  unfold rest_mask_of in Hmask. apply rbind_ok in Hmask as (thr & Hthr & [= <-]).
  apply getitem_ok in Hamp. exists amp, thr. auto.
Qed.


(** ** Override order of the labels *)

Lemma initial_labels_lookup shapes i d :
  initial_labels shapes !! i = Some d ->
  exists sh, shapes !! i = Some sh /\ d = replicate (snd sh) (Behav_value Behav_NONE).
Proof.
  unfold initial_labels. rewrite list_lookup_fmap.
  destruct (shapes !! i) as [sh|]; [|discriminate].
  intros [= <-]. eauto.
Qed.

Lemma explains_override_order paths a s st t :
  explains paths a s st t ->
  length (tr_final t) = length paths /\
  forall i experiment, paths !! i = Some experiment ->
    exists g rest bound d frames,
      shapes_of paths a !! i = Some (length electrode_names, frames) /\
      tr_gt t !! i = Some g /\ length g = frames /\
      test_rest_mask s !! i = Some rest /\ length rest = frames /\
      test_boundary_mask s !! i = Some bound /\ length bound = frames /\
      tr_final t !! i = Some d /\ length d = frames /\
      forall f lg, g !! f = Some lg ->
        gt_value experiment lg /\
        exists r b, rest !! f = Some r /\ bound !! f = Some b /\
                    d !! f = Some (final_label lg r b).
Proof.
  intros Ht.
  pose proof (ex_gt _ _ _ _ _ Ht) as Hgt.
  pose proof (ex_rest _ _ _ _ _ Ht) as Hrest. rewrite label_rest_eq in Hrest.
  pose proof (ex_boundary _ _ _ _ _ Ht) as Hbound. rewrite label_boundary_eq in Hbound.
  apply mask_loop_ok in Hrest as (Hlr & Hlrl & Hrdone & _).
  apply mask_loop_ok in Hbound as (Hlb & Hlbl & Hbdone & _).
  pose proof (label_ground_truth_lengths _ _ _ _ _ Hgt) as Hlens.
  assert (Hshapes : length (shapes_of paths a) = length paths).
  { unfold shapes_of. rewrite length_map. apply tf_bounds_length. }
  assert (Hlgt : length (tr_gt t) = length paths).
  { apply Forall2_length in Hlens. unfold initial_labels in Hlens.
    rewrite length_map in Hlens. lia. }
  split; [lia|]. intros i p Hp.
  destruct (Hrdone _ _ Hp) as (rest & g & _ & Hg & Hrg & Hri & Hrli).
  destruct (Hbdone _ _ Hp) as (bound & d0 & _ & Hd0 & Hbd & Hbi & Hbli).
  rewrite Hrli in Hd0. injection Hd0 as <-.
  rewrite override_length in Hbd by exact Hrg.
  destruct (Forall2_lookup_r _ _ _ _ _ Hlens Hg) as (d0 & Hd0 & Hgd).
  apply initial_labels_lookup in Hd0 as ([E frames] & Hsh & ->).
  rewrite length_replicate in Hgd. simpl in Hgd.
  assert (HE : E = length electrode_names).
  { unfold shapes_of in Hsh. rewrite list_lookup_fmap in Hsh.
    destruct (tf_bounds paths (tf a) !! i); [|discriminate].
    simpl in Hsh. congruence. }
  subst E.
  exists g, rest, bound, (override (Behav_value Behav_BOUNDARY) bound
                            (override (Behav_value Behav_REST) rest g)), frames.
  assert (Hld : length (override (Behav_value Behav_BOUNDARY) bound
                          (override (Behav_value Behav_REST) rest g)) = frames).
  { rewrite !override_length; [exact Hgd | exact Hrg |].
    rewrite override_length; [exact Hbd | exact Hrg]. }
  do 9 (split; [first [assumption | congruence]|]).
  intros f lg Hlg. split.
  - eapply Forall_lookup_1; [|exact Hlg].
    eapply (label_ground_truth_values _ _ _ _ _ Hgt); [|exact Hp|exact Hg].
    intros j q d Hq Hd. apply initial_labels_lookup in Hd as (sh & _ & ->).
    apply Forall_replicate. left. reflexivity.
  - pose proof (lookup_lt_Some _ _ _ Hlg) as Hf.
    destruct (lookup_lt_is_Some_2 rest f) as [r Hr]; [lia|].
    destruct (lookup_lt_is_Some_2 bound f) as [b Hb]; [lia|].
    exists r, b. split; [exact Hr|]. split; [exact Hb|].
    erewrite override_lookup; [|exact Hb|eapply override_lookup; eassumption].
    unfold final_label. reflexivity.
Qed.

(** In every constructed object the label of a frame is decided by the
    override order.  With [g] the labels the ground-truth pass of lines 140
    to 153 leaves on an experiment (each NONE or a label of the ground-truth
    table selected for the experiment's path), the final label of a frame is
    BOUNDARY when the boundary mask selects it, otherwise REST when the rest
    mask selects it, otherwise its label in [g]: a ground-truth label when
    the pass wrote one, NONE when it did not. *)
Theorem labels_follow_override_order paths a s st :
  init paths a empty_store = Returned s st ->
  exists gt finals,
    label_ground_truth a paths (shapes_of paths a)
                       (initial_labels (shapes_of paths a)) = Ok gt /\
    data_behav_concat s = concat finals /\
    length finals = length paths /\
    forall i experiment, paths !! i = Some experiment ->
      exists g rest bound d frames,
        shapes_of paths a !! i = Some (length electrode_names, frames) /\
        gt !! i = Some g /\ length g = frames /\
        test_rest_mask s !! i = Some rest /\ length rest = frames /\
        test_boundary_mask s !! i = Some bound /\ length bound = frames /\
        finals !! i = Some d /\ length d = frames /\
        forall f lg, g !! f = Some lg ->
          gt_value experiment lg /\
          exists r b, rest !! f = Some r /\ bound !! f = Some b /\
                      d !! f = Some (final_label lg r b).
Proof.
  intros Hrun. apply init_returned in Hrun as [t Ht].
  exists (tr_gt t), (tr_final t).
  destruct (explains_override_order _ _ _ _ _ Ht) as [Hlen Hframes].
  split; [apply (ex_gt _ _ _ _ _ Ht)|]. split; [apply (ex_labels _ _ _ _ _ Ht)|].
  split; [exact Hlen | exact Hframes].
Qed.

(** With no more electrodes than twice [clip_len // 2] (four electrodes and
    the default [clip_len = 100], say) the ground-truth pass writes nothing:
    every frame of a constructed object is labelled BOUNDARY, REST or NONE,
    whatever the ground-truth table. *)
Theorem few_electrodes_leave_no_ground_truth paths a s st :
  init paths a empty_store = Returned s st ->
  Z.of_nat (length electrode_names) <= 2 * (clip_len a / 2) ->
  Forall (fun l => l = Behav_value Behav_BOUNDARY \/ l = Behav_value Behav_REST \/
                   l = Behav_value Behav_NONE)
         (data_behav_concat s).
Proof.
  intros Hrun Hfew. apply init_returned in Hrun as [t Ht].
  destruct (explains_override_order _ _ _ _ _ Ht) as [Hlen Hframes].
  assert (Hgt : tr_gt t = initial_labels (shapes_of paths a)).
  { pose proof (ex_gt _ _ _ _ _ Ht) as Hgt.
    rewrite label_ground_truth_no_offset in Hgt.
    - congruence.
    - unfold initial_labels. rewrite length_map. reflexivity.
    - unfold shapes_of. apply Forall_map, Forall_forall. intros x _. exact Hfew. }
  rewrite (ex_labels _ _ _ _ _ Ht). apply Forall_concat, Forall_lookup.
  intros i d Hd.
  destruct (lookup_lt_is_Some_2 paths i) as [p Hp].
  { rewrite <- Hlen. eapply lookup_lt_Some, Hd. }
  destruct (Hframes _ _ Hp)
    as (g & rest & bound & d' & frames & Hsh & Hg & Hlg & _ & _ & _ & _ & Hd' & Hld & Hf).
  rewrite Hd in Hd'. injection Hd' as <-.
  apply Forall_lookup. intros f l Hl.
  destruct (lookup_lt_is_Some_2 g f) as [lg Hlgf].
  { rewrite Hlg, <- Hld. eapply lookup_lt_Some, Hl. }
  destruct (Hf _ _ Hlgf) as (_ & r & b & _ & _ & Hfinal).
  rewrite Hl in Hfinal. injection Hfinal as ->.
  rewrite Hgt in Hg. apply initial_labels_lookup in Hg as (sh & _ & ->).
  apply lookup_replicate in Hlgf as [-> _].
  unfold final_label. destruct b; [auto|]. destruct r; auto.
Qed.

(** ** Alignment of the outputs *)

(** C2: in every constructed object the masked feature matrix has as many
    frames as each of the retained experiment-id, frame-offset and amplitude
    arrays; the arrays they are cut from have one common length too, and the
    amplitude vector of every experiment has the length of the experiment:
    a run in which those lengths disagree returns no object. *)
Theorem outputs_are_aligned paths a s st :
  init paths a empty_store = Returned s st ->
  let d := preprocess_dict s in
  shape1 (Exp_matrix d) = length (Experiment_idx d) /\
  length (Experiment_idx d) = length (Frame_idx d) /\
  length (Frame_idx d) = length (Frame_amps d) /\
  Forall (fun r => length r = shape1 (Exp_matrix d)) (rows (Exp_matrix d)) /\
  shape1 (data_concat s) = length (data_mask s) /\
  length (exp_idx s) = length (data_mask s) /\
  length (frame_idx s) = length (data_mask s) /\
  length (concat (frame_amp_list s)) = length (data_mask s) /\
  forall i amp frames,
    frame_amp_list s !! i = Some amp ->
    shapes_of paths a !! i = Some (length electrode_names, frames) ->
    length amp = frames.
Proof.
  intros Hrun d. apply init_returned in Hrun as [t Ht].
  pose proof (explains_data_concat_wf _ _ _ _ _ Ht) as Hwf.
  unfold d. rewrite (ex_dict _ _ _ _ _ Ht). cbn.
  pose proof (mask_columns_wf _ _ _ Hwf (ex_masked _ _ _ _ _ Ht)) as Hwf'.
  destruct (mask_columns_ok _ _ _ (ex_masked _ _ _ _ _ Ht)) as [Hm1 Hm2].
  destruct (get_masked_ok _ _ _ (ex_frame_index _ _ _ _ _ Ht)) as [Hf1 Hf2].
  destruct (get_masked_ok _ _ _ (ex_experiment_index _ _ _ _ _ Ht)) as [He1 He2].
  destruct (get_masked_ok _ _ _ (ex_amplitudes _ _ _ _ _ Ht)) as [Ha1 Ha2].
  pose proof (select_count _ _ Hf1) as Hf3.
  pose proof (select_count _ _ He1) as He3.
  pose proof (select_count _ _ Ha1) as Ha3.
  rewrite (ex_data _ _ _ _ _ Ht), Hf2, He2, Ha2.
  assert (Hcount : shape1 (scrub (tr_masked t))
                   = length (select (data_mask s) (data_mask s))).
  { rewrite Hm2. reflexivity. }
  do 3 (split; [congruence|]). split; [apply scrub_wf, Hwf'|].
  do 4 (split; [congruence|]).
  intros i amp frames Hamp Hshape.
  destruct (explains_override_order _ _ _ _ _ Ht) as [_ Hframes].
  destruct (explains_rest_masks _ _ _ _ _ Ht) as [Hlen Hmasks].
  assert (Hshapes : length (shapes_of paths a) = length paths).
  { unfold shapes_of. rewrite length_map. apply tf_bounds_length. }
  destruct (lookup_lt_is_Some_2 paths i) as [p Hp].
  { rewrite <- Hshapes. eapply lookup_lt_Some, Hshape. }
  destruct (Hmasks _ _ Hp) as (amp' & thr & Hamp' & _ & Hrest).
  rewrite Hamp in Hamp'. injection Hamp' as <-.
  destruct (Hframes _ _ Hp)
    as (g & rest & bound & d' & frames' & Hsh & _ & _ & Hrest' & Hlrest & _).
  rewrite Hshape in Hsh. injection Hsh as <-.
  rewrite Hrest in Hrest'. injection Hrest' as <-.
  unfold below in Hlrest. rewrite length_map in Hlrest. exact Hlrest.
Qed.

End MasksAndLabels.

Section WindowAndAliasing.
Context `{Externals}.

(** ** The time window *)

Lemma bind_eq {A B : Type} (m : M A) (k : A -> M B) st :
  bind m k st = match m st with
                | Returned a st' => k a st'
                | Raised e st' => Raised e st'
                end.
Proof. reflexivity. Qed.

Lemma read_data_first_raises eeg ti exp rest tf st :
  resolve_tf tf (recording_length exp) <= ti ->
  exists e,
    read_data eeg ti (exp :: rest) tf st = Raised e st /\
    (df_num_keys (read_csv exp) <> 0 ->
     e = AssertionError "tf must be greater that ti").
Proof.
  intros Hle. simpl. rewrite bind_eq. unfold experiment_length, lift at 1.
  destruct (Z.eqb_spec (df_num_keys (read_csv exp)) 0) as [Hz|Hnz].
  - eexists. split; [reflexivity|]. congruence.
  - rewrite bind_eq. unfold lift, assert. fold (recording_length exp).
    destruct (Z.ltb_spec ti (resolve_tf tf (recording_length exp))); [lia|].
    eexists. split; [reflexivity|]. auto.
Qed.

(** The experiments [pre] are read, one matrix each, and the experiment
    after them, whose bound is not above [ti], raises before its matrix is
    allocated. *)
Lemma read_data_bound_raises eeg ti pre exp post tf st refs t :
  st_lists st !! eeg = Some refs ->
  (forall k p b, pre !! k = Some p ->
     tf_bounds (pre ++ exp :: post) tf !! k = Some b -> readable ti p b) ->
  tf_bounds (pre ++ exp :: post) tf !! length pre = Some t -> t <= ti ->
  exists e st',
    read_data eeg ti (pre ++ exp :: post) tf st = Raised e st' /\
    length (st_arrays st') = (length (st_arrays st) + length pre)%nat /\
    (df_num_keys (read_csv exp) <> 0 ->
     e = AssertionError "tf must be greater that ti").
Proof.
  revert tf st refs. induction pre as [|p pre IH]; intros tf st refs Hl Hok Ht Hle.
  - cbn in Ht. injection Ht as <-. fold (recording_length exp) in Hle.
    destruct (read_data_first_raises eeg ti exp post tf st Hle) as (e & He & Hassert).
    exists e, st. cbn [app length]. rewrite Nat.add_0_r. auto.
  - destruct (Hok 0%nat p _ eq_refl eq_refl) as (Hkeys & Hlt & Hcols).
    fold (recording_length p) in Hlt, Hcols.
    cbn [app read_data].
    assert (Hlen : experiment_length (read_csv p) = Ok (recording_length p)).
    { unfold experiment_length.
      destruct (Z.eqb_spec (df_num_keys (read_csv p)) 0); [contradiction|reflexivity]. }
    rewrite (bind_runs _ _ _ _ st (lift_runs _ _ _ Hlen)).
    set (b := resolve_tf tf (recording_length p)) in *.
    assert (Hassert : assert (ti <? b) "tf must be greater that ti" = Ok tt).
    { unfold assert. destruct (Z.ltb_spec ti b); [reflexivity | lia]. }
    rewrite (bind_runs _ _ _ _ st (lift_runs _ _ _ Hassert)).
    rewrite (bind_runs _ _ _ (length (st_arrays st))
               (Store (st_lists st)
                      (st_arrays st ++ [np_zeros (length electrode_names) (Z.to_nat (b - ti))])))
      by reflexivity.
    erewrite bind_runs; [|apply (list_append_runs eeg _ _ refs); exact Hl].
    cbn [st_lists st_arrays].
    destruct (load_electrodes_runs eeg (read_csv p) ti b refs (st_arrays st)
                (np_zeros (length electrode_names) (Z.to_nat (b - ti)))
                (Store (<[eeg := refs ++ [length (st_arrays st)]]> (st_lists st))
                       (st_arrays st ++
                        [np_zeros (length electrode_names) (Z.to_nat (b - ti))])))
      as (st1 & Hrun & HL1 & HA1).
    + cbn [st_lists]. apply list_lookup_insert_eq. eapply lookup_lt_Some, Hl.
    + reflexivity.
    + apply np_zeros_shape0.
    + reflexivity.
    + exact Hcols.
    + rewrite (bind_runs _ _ _ _ _ Hrun).
      destruct (IH (Some b) st1 (refs ++ [length (st_arrays st)])) as (e & st' & He & HA & Hassert').
      * rewrite HL1. cbn [st_lists]. apply list_lookup_insert_eq.
        eapply lookup_lt_Some, Hl.
      * intros k q c Hq Hc. apply (Hok (S k) q c Hq Hc).
      * exact Ht.
      * exact Hle.
      * exists e, st'. split; [exact He|]. split; [|exact Hassert'].
        rewrite HA, HA1. cbn [length]. lia.
Qed.

Lemma init_bound_raises paths a pre exp post t :
  paths = pre ++ exp :: post ->
  (forall k p b, pre !! k = Some p ->
     tf_bounds paths (tf a) !! k = Some b -> readable (ti a) p b) ->
  tf_bounds paths (tf a) !! length pre = Some t -> t <= ti a ->
  exists e st,
    init paths a empty_store = Raised e st /\
    length (st_arrays st) = length pre /\
    (df_num_keys (read_csv exp) <> 0 ->
     e = AssertionError "tf must be greater that ti").
Proof.
  intros -> Hok Ht Hle. unfold init.
  rewrite bind_eq. change (new_list empty_store) with (Returned 0%nat (Store [[]] [])).
  cbv beta iota.
  rewrite bind_eq. change (new_list (Store [[]] [])) with (Returned 1%nat (Store [[]; []] [])).
  cbv beta iota.
  rewrite bind_eq.
  change (new_list (Store [[]; []] [])) with (Returned 2%nat (Store [[]; []; []] [])).
  cbv beta iota.
  rewrite bind_eq.
  destruct (read_data_bound_raises 0%nat (ti a) pre exp post (tf a)
              (Store [[]; []; []] []) [] t eq_refl Hok Ht Hle)
    as (e & st & He & HA & Hassert).
  rewrite He. exists e, st. auto.
Qed.

(** C8: the bound in force for the first experiment is the minimum of the
    given [tf] and the experiment's length, or the length alone when [tf]
    is unset; for every later experiment it is the minimum of the bound of
    the experiment before it and its own length.  When a bound is not above
    [ti] no object is constructed: if the experiments before the offending
    one can be read, the constructor raises at the offending experiment,
    the assertion error if its recording has a column, and the matrices
    allocated by then are those of the experiments before it, none when the
    first experiment offends (as for every given [tf <= ti], e.g.
    [ti = 100], [tf = 50]).  In a constructed object every raw matrix has
    shape (number of electrodes, tf - ti) for the bound [tf] of its
    experiment, every row having [tf - ti] entries. *)
Theorem tf_is_resolved_per_experiment paths a :
  let bounds := tf_bounds paths (tf a) in
  (forall exp, paths !! 0%nat = Some exp ->
     bounds !! 0%nat = Some (match tf a with
                             | Some t => Z.min t (recording_length exp)
                             | None => recording_length exp
                             end)) /\
  (forall k exp t, paths !! S k = Some exp -> bounds !! k = Some t ->
     bounds !! S k = Some (Z.min t (recording_length exp))) /\
  (forall k t, bounds !! k = Some t -> t <= ti a ->
     forall s st, init paths a empty_store <> Returned s st) /\
  (forall pre exp post t, paths = pre ++ exp :: post ->
     (forall k p b, pre !! k = Some p -> bounds !! k = Some b ->
                    readable (ti a) p b) ->
     bounds !! length pre = Some t -> t <= ti a ->
     exists e st,
       init paths a empty_store = Raised e st /\
       length (st_arrays st) = length pre /\
       (df_num_keys (read_csv exp) <> 0 ->
        e = AssertionError "tf must be greater that ti")) /\
  (forall s st, init paths a empty_store = Returned s st ->
     exists refs raw,
       holds st (EEG_list (preprocess_dict s)) refs raw /\
       Forall2 (fun x t => ti a < t /\ nd_wf x /\
                  shape x = (length electrode_names, Z.to_nat (t - ti a)))
               raw bounds).
Proof.
  intros bounds. split; [|split; [|split; [|split]]].
  - intros exp Hexp. unfold bounds. destruct paths as [|p ps]; [discriminate|].
    injection Hexp as ->. simpl. unfold resolve_tf, recording_length.
    destruct (tf a); reflexivity.
  - unfold bounds. generalize (tf a). induction paths as [|p ps IH]; intros tf0 k exp t Hexp Ht.
    + discriminate.
    + simpl in Hexp. simpl. destruct k as [|k].
      * simpl in Ht. injection Ht as <-.
        destruct ps as [|q qs]; [discriminate|]. injection Hexp as ->. reflexivity.
      * simpl in Ht. eapply IH; eauto.
  - intros k t Hk Hle s st Hrun. apply init_returned in Hrun as [tr Ht].
    pose proof (ex_bounds _ _ _ _ _ Ht) as Hb.
    eapply Forall_lookup_1 in Hb; [|exact Hk]. simpl in Hb. lia.
  - intros pre exp post t. apply init_bound_raises.
  - intros s st Hrun. apply init_returned in Hrun as [tr Ht].
    rewrite (ex_dict _ _ _ _ _ Ht). cbn.
    exists (tr_erefs tr), (tr_eeg tr). split; [apply (ex_holds_eeg _ _ _ _ _ Ht)|].
    pose proof (ex_shapes _ _ _ _ _ Ht) as Hsh. unfold shapes_of in Hsh.
    pose proof (ex_bounds _ _ _ _ _ Ht) as Hb. fold bounds in Hsh, Hb.
    pose proof (ex_eeg_wf _ _ _ _ _ Ht) as Hwf.
    clear -Hsh Hb Hwf. revert Hsh Hb Hwf. generalize (tr_eeg tr). generalize bounds.
    intros bs. induction bs as [|t ts IH]; intros [|x xs] Hsh Hb Hwf; simpl in Hsh;
      try discriminate; constructor.
    + inversion Hb; subst. inversion Hwf; subst. injection Hsh as Hx0 Hx1 _.
      split; [assumption|]. split; [assumption | unfold shape; congruence].
    + inversion Hb; subst. inversion Hwf; subst. injection Hsh as _ _ Hxs. auto.
Qed.

(** ** Aliasing *)

(** C9: without smoothing, the smoothed list of a constructed object is the
    very list object of the raw matrices; with mean centring, the arrays of
    that one list are the matrices read from the recordings (one row of
    [tf - ti] samples per electrode) with the mean of every row subtracted,
    so the bundle shows the same centred arrays as raw and as smoothed
    data. *)
Theorem unsmoothed_list_is_the_raw_list paths a s st :
  init paths a empty_store = Returned s st ->
  smooth a = false ->
  let d := preprocess_dict s in
  let raw := zip_with (loaded (ti a)) paths (tf_bounds paths (tf a)) in
  Smooth_EEG_list d = EEG_list d /\
  Forall nd_wf raw /\
  exists refs,
    holds st (EEG_list d) refs (if mean_center a then map center_rows raw else raw) /\
    holds st (Smooth_EEG_list d) refs (if mean_center a then map center_rows raw else raw).
Proof.
  intros Hrun Hsmooth d raw. apply init_returned in Hrun as [t Ht].
  unfold d. rewrite (ex_dict _ _ _ _ _ Ht). cbn.
  pose proof (ex_smooth_list _ _ _ _ _ Ht) as Hlist. rewrite Hsmooth in Hlist.
  split; [exact Hlist|].
  split; [unfold raw; rewrite <- (ex_raw _ _ _ _ _ Ht); apply (ex_raw_wf _ _ _ _ _ Ht)|].
  exists (tr_erefs t).
  pose proof (ex_holds_eeg _ _ _ _ _ Ht) as Hholds.
  pose proof (ex_eeg _ _ _ _ _ Ht) as Heeg. rewrite Hsmooth in Heeg.
  destruct (ex_smooth _ _ _ _ _ Ht) as (sms & Hsms & Hsm). rewrite Hsmooth in Hsms.
  rewrite Hsms, (ex_raw _ _ _ _ _ Ht) in Hsm. fold raw in Hsm.
  rewrite Heeg, Hsm in Hholds. rewrite Hlist. auto.
Qed.

(** C10: with normalization, the normalized list of a constructed object is
    the very list object of the spectral arrays, and each of its elements
    is the normalized spectral array of its experiment; the array objects
    that held the arrays returned by the transform are elements of none of
    the four lists of the bundle. *)
Theorem normalized_list_is_the_spectral_list paths a s st :
  init paths a empty_store = Returned s st ->
  normalize a = true ->
  let d := preprocess_dict s in
  Normalized_Spect_list d = Spect_list d /\
  exists srefs smooths refs dropped,
    holds st (Smooth_EEG_list d) srefs smooths /\
    holds st (Spect_list d) refs
          (map (fun x => normalized (fst (wavelets a x))) smooths) /\
    Forall2 (fun r x => st_arrays st !! r = Some (fst (wavelets a x)))
            dropped smooths /\
    forall l elements r,
      l ∈ [EEG_list d; Smooth_EEG_list d; Spect_list d; Normalized_Spect_list d] ->
      st_lists st !! l = Some elements -> r ∈ dropped -> r ∉ elements.
Proof.
  intros Hrun Hnorm d. apply init_returned in Hrun as [t Ht].
  unfold d. rewrite (ex_dict _ _ _ _ _ Ht). cbn.
  split; [apply (ex_norm_list _ _ _ _ _ Ht)|].
  exists (tr_srefs t), (tr_smooth t), (tr_wrefs t), (tr_wrefs0 t).
  pose proof (ex_holds_wav _ _ _ _ _ Ht) as Hw.
  rewrite (ex_norm _ _ _ _ _ Ht), Hnorm, (ex_wav _ _ _ _ _ Ht), map_map in Hw.
  pose proof (ex_wav_objects _ _ _ _ _ Ht) as Hobjs.
  rewrite (ex_wav _ _ _ _ _ Ht) in Hobjs. apply Forall2_fmap_r in Hobjs.
  split; [apply (ex_holds_smooth _ _ _ _ _ Ht)|]. split; [exact Hw|].
  split; [exact Hobjs|].
  intros l elements r Hl Hel Hr Hin.
  apply (ex_wav_dropped _ _ _ _ _ Ht Hnorm r Hr).
  destruct (ex_holds_eeg _ _ _ _ _ Ht) as [He _].
  destruct (ex_holds_smooth _ _ _ _ _ Ht) as [Hs _].
  destruct Hw as [Hwl _].
  rewrite (ex_norm_list _ _ _ _ _ Ht) in Hl.
  rewrite !elem_of_app.
  repeat (apply elem_of_cons in Hl as [->|Hl]);
    [ left | right; left | right; right | right; right | inversion Hl ];
    congruence.
Qed.

End WindowAndAliasing.

(** ** The final scrub *)

Lemma scrub_finite c : finite_entries (scrub c).
Proof.
  unfold finite_entries, scrub. simpl.
  apply Forall_map, Forall_forall. intros r _.
  apply Forall_map, Forall_forall. intros x _. simpl.
  unfold not_finite. destruct (PrimFloat.is_nan x) eqn:Hnan; simpl.
  - split; reflexivity.
  - destruct (PrimFloat.is_infinity x) eqn:Hinf; simpl; [split; reflexivity|auto].
Qed.

Lemma scrub_id c : finite_entries c -> scrub c = c.
Proof.
  unfold finite_entries, scrub. destruct c as [rs n]. simpl. intros Hfin.
  f_equal. induction Hfin as [|r rs Hr _ IH]; simpl; [reflexivity|].
  rewrite IH. f_equal.
  induction Hr as [|x r [Hnan Hinf] _ IHr]; simpl; [reflexivity|].
  rewrite IHr. unfold not_finite. rewrite Hnan, Hinf. reflexivity.
Qed.

Lemma select_all_true {A : Type} (mask : list bool) (d : list A) :
  Forall (fun m => m = true) mask -> length mask = length d -> select mask d = d.
Proof.
  intros Hall. revert d. induction Hall as [|m mask -> _ IH]; intros [|x d] Hlen;
    simpl in *; try discriminate; [reflexivity|].
  rewrite IH by lia. reflexivity.
Qed.

Lemma mask_columns_all_true c mask c' :
  nd_wf c -> Forall (fun m => m = true) mask ->
  mask_columns c mask = Ok c' -> c' = c.
Proof.
  intros Hwf Hall Hm. apply mask_columns_ok in Hm as [Hlen ->].
  destruct c as [rs n]. unfold nd_wf in Hwf. simpl in *. f_equal.
  - induction Hwf as [|r rs Hr _ IH]; simpl; [reflexivity|].
    rewrite IH, select_all_true; [reflexivity | exact Hall | congruence].
  - rewrite select_all_true; auto.
Qed.

Section RoundTripAndScrub.
Context `{Externals}.

Lemma inclusion_mask_all_true a labels :
  dump_rest a = false -> no_bounds a = false ->
  Forall (fun m => m = true) (inclusion_mask a labels).
Proof.
  intros Hd Hb. rewrite inclusion_mask_map. apply Forall_map, Forall_forall.
  intros l _. simpl. unfold retained. rewrite Hd, Hb. reflexivity.
Qed.

Lemma wavelets_shape0 a x :
  shape0 (fst (wavelets a x))
  = shape1 (fst (find_wav (np_transpose x) (num_channels a) 5 (samp_rate a)
                          (min_frequency a) (max_frequency a))).
Proof.
  unfold wavelets. destruct (find_wav _ _ _ _ _ _) as [w f]. simpl.
  unfold shape0, np_transpose, columns. simpl. rewrite length_map, length_seq.
  reflexivity.
Qed.

(** C4 (amended): for two experiments of 500 and 300 frames, without
    smoothing, centring, normalization or masks, the feature matrix of the
    constructed object is the concatenation along the frame axis of the
    spectral arrays of the raw matrices with every NaN and Inf entry
    replaced by 0, hence that concatenation itself when it has no such
    entry; it has 800 frames, and [num_channels] rows when the transform
    returns [num_channels] bands; the experiment ids are 500 zeros followed
    by 300 ones. *)
Theorem round_trip_up_to_scrub paths a s st :
  init paths a empty_store = Returned s st ->
  smooth a = false -> mean_center a = false -> normalize a = false ->
  dump_rest a = false -> no_bounds a = false ->
  tf_bounds paths (tf a) = [ti a + 500; ti a + 300] ->
  (forall x, shape1 (fst (find_wav x (num_channels a) 5 (samp_rate a)
                                   (min_frequency a) (max_frequency a)))
             = Z.to_nat (num_channels a)) ->
  let d := preprocess_dict s in
  exists refs c,
    holds st (Spect_list d) refs
          (map (fun x => fst (wavelets a x))
               (zip_with (loaded (ti a)) paths (tf_bounds paths (tf a)))) /\
    concatenate_axis1
      (map (fun x => fst (wavelets a x))
           (zip_with (loaded (ti a)) paths (tf_bounds paths (tf a)))) = Ok c /\
    Exp_matrix d = scrub c /\
    (finite_entries c -> Exp_matrix d = c) /\
    shape (Exp_matrix d) = (Z.to_nat (num_channels a), 800%nat) /\
    Experiment_idx d = replicate 500 0 ++ replicate 300 1.
Proof.
  intros Hrun Hsmooth Hcenter Hnorm Hdump Hbounds Htf Hchan d.
  apply init_returned in Hrun as [t Ht].
  unfold d. rewrite (ex_dict _ _ _ _ _ Ht).
  cbn [Exp_matrix Experiment_idx Spect_list].
  pose proof (explains_data_concat_wf _ _ _ _ _ Ht) as Hwf.
  destruct (ex_smooth _ _ _ _ _ Ht) as (sms & Hsms & Hsm).
  rewrite Hsmooth in Hsms. rewrite Hcenter, Hsms, (ex_raw _ _ _ _ _ Ht) in Hsm.
  pose proof (ex_holds_wav _ _ _ _ _ Ht) as Hholds.
  pose proof (ex_concat _ _ _ _ _ Ht) as Hcat.
  rewrite (ex_norm _ _ _ _ _ Ht), Hnorm, (ex_wav _ _ _ _ _ Ht), Hsm in Hholds, Hcat.
  pose proof (inclusion_mask_all_true a (data_behav_concat s) Hdump Hbounds) as Hall.
  rewrite <- (ex_mask _ _ _ _ _ Ht) in Hall.
  pose proof (mask_columns_all_true _ _ _ Hwf Hall (ex_masked _ _ _ _ _ Ht)) as Hmasked.
  destruct (get_masked_ok _ _ _ (ex_experiment_index _ _ _ _ _ Ht)) as [Hlen Hidx].
  rewrite select_all_true in Hidx by assumption.
  assert (Hexp : exp_idx s = replicate 500 0 ++ replicate 300 1).
  { rewrite (ex_exp_idx _ _ _ _ _ Ht). unfold shapes_of. rewrite Htf.
    unfold exp_idx_parts, enumerate. cbn [map length seq zip zip_with fst snd concat].
    replace (Z.to_nat (ti a + 500 - ti a)) with 500%nat by lia.
    replace (Z.to_nat (ti a + 300 - ti a)) with 300%nat by lia.
    rewrite app_nil_r. reflexivity. }
  exists (tr_wrefs t), (data_concat s).
  rewrite (ex_data _ _ _ _ _ Ht), Hmasked.
  split; [exact Hholds|]. split; [exact Hcat|]. split; [reflexivity|].
  split; [apply scrub_id|]. split; [|congruence].
  unfold shape. f_equal.
  - unfold shape0, scrub. simpl. rewrite length_map.
    apply concatenate_axis1_ok in Hcat as (x & xs & Hxs & Hsame & ->).
    simpl rows. rewrite hstack_length by exact Hsame.
    destruct paths as [|p ps]; [discriminate|]. rewrite Htf in Hxs. simpl in Hxs.
    injection Hxs as <- _. rewrite wavelets_shape0. apply Hchan.
  - cbn [scrub shape1]. destruct (ex_assert _ _ _ _ _ Ht) as [_ <-].
    rewrite Hexp, length_app, !length_replicate. reflexivity.
Qed.

(** C7 (amended): frame statistics and normalization have no failure of
    their own on NaN or Inf entries (normalization of an array with at
    least one channel always yields the quotient array), and in every
    constructed object the values they produce are kept as computed:
    NaN and Inf are replaced by 0 in the masked feature matrix only, which
    therefore has no NaN or Inf entry.  Every amplitude vector of a
    constructed object was accepted by [threshold_otsu]: a run in which
    that call raises constructs no object. *)
Theorem nan_and_inf_are_scrubbed_at_the_end paths a :
  (forall w, shape0 w <> 0%nat -> normalize_frames w = Ok (normalized w)) /\
  forall s st, init paths a empty_store = Returned s st ->
    let d := preprocess_dict s in
    finite_entries (Exp_matrix d) /\
    (exists masked,
       mask_columns (data_concat s) (data_mask s) = Ok masked /\
       Exp_matrix d = scrub masked) /\
    (exists srefs smooths refs,
       holds st (Smooth_EEG_list d) srefs smooths /\
       let spect := map (fun x => fst (wavelets a x)) smooths in
       frame_var_list s = map (log_reduce np_var) spect /\
       frame_amp_list s = map (log_reduce np_sum) spect /\
       holds st (Normalized_Spect_list d) refs
             (if normalize a then map normalized spect else spect) /\
       concatenate_axis1 (if normalize a then map normalized spect else spect)
         = Ok (data_concat s)) /\
    (forall i experiment, paths !! i = Some experiment ->
       exists amp thr,
         frame_amp_list s !! i = Some amp /\
         threshold_otsu amp (Z.of_nat (String.length experiment) / 2) = Ok thr).
Proof.
  split.
  - intros w Hw. unfold normalize_frames.
    destruct (Nat.eqb_spec (shape0 w) 0); [contradiction|]. reflexivity.
  - intros s st Hrun d.
    apply init_returned in Hrun as [t Ht].
    pose proof (explains_rest_masks _ _ _ _ _ Ht) as [_ Hotsu].
    unfold d. rewrite (ex_dict _ _ _ _ _ Ht). cbn.
    rewrite (ex_data _ _ _ _ _ Ht).
    split; [apply scrub_finite|]. split; [|split].
    + exists (tr_masked t). split; [apply (ex_masked _ _ _ _ _ Ht) | reflexivity].
    + exists (tr_srefs t), (tr_smooth t), (tr_wrefs t).
      split; [apply (ex_holds_smooth _ _ _ _ _ Ht)|]. cbn zeta.
      rewrite <- (ex_wav _ _ _ _ _ Ht), <- (ex_norm _ _ _ _ _ Ht).
      rewrite (ex_norm_list _ _ _ _ _ Ht).
      split; [apply (ex_var _ _ _ _ _ Ht)|]. split; [apply (ex_amp _ _ _ _ _ Ht)|].
      split; [apply (ex_holds_wav _ _ _ _ _ Ht) | apply (ex_concat _ _ _ _ _ Ht)].
    + intros i p Hp. destruct (Hotsu _ _ Hp) as (amp & thr & Ha & Hthr & _). eauto.
Qed.

End RoundTripAndScrub.

(** ** The frames the passes select *)

Lemma fill_slice_lookup {A : Type} (l : list A) (a b : nat) (v x : A) (f : nat) :
  l !! f = Some x ->
  fill_slice l a b v !! f = Some (if (a <=? f)%nat && (f <? b)%nat then v else x).
Proof. intros Hx. unfold fill_slice. rewrite list_lookup_imap, Hx. reflexivity. Qed.

(** The boundary mask of [n] frames, frame by frame, for a width
    [bound_len >= 0]: the first and the last [bound_len] frames, and every
    frame when [bound_len] is 0 (the slice [[-0:]] is the whole array). *)
Lemma boundary_lookup (bound_len : Z) (n f : nat) :
  0 <= bound_len -> (f < n)%nat ->
  boundary bound_len n !! f
  = Some ((bound_len =? 0) || (Z.of_nat f <? bound_len)
          || (Z.of_nat n - bound_len <=? Z.of_nat f)).
Proof.
  intros Hb Hf. unfold boundary. rewrite list_lookup_fmap.
  erewrite fill_slice_lookup;
    [|apply fill_slice_lookup, lookup_replicate_2, Hf].
  simpl. f_equal. unfold slice_bound.
  destruct (Z.eqb_spec bound_len 0) as [->|Hne]; simpl.
  - destruct (Z.ltb_spec (- 0) 0) as [?|_]; [lia|].
    replace (Z.to_nat (Z.min (- 0) (Z.of_nat n))) with 0%nat by lia.
    simpl. destruct (Nat.ltb_spec f n); [reflexivity | lia].
  - destruct (Z.ltb_spec bound_len 0); [lia|].
    destruct (Z.ltb_spec (- bound_len) 0); [|lia].
    destruct (Nat.ltb_spec f n); [|lia]. rewrite andb_true_r.
    destruct (Nat.leb_spec (Z.to_nat (Z.max (- bound_len + Z.of_nat n) 0)) f);
      destruct (Z.leb_spec (Z.of_nat n - bound_len) (Z.of_nat f));
      try lia; rewrite ?orb_true_r; try reflexivity.
    rewrite orb_false_r.
    destruct (Nat.ltb_spec f (Z.to_nat (Z.min bound_len (Z.of_nat n))));
      destruct (Z.ltb_spec (Z.of_nat f) bound_len); try lia; reflexivity.
Qed.

Section SelectedFrames.
Context `{Externals}.

(** The ground-truth pass labels a frame exactly when its index is at least
    [2 * (clip_len // 2)] and below the number of electrodes (the number of
    rows of the matrix, where the number of frames was meant) and an entry
    of the table applies to it; the label is that of the last such entry. *)
Theorem ground_truth_labels_by_row_count paths a s st :
  init paths a empty_store = Returned s st ->
  0 <= clip_len a ->
  exists gt,
    label_ground_truth a paths (shapes_of paths a)
                       (initial_labels (shapes_of paths a)) = Ok gt /\
    forall i path g f lg,
      paths !! i = Some path -> gt !! i = Some g -> g !! f = Some lg ->
      lg = if (2 * (clip_len a / 2) <=? Z.of_nat f)
              && (Z.of_nat f <? Z.of_nat (length electrode_names))
           then match gt_label a path (Z.of_nat f) with
                | Some b => Behav_value b
                | None => Behav_value Behav_NONE
                end
           else Behav_value Behav_NONE.
Proof.
  intros Hrun Hclip. apply init_returned in Hrun as [t Ht].
  exists (tr_gt t). pose proof (ex_gt _ _ _ _ _ Ht) as Hgt.
  split; [exact Hgt|]. intros i path g f lg Hpath Hg Hlg.
  assert (Hshapes : length (shapes_of paths a) = length paths).
  { unfold shapes_of. rewrite length_map. apply tf_bounds_length. }
  apply label_ground_truth_ok in Hgt as [_ Hok];
    [ | exact Hclip
      | unfold initial_labels; rewrite length_map; lia
      | unfold initial_labels; rewrite length_map; reflexivity ].
  destruct (lookup_lt_is_Some_2 (shapes_of paths a) i) as [[E frames] Hs].
  { rewrite Hshapes. eapply lookup_lt_Some, Hpath. }
  assert (HE : E = length electrode_names).
  { unfold shapes_of in Hs. rewrite list_lookup_fmap in Hs.
    destruct (tf_bounds paths (tf a) !! i); [|discriminate].
    simpl in Hs. congruence. }
  subst E.
  assert (Hd : initial_labels (shapes_of paths a) !! i
               = Some (replicate frames (Behav_value Behav_NONE))).
  { unfold initial_labels. rewrite list_lookup_fmap, Hs. reflexivity. }
  rewrite (Hok _ _ _ _ Hpath Hs Hd) in Hg. injection Hg as <-.
  unfold gt_labelled in Hlg. rewrite list_lookup_imap in Hlg.
  destruct (replicate frames (Behav_value Behav_NONE) !! f) as [x|] eqn:Hx;
    [|discriminate].
  apply lookup_replicate in Hx as [-> _]. simpl in Hlg. injection Hlg as <-.
  reflexivity.
Qed.

(** The boundary mask of an experiment selects its first and its last
    [bound_len] frames, and all of its frames when [bound_len] is 0. *)
Theorem boundary_mask_by_frame paths a s st :
  init paths a empty_store = Returned s st ->
  0 <= bound_len a ->
  forall i mask f m,
    Boundary_mask (preprocess_dict s) !! i = Some mask -> mask !! f = Some m ->
    m = (bound_len a =? 0) || (Z.of_nat f <? bound_len a)
        || (Z.of_nat (length mask) - bound_len a <=? Z.of_nat f).
Proof.
  intros Hrun Hb i mask f m Hmask Hm. apply init_returned in Hrun as [t Ht].
  rewrite (ex_dict _ _ _ _ _ Ht) in Hmask. cbn in Hmask.
  pose proof (ex_boundary _ _ _ _ _ Ht) as Hbound.
  rewrite label_boundary_eq in Hbound.
  apply mask_loop_ok in Hbound as (Hlen & _ & Hdone & _).
  destruct (lookup_lt_is_Some_2 paths i) as [p Hp].
  { rewrite <- Hlen. eapply lookup_lt_Some, Hmask. }
  destruct (Hdone _ _ Hp) as (mask' & d & Hmk & _ & _ & Hmi & _).
  rewrite Hmask in Hmi. injection Hmi as <-.
  unfold boundary_mask_at in Hmk. apply rbind_ok in Hmk as (amp & _ & [= Hmk]).
  assert (Hn : length mask = length amp).
  { rewrite <- Hmk. unfold boundary, fill_slice.
    rewrite length_map, !length_imap, length_replicate. reflexivity. }
  pose proof (lookup_lt_Some _ _ _ Hm) as Hf.
  rewrite <- Hmk, boundary_lookup in Hm by lia.
  injection Hm as <-. rewrite Hn. reflexivity.
Qed.

End SelectedFrames.

(** * The accessor methods on a constructed object *)

Lemma py_getitem_ok {A : Type} (l : list A) (i : Z) :
  - Z.of_nat (length l) <= i < Z.of_nat (length l) ->
  exists x, py_getitem l i = Ok x /\
            l !! Z.to_nat (if i <? 0 then i + Z.of_nat (length l) else i) = Some x.
Proof.
  intros Hi. unfold py_getitem.
  destruct (Z.ltb_spec i (- Z.of_nat (length l))); [lia|].
  destruct (Z.leb_spec (Z.of_nat (length l)) i); [lia|]. cbn [orb].
  destruct (l !! Z.to_nat (if i <? 0 then i + Z.of_nat (length l) else i)) as [x|] eqn:Hx;
    [eauto|].
  apply lookup_ge_None in Hx. destruct (Z.ltb_spec i 0); lia.
Qed.

Lemma py_getitem_out {A : Type} (l : list A) (i : Z) :
  i < - Z.of_nat (length l) \/ Z.of_nat (length l) <= i ->
  py_getitem l i = Raise IndexError.
Proof.
  intros Hi. unfold py_getitem.
  destruct (Z.ltb_spec i (- Z.of_nat (length l))); [reflexivity|].
  destruct (Z.leb_spec (Z.of_nat (length l)) i); [reflexivity|]. lia.
Qed.

Lemma find_experiment_named name paths :
  exists r, find_experiment (Some name) paths = Ok r.
Proof.
  induction paths as [|[i p] paths IH]; cbn; [eauto|].
  destruct (str_in name p); eauto.
Qed.

Section Accessors.
Context `{Externals}.

Lemma explains_frames paths a s st t :
  explains paths a s st t ->
  length (data_behav_concat s) = shape1 (data_concat s) /\
  length (data_mask s) = shape1 (data_concat s).
Proof.
  intros Hex. pose proof (ex_masked _ _ _ _ _ Hex) as Hm.
  apply mask_columns_ok in Hm as [Hlen _].
  split; [|exact Hlen].
  rewrite <- Hlen, (ex_mask _ _ _ _ _ Hex), inclusion_mask_map, length_map.
  reflexivity.
Qed.

Lemma explains_bands paths a s st t :
  explains paths a s st t ->
  Forall (fun w => shape0 w = shape0 (data_concat s)) (tr_norm t).
Proof.
  intros Hex. pose proof (ex_concat _ _ _ _ _ Hex) as Hcat.
  apply concatenate_axis1_ok in Hcat as (x & xs' & Hxs & Hsame & Hc).
  rewrite Hc. unfold shape0 at 2. cbn [rows].
  rewrite hstack_length by exact Hsame. exact Hsame.
Qed.

(** [_len_] of a constructed object is the number of rows of the
    concatenated matrix, which is the number of frequency bands that every
    array of the spectral list has and that the feature matrix keeps; the
    frames are counted by the other axis, which has the length of the label
    vector. *)
Theorem len_is_the_number_of_bands paths a s st :
  init paths a empty_store = Returned s st ->
  let d := preprocess_dict s in
  _len_ s = Z.of_nat (shape0 (Exp_matrix d)) /\
  (exists refs spect,
     holds st (Spect_list d) refs spect /\
     Forall (fun w => Z.of_nat (shape0 w) = _len_ s) spect) /\
  shape1 (data_concat s) = length (data_behav_concat s).
Proof.
  intros Hrun. apply init_returned in Hrun as [t Hex]. cbn zeta.
  rewrite (ex_dict _ _ _ _ _ Hex). cbn [Exp_matrix Spect_list].
  split; [|split].
  - rewrite (ex_data _ _ _ _ _ Hex). pose proof (ex_masked _ _ _ _ _ Hex) as Hm.
    apply mask_columns_ok in Hm as [_ ->].
    unfold _len_, shape0, scrub. cbn [rows]. rewrite !length_map. reflexivity.
  - exists (tr_wrefs t), (tr_norm t). split; [exact (ex_holds_wav _ _ _ _ _ Hex)|].
    eapply Forall_impl; [exact (explains_bands _ _ _ _ _ Hex)|].
    intros w Hw. unfold _len_. cbn beta in Hw. rewrite Hw. reflexivity.
  - symmetry. apply (explains_frames _ _ _ _ _ Hex).
Qed.

(** [_get_item_] of a constructed object pairs row [idx] of the
    concatenated matrix, one frequency band over all the frames of all the
    experiments, with the label of frame [idx]; it returns exactly for the
    indices that are in range both as a band and as a frame, counting from
    the end when negative, and raises [IndexError] for all others. *)
Theorem get_item_pairs_a_band_with_a_frame_label paths a s st (i : Z) :
  init paths a empty_store = Returned s st ->
  let bands := _len_ s in
  let frames := Z.of_nat (length (data_behav_concat s)) in
  (- Z.min bands frames <= i < Z.min bands frames ->
   exists row label,
     _get_item_ s i = Ok {| data := row; behav := label; idx := i; fly_id := 0 |} /\
     rows (data_concat s) !! Z.to_nat (if i <? 0 then i + bands else i) = Some row /\
     Z.of_nat (length row) = frames /\
     data_behav_concat s !! Z.to_nat (if i <? 0 then i + frames else i) = Some label) /\
  (i < - Z.min bands frames \/ Z.min bands frames <= i ->
   _get_item_ s i = Raise IndexError).
Proof.
  intros Hrun. apply init_returned in Hrun as [t Hex]. cbn zeta.
  pose proof (explains_data_concat_wf _ _ _ _ _ Hex) as Hwf.
  pose proof (explains_frames _ _ _ _ _ Hex) as [Hframes _].
  unfold _len_, shape0, _get_item_. split.
  - intros Hi.
    destruct (py_getitem_ok (rows (data_concat s)) i ltac:(lia)) as (row & Hrow & Hr).
    destruct (py_getitem_ok (data_behav_concat s) i ltac:(lia)) as (label & Hlabel & Hl).
    exists row, label. rewrite Hrow, Hlabel. cbn [rbind].
    split; [reflexivity|]. split; [exact Hr|]. split; [|exact Hl].
    unfold nd_wf in Hwf. rewrite Forall_forall in Hwf.
    rewrite (Hwf row (list_elem_of_lookup_2 _ _ _ Hr)), Hframes. reflexivity.
  - intros Hi.
    destruct (Z_lt_le_dec i (- Z.of_nat (length (rows (data_concat s))))) as [Hlo|Hlo];
      [rewrite py_getitem_out by lia; reflexivity|].
    destruct (Z_lt_le_dec i (Z.of_nat (length (rows (data_concat s))))) as [Hhi|Hhi];
      [|rewrite py_getitem_out by lia; reflexivity].
    destruct (py_getitem_ok (rows (data_concat s)) i ltac:(lia)) as (row & Hrow & _).
    rewrite Hrow. cbn [rbind]. rewrite py_getitem_out by lia. reflexivity.
Qed.

(** [_get_data_] never returns on a constructed object: it reads the
    attribute [pts3d_exp_list], which the constructor does not set, and
    before that fails on [None in path] when it is given neither a name nor
    an index. *)
Theorem get_data_never_returns paths a s st exp_name exp_idx start_frame end_frame :
  init paths a empty_store = Returned s st ->
  _get_data_ s exp_name exp_idx start_frame end_frame
  = Raise (match exp_name, exp_idx with
           | None, None => TypeError
           | _, _ => AttributeError
           end).
Proof.
  intros Hrun. apply init_returned in Hrun as [t Hex].
  unfold _get_data_. destruct exp_idx as [i|]; [destruct exp_name; reflexivity|].
  destruct exp_name as [name|].
  - destruct (find_experiment_named name (enumerate (exp_path_list s))) as [r ->].
    reflexivity.
  - rewrite (ex_path_list _ _ _ _ _ Hex).
    pose proof (ex_paths _ _ _ _ _ Hex) as Hne.
    destruct paths as [|p paths]; [contradiction|]. reflexivity.
Qed.

(** With no experiment the constructor raises [AttributeError]: no
    iteration of the time-frequency loop assigns [self.freq_channels], which
    line 111 prints; the three lists are left empty and no array exists. *)
Theorem empty_path_list_raises a :
  init [] a empty_store = Raised AttributeError (Store [[]; []; []] []).
Proof.
  unfold init, bind. cbn.
  destruct (smooth a), (mean_center a); reflexivity.
Qed.

End Accessors.

(** * The retained frames *)

Section RetainedFrames.
Context `{Externals}.

Lemma shapes_of_length paths a : length (shapes_of paths a) = length paths.
Proof. unfold shapes_of. rewrite length_map. apply tf_bounds_length. Qed.

Lemma shapes_of_lookup paths a i sh :
  shapes_of paths a !! i = Some sh -> sh = (length electrode_names, snd sh).
Proof.
  unfold shapes_of. rewrite list_lookup_fmap.
  destruct (tf_bounds paths (tf a) !! i); [|discriminate].
  intros [= <-]. reflexivity.
Qed.

Lemma normalized_shape1 w : shape1 (normalized w) = shape1 w.
Proof. reflexivity. Qed.

Lemma log_reduce_length f w : length (log_reduce f w) = shape1 w.
Proof. unfold log_reduce, columns. rewrite !length_map, length_seq. reflexivity. Qed.

Lemma explains_lengths paths a s st t :
  explains paths a s st t ->
  length (tr_smooth t) = length paths /\ length (tr_wav t) = length paths /\
  length (tr_norm t) = length paths /\ length (frame_amp_list s) = length paths.
Proof.
  intros Hex.
  assert (Heeg : length (tr_eeg t) = length paths).
  { rewrite <- (shapes_of_length paths a), <- (ex_shapes _ _ _ _ _ Hex), length_map.
    reflexivity. }
  assert (Hsm : length (tr_smooth t) = length paths).
  { pose proof (ex_eeg _ _ _ _ _ Hex) as He.
    destruct (ex_smooth _ _ _ _ _ Hex) as (sms & Hsms & Hts).
    destruct (smooth a); [|congruence].
    destruct Hsms as [Hsh _]. apply Forall2_length in Hsh.
    rewrite Hts. destruct (mean_center a); rewrite ?length_map; congruence. }
  assert (Hwav : length (tr_wav t) = length paths).
  { rewrite (ex_wav _ _ _ _ _ Hex), length_map. exact Hsm. }
  split; [exact Hsm|]. split; [exact Hwav|]. split.
  - rewrite (ex_norm _ _ _ _ _ Hex). destruct (normalize a); rewrite ?length_map; exact Hwav.
  - rewrite (ex_amp _ _ _ _ _ Hex), length_map. exact Hwav.
Qed.

(** In a constructed object the spectral array, the amplitude vector and
    the label vector of an experiment have the frames of its raw matrix. *)
Lemma explains_frame_counts paths a s st t :
  explains paths a s st t ->
  map shape1 (tr_norm t) = map snd (shapes_of paths a) /\
  map length (frame_amp_list s) = map snd (shapes_of paths a) /\
  map length (tr_final t) = map snd (shapes_of paths a).
Proof.
  intros Hex.
  destruct (explains_lengths _ _ _ _ _ Hex) as (_ & Hlwav & Hlnorm & Hlamp).
  destruct (explains_override_order _ _ _ _ _ Hex) as [Hlfin Hframes].
  destruct (explains_rest_masks _ _ _ _ _ Hex) as [_ Hmasks].
  pose proof (shapes_of_length paths a) as Hlsh.
  assert (Hamp : forall i sh amp, shapes_of paths a !! i = Some sh ->
                   frame_amp_list s !! i = Some amp -> length amp = snd sh).
  { intros i sh amp Hsh Hamp.
    destruct (lookup_lt_is_Some_2 paths i) as [p Hp];
      [rewrite <- Hlsh; eapply lookup_lt_Some, Hsh|].
    destruct (Hmasks _ _ Hp) as (amp' & thr & Hamp' & _ & Hrest).
    rewrite Hamp in Hamp'. injection Hamp' as <-.
    destruct (Hframes _ _ Hp)
      as (g & rest & bound & d' & frames' & Hsh' & _ & _ & Hrest' & Hlrest & _).
    rewrite Hsh in Hsh'. injection Hsh' as ->.
    rewrite Hrest in Hrest'. injection Hrest' as <-.
    unfold below in Hlrest. rewrite length_map in Hlrest. exact Hlrest. }
  split; [|split]; apply list_eq; intros i; rewrite !list_lookup_fmap.
  - destruct (shapes_of paths a !! i) as [sh|] eqn:Hsh.
    + destruct (lookup_lt_is_Some_2 (frame_amp_list s) i) as [amp Hi];
        [rewrite Hlamp, <- Hlsh; eapply lookup_lt_Some, Hsh|].
      pose proof (Hamp _ _ _ Hsh Hi) as Hlen.
      rewrite (ex_amp _ _ _ _ _ Hex), list_lookup_fmap in Hi.
      destruct (tr_wav t !! i) as [w|] eqn:Hw; [|discriminate].
      injection Hi as <-. rewrite log_reduce_length in Hlen.
      rewrite (ex_norm _ _ _ _ _ Hex).
      destruct (normalize a); rewrite ?list_lookup_fmap, Hw; cbn; congruence.
    + apply lookup_ge_None in Hsh.
      rewrite (proj2 (lookup_ge_None _ _)) by lia. reflexivity.
  - destruct (shapes_of paths a !! i) as [sh|] eqn:Hsh.
    + destruct (lookup_lt_is_Some_2 (frame_amp_list s) i) as [amp Hi];
        [rewrite Hlamp, <- Hlsh; eapply lookup_lt_Some, Hsh|].
      rewrite Hi. cbn. f_equal. eapply Hamp; eassumption.
    + apply lookup_ge_None in Hsh.
      rewrite (proj2 (lookup_ge_None _ _)) by lia. reflexivity.
  - destruct (shapes_of paths a !! i) as [sh|] eqn:Hsh.
    + destruct (lookup_lt_is_Some_2 paths i) as [p Hp];
        [rewrite <- Hlsh; eapply lookup_lt_Some, Hsh|].
      destruct (Hframes _ _ Hp)
        as (g & rest & bound & d' & frames' & Hsh' & _ & _ & _ & _ & _ & _ & Hd & Hld & _).
      rewrite Hsh in Hsh'. injection Hsh' as ->.
      rewrite Hd. cbn. congruence.
    + apply lookup_ge_None in Hsh.
      rewrite (proj2 (lookup_ge_None _ _)) by lia. reflexivity.
Qed.

(** The [k]-th retained frame: its position before masking, and the
    experiment and the frame at that position. *)
Lemma explains_retained paths a s st t k e f :
  explains paths a s st t ->
  experminet_index s !! k = Some e -> frame_index s !! k = Some f ->
  exists p i sh j,
    positions (data_mask s) !! k = Some p /\
    shapes_of paths a !! i = Some sh /\ (j < snd sh)%nat /\
    p = (offset (map snd (shapes_of paths a)) i + j)%nat /\
    e = Z.of_nat i /\ f = Z.of_nat j.
Proof.
  intros Hex He Hf.
  destruct (get_masked_ok _ _ _ (ex_frame_index _ _ _ _ _ Hex)) as [Hf1 Hf2].
  destruct (get_masked_ok _ _ _ (ex_experiment_index _ _ _ _ _ Hex)) as [He1 He2].
  rewrite He2, (select_lookup _ _ _ He1) in He.
  rewrite Hf2, (select_lookup _ _ _ Hf1) in Hf.
  destruct (positions (data_mask s) !! k) as [p|] eqn:Hp; [|discriminate].
  cbn in He, Hf.
  rewrite (ex_exp_idx _ _ _ _ _ Hex) in He.
  rewrite (ex_frame_idx _ _ _ _ _ Hex) in Hf.
  destruct (idx_decode (shapes_of paths a) p) as (i & sh & j & Hsh & Hj & Hpos & Hi & Hjf).
  { eapply lookup_lt_Some, He. }
  exists p, i, sh, j. rewrite Hi in He. rewrite Hjf in Hf.
  injection He as <-. injection Hf as <-. auto 10.
Qed.

(** Column [k] of the feature matrix is the spectrum of one frame: the
    retained experiment id and frame offset at [k] name an experiment and
    one of its frames, and the column is that frame's column of the
    experiment's array in the spectral list, NaN and Inf replaced by 0; the
    retained amplitude at [k] is that frame's amplitude. *)
Theorem retained_column_is_a_frame_spectrum paths a s st :
  init paths a empty_store = Returned s st ->
  let d := preprocess_dict s in
  exists refs spect,
    holds st (Spect_list d) refs spect /\
    forall k e f,
      Experiment_idx d !! k = Some e -> Frame_idx d !! k = Some f ->
      exists path w amp,
        0 <= e /\ 0 <= f /\
        paths !! Z.to_nat e = Some path /\
        spect !! Z.to_nat e = Some w /\ (Z.to_nat f < shape1 w)%nat /\
        column (Exp_matrix d) k = map scrub_entry (column w (Z.to_nat f)) /\
        frame_amp_list s !! Z.to_nat e = Some amp /\
        Frame_amps d !! k = amp !! Z.to_nat f.
Proof.
  intros Hrun. apply init_returned in Hrun as [t Hex]. cbn zeta.
  rewrite (ex_dict _ _ _ _ _ Hex).
  cbn [Exp_matrix Spect_list Experiment_idx Frame_idx Frame_amps].
  exists (tr_wrefs t), (tr_norm t). split; [exact (ex_holds_wav _ _ _ _ _ Hex)|].
  intros k e f He Hf.
  destruct (explains_retained _ _ _ _ _ _ _ _ Hex He Hf)
    as (p & i & sh & j & Hp & Hsh & Hj & Hpos & -> & ->).
  destruct (explains_lengths _ _ _ _ _ Hex) as (_ & _ & Hlnorm & Hlamp).
  destruct (explains_frame_counts _ _ _ _ _ Hex) as (Hn & Ha & _).
  pose proof (shapes_of_length paths a) as Hlsh.
  pose proof (lookup_lt_Some _ _ _ Hsh) as Hi.
  destruct (lookup_lt_is_Some_2 paths i) as [path Hpath]; [lia|].
  destruct (lookup_lt_is_Some_2 (tr_norm t) i) as [w Hw]; [lia|].
  destruct (lookup_lt_is_Some_2 (frame_amp_list s) i) as [amp Hamp]; [lia|].
  assert (Hw1 : shape1 w = snd sh).
  { apply (f_equal (fun l => l !! i)) in Hn.
    rewrite !list_lookup_fmap, Hw, Hsh in Hn. cbn in Hn. congruence. }
  assert (Hamp1 : length amp = snd sh).
  { apply (f_equal (fun l => l !! i)) in Ha.
    rewrite !list_lookup_fmap, Hamp, Hsh in Ha. cbn in Ha. congruence. }
  exists path, w, amp. rewrite !Nat2Z.id.
  do 2 (split; [lia|]). do 2 (split; [assumption|]). split; [lia|].
  split; [|split; [assumption|]].
  - pose proof (explains_data_concat_wf _ _ _ _ _ Hex) as Hwf.
    pose proof (mask_columns_wf _ _ _ Hwf (ex_masked _ _ _ _ _ Hex)) as Hwf'.
    destruct (mask_columns_ok _ _ _ (ex_masked _ _ _ _ _ Hex)) as [Hm1 Hm2].
    destruct (get_masked_ok _ _ _ (ex_experiment_index _ _ _ _ _ Hex)) as [He1 He2].
    rewrite (ex_data _ _ _ _ _ Hex), scrub_column; [| |exact Hwf'].
    + f_equal.
      rewrite (mask_columns_column _ _ _ _ _ Hwf (ex_masked _ _ _ _ _ Hex) Hp).
      rewrite Hpos, <- Hn.
      apply (hstack_column (tr_norm t) (data_concat s) i j w);
        [ eapply explains_norm_wf, Hex | exact (ex_concat _ _ _ _ _ Hex)
        | exact Hw | lia ].
    + rewrite Hm2. cbn [shape1].
      rewrite <- (select_count _ _ He1), <- He2. eapply lookup_lt_Some, He.
  - destruct (get_masked_ok _ _ _ (ex_amplitudes _ _ _ _ _ Hex)) as [Ha1 Ha2].
    rewrite Ha2, (select_lookup _ _ _ Ha1), Hp. cbn.
    rewrite Hpos, <- Ha. apply concat_lookup_offset; [exact Hamp | lia].
Qed.

(** The retained frames keep the order of the experiments and, within an
    experiment, of the frames: the pairs of experiment id and frame offset
    increase strictly along the retained arrays, so no frame occurs
    twice. *)
Theorem retained_frames_keep_their_order paths a s st :
  init paths a empty_store = Returned s st ->
  let d := preprocess_dict s in
  forall k k' e f e' f',
    (k < k')%nat ->
    Experiment_idx d !! k = Some e -> Frame_idx d !! k = Some f ->
    Experiment_idx d !! k' = Some e' -> Frame_idx d !! k' = Some f' ->
    e < e' \/ (e = e' /\ f < f').
Proof.
  intros Hrun. apply init_returned in Hrun as [t Hex]. cbn zeta.
  rewrite (ex_dict _ _ _ _ _ Hex). cbn [Experiment_idx Frame_idx].
  intros k k' e f e' f' Hk He Hf He' Hf'.
  destruct (explains_retained _ _ _ _ _ _ _ _ Hex He Hf)
    as (p & i & sh & j & Hp & Hsh & Hj & Hpos & -> & ->).
  destruct (explains_retained _ _ _ _ _ _ _ _ Hex He' Hf')
    as (p' & i' & sh' & j' & Hp' & Hsh' & Hj' & Hpos' & -> & ->).
  pose proof (positions_increasing _ _ _ _ _ Hk Hp Hp') as Hlt.
  destruct (offset_unique (map snd (shapes_of paths a)) i i' (snd sh) (snd sh') j j')
    as [Hii|[Hii Hjj]];
    try (rewrite list_lookup_fmap; first [rewrite Hsh | rewrite Hsh']; reflexivity);
    try lia.
Qed.

End RetainedFrames.

(** * The stages of the constructor, one by one *)

Lemma sum_list_to_nat (ti : Z) (tfs : list Z) :
  Forall (fun t => ti < t) tfs ->
  Z.of_nat (sum_list (map (fun t => Z.to_nat (t - ti)) tfs))
  = fold_right Z.add 0 (map (fun t => t - ti) tfs).
Proof.
  induction 1 as [|t tfs Ht _ IH]; [reflexivity|].
  cbn. rewrite Nat2Z.inj_add, IH. lia.
Qed.

Lemma select_length_le {A : Type} (mask : list bool) (d : list A) :
  (length (select mask d) <= length mask)%nat.
Proof.
  revert d. induction mask as [|m mask IH]; intros [|x d]; cbn; try lia.
  specialize (IH d). destruct m; cbn; lia.
Qed.

Lemma select_all_false {A : Type} (mask : list bool) (d : list A) :
  Forall (fun m => m = false) mask -> select mask d = [].
Proof.
  intros Hm. revert d. induction Hm as [|m mask -> _ IH]; intros [|x d]; cbn; auto.
Qed.

Lemma take_drop_lookup {A : Type} (l : list A) (a m f : nat) :
  (f < m)%nat -> take m (drop a l) !! f = l !! (a + f)%nat.
Proof. intros Hf. rewrite lookup_take_lt by exact Hf. apply lookup_drop. Qed.

Section Stages.
Context `{Externals}.

(** ** The number of frames *)

Lemma shapes_of_frames paths a :
  Forall (fun t => ti a < t) (tf_bounds paths (tf a)) ->
  Z.of_nat (sum_list (map snd (shapes_of paths a))) = frames_read paths a.
Proof.
  intros Hb. unfold shapes_of, frames_read. rewrite map_map. cbn [snd].
  apply sum_list_to_nat, Hb.
Qed.

(** The concatenated matrix has one column per frame read, [tf - ti] for
    each experiment; the feature matrix has at most as many, and without
    [dump_rest] and [no_bounds] it has them all: the retained arrays are the
    unmasked ones and the feature matrix is the concatenated matrix with
    NaN and Inf replaced by 0. *)
Theorem without_masks_every_frame_is_kept paths a s st :
  init paths a empty_store = Returned s st ->
  let d := preprocess_dict s in
  Z.of_nat (shape1 (data_concat s)) = frames_read paths a /\
  Z.of_nat (shape1 (Exp_matrix d)) <= frames_read paths a /\
  (dump_rest a = false -> no_bounds a = false ->
   Exp_matrix d = scrub (data_concat s) /\
   Frame_idx d = frame_idx s /\ Experiment_idx d = exp_idx s /\
   Frame_amps d = concat (frame_amp_list s) /\
   Z.of_nat (shape1 (Exp_matrix d)) = frames_read paths a).
Proof.
  intros Hrun. apply init_returned in Hrun as [t Hex]. cbn zeta.
  rewrite (ex_dict _ _ _ _ _ Hex).
  cbn [Exp_matrix Experiment_idx Frame_idx Frame_amps].
  pose proof (explains_data_concat_wf _ _ _ _ _ Hex) as Hwf.
  destruct (mask_columns_ok _ _ _ (ex_masked _ _ _ _ _ Hex)) as [Hm1 Hm2].
  destruct (get_masked_ok _ _ _ (ex_frame_index _ _ _ _ _ Hex)) as [Hf1 Hf2].
  destruct (get_masked_ok _ _ _ (ex_experiment_index _ _ _ _ _ Hex)) as [He1 He2].
  destruct (get_masked_ok _ _ _ (ex_amplitudes _ _ _ _ _ Hex)) as [Ha1 Ha2].
  assert (Htotal : Z.of_nat (shape1 (data_concat s)) = frames_read paths a).
  { destruct (ex_assert _ _ _ _ _ Hex) as [_ <-].
    rewrite (ex_exp_idx _ _ _ _ _ Hex), concat_length_sum, exp_idx_parts_lengths.
    apply shapes_of_frames, (ex_bounds _ _ _ _ _ Hex). }
  assert (Hcount : shape1 (preprocess_data s)
                   = length (select (data_mask s) (data_mask s))).
  { rewrite (ex_data _ _ _ _ _ Hex), Hm2. reflexivity. }
  split; [exact Htotal|]. split.
  - rewrite Hcount, <- Htotal, <- Hm1.
    apply inj_le, select_length_le.
  - intros Hdr Hnb.
    pose proof (inclusion_mask_all_true a (data_behav_concat s) Hdr Hnb) as Hall.
    rewrite <- (ex_mask _ _ _ _ _ Hex) in Hall.
    pose proof (mask_columns_all_true _ _ _ Hwf Hall (ex_masked _ _ _ _ _ Hex)) as Hmasked.
    rewrite Hf2, He2, Ha2, !select_all_true by (first [assumption | lia]).
    rewrite Hcount, select_all_true by (first [assumption | lia]).
    rewrite (ex_data _ _ _ _ _ Hex), Hmasked.
    repeat split; try reflexivity. rewrite Hm1. exact Htotal.
Qed.

(** ** The running bound *)

Lemma tf_bounds_below paths t0 i t :
  tf_bounds paths (Some t0) !! i = Some t -> t <= t0.
Proof.
  revert t0 i. induction paths as [|exp paths IH]; intros t0 [|i] Ht; cbn in Ht;
    try discriminate.
  - injection Ht as <-. lia.
  - apply IH in Ht. lia.
Qed.

Lemma tf_bounds_le_recording paths tf i path t :
  paths !! i = Some path -> tf_bounds paths tf !! i = Some t ->
  t <= recording_length path.
Proof.
  revert tf i. induction paths as [|exp paths IH]; intros tf [|i] Hp Ht; cbn in Hp, Ht;
    try discriminate.
  - injection Hp as ->. injection Ht as <-. unfold recording_length.
    destruct tf; cbn; lia.
  - eapply IH; eassumption.
Qed.

Lemma tf_bounds_decreasing paths tf i j t t' :
  (i <= j)%nat ->
  tf_bounds paths tf !! i = Some t -> tf_bounds paths tf !! j = Some t' -> t' <= t.
Proof.
  revert tf i j. induction paths as [|exp paths IH]; intros tf [|i] [|j] Hij Ht Ht';
    cbn in Ht, Ht'; try discriminate; try lia.
  - injection Ht as <-. injection Ht' as <-. lia.
  - injection Ht as <-. apply tf_bounds_below in Ht'. exact Ht'.
  - eapply (IH _ i j); [lia | eassumption | eassumption].
Qed.

(** No experiment has more frames than an experiment before it: the bound
    found at one experiment stays in force for those that follow, so a
    longer recording that comes later is cut to the shortest one met
    before it; and no experiment has more frames than its recording has
    rows after [ti], or than the given [tf] allows. *)
Theorem later_experiments_are_never_longer paths a s st :
  init paths a empty_store = Returned s st ->
  exists refs eegs,
    holds st (EEG_list (preprocess_dict s)) refs eegs /\
    (forall i path x, paths !! i = Some path -> eegs !! i = Some x ->
       Z.of_nat (shape1 x) <= recording_length path - ti a /\
       match tf a with
       | Some t => Z.of_nat (shape1 x) <= t - ti a
       | None => True
       end) /\
    (forall i j x y, (i <= j)%nat -> eegs !! i = Some x -> eegs !! j = Some y ->
       (shape1 y <= shape1 x)%nat).
Proof.
  intros Hrun. apply init_returned in Hrun as [t Hex].
  rewrite (ex_dict _ _ _ _ _ Hex). cbn [EEG_list].
  exists (tr_erefs t), (tr_eeg t). split; [exact (ex_holds_eeg _ _ _ _ _ Hex)|].
  pose proof (ex_shapes _ _ _ _ _ Hex) as Hsh.
  pose proof (ex_bounds _ _ _ _ _ Hex) as Hb.
  assert (Hframes : forall i x, tr_eeg t !! i = Some x ->
            exists b, tf_bounds paths (tf a) !! i = Some b /\ ti a < b /\
                      shape1 x = Z.to_nat (b - ti a)).
  { intros i x Hx. apply (f_equal (fun l => l !! i)) in Hsh.
    unfold shapes_of in Hsh. rewrite !list_lookup_fmap, Hx in Hsh.
    destruct (tf_bounds paths (tf a) !! i) as [b|] eqn:Hbi; [|discriminate].
    exists b. split; [reflexivity|]. split.
    - eapply Forall_lookup_1 in Hb; [|exact Hbi]. exact Hb.
    - cbn in Hsh. injection Hsh as _ Hs. exact Hs. }
  split.
  - intros i path x Hp Hx. destruct (Hframes _ _ Hx) as (b & Hbi & Hlt & ->).
    pose proof (tf_bounds_le_recording _ _ _ _ _ Hp Hbi) as Hrec.
    split; [lia|]. destruct (tf a) as [t0|]; [|exact I].
    apply tf_bounds_below in Hbi. lia.
  - intros i j x y Hij Hx Hy.
    destruct (Hframes _ _ Hx) as (b & Hbi & Hlt & ->).
    destruct (Hframes _ _ Hy) as (b' & Hbj & Hlt' & ->).
    pose proof (tf_bounds_decreasing _ _ _ _ _ _ Hij Hbi Hbj). lia.
Qed.

(** ** Reading the recordings *)

Lemma read_data_missing_column eeg ti exp rest tf name names st refs :
  electrode_names = name :: names ->
  df_num_keys (read_csv exp) <> 0 ->
  ti < resolve_tf tf (recording_length exp) ->
  df_getitem (read_csv exp) name = Raise KeyError ->
  st_lists st !! eeg = Some refs ->
  exists st', read_data eeg ti (exp :: rest) tf st = Raised KeyError st'.
Proof.
  intros Hnames Hkeys Hlt Hcol Hl. cbn [read_data].
  rewrite bind_eq. unfold experiment_length.
  destruct (Z.eqb_spec (df_num_keys (read_csv exp)) 0) as [|_]; [contradiction|].
  unfold lift at 1. cbv beta iota. fold (recording_length exp).
  rewrite bind_eq. unfold assert.
  destruct (Z.ltb_spec ti (resolve_tf tf (recording_length exp))) as [_|]; [|lia].
  unfold lift at 1. cbv beta iota.
  rewrite bind_eq. unfold np_alloc at 1. cbv beta iota.
  rewrite bind_eq. unfold list_append at 1. rewrite bind_eq.
  unfold list_read at 1. cbn [st_lists]. rewrite Hl. unfold list_write at 1.
  cbv beta iota.
  rewrite Hnames. cbn [length seq for_each].
  rewrite bind_eq. unfold load_electrode at 1. rewrite bind_eq.
  rewrite Hnames. unfold getitem. cbn [lookup list_lookup].
  unfold lift at 1. cbv beta iota.
  rewrite bind_eq, Hcol. unfold lift at 1. cbv beta iota.
  eexists. reflexivity.
Qed.

Lemma loaded_row_ok exp_dict ti t name :
  (0 < length (loaded_row exp_dict ti t name))%nat ->
  exists series,
    df_getitem exp_dict name = Ok series /\
    broadcast_to (Z.to_nat (t - ti)) (py_slice series ti t)
    = Ok (loaded_row exp_dict ti t name).
Proof.
  unfold loaded_row.
  destruct (df_getitem exp_dict name) as [series|]; [|cbn; intros; lia].
  destruct (broadcast_to _ _) as [v|] eqn:Hb; [|cbn; intros; lia].
  intros _. exists series. split; [reflexivity | exact Hb].
Qed.

(** The rows of the raw matrix of an experiment, in a construction that
    returns: every electrode has a column in the recording, and its slice
    fills the row. *)
Lemma explains_columns paths a s st t k exp b i name :
  explains paths a s st t ->
  paths !! k = Some exp -> tf_bounds paths (tf a) !! k = Some b ->
  electrode_names !! i = Some name ->
  ti a < b /\
  tr_raw t !! k = Some (loaded (ti a) exp b) /\
  exists series,
    df_getitem (read_csv exp) name = Ok series /\
    broadcast_to (Z.to_nat (b - ti a)) (py_slice series (ti a) b)
    = Ok (loaded_row (read_csv exp) (ti a) b name) /\
    rows (loaded (ti a) exp b) !! i = Some (loaded_row (read_csv exp) (ti a) b name).
Proof.
  intros Hex Hp Hb Hname.
  pose proof (Forall_lookup_1 _ _ _ _ (ex_bounds _ _ _ _ _ Hex) Hb) as Hlt.
  cbn beta in Hlt.
  assert (Hraw : tr_raw t !! k = Some (loaded (ti a) exp b)).
  { rewrite (ex_raw _ _ _ _ _ Hex), lookup_zip_with, Hp, Hb. reflexivity. }
  assert (Hrow : rows (loaded (ti a) exp b) !! i
                 = Some (loaded_row (read_csv exp) (ti a) b name)).
  { unfold loaded. cbn [rows]. rewrite list_lookup_fmap, Hname. reflexivity. }
  pose proof (Forall_lookup_1 _ _ _ _ (ex_raw_wf _ _ _ _ _ Hex) Hraw) as Hwf.
  unfold nd_wf in Hwf. pose proof (Forall_lookup_1 _ _ _ _ Hwf Hrow) as Hlen.
  cbn in Hlen.
  destruct (loaded_row_ok (read_csv exp) (ti a) b name) as (series & Hser & Hbc); [lia|].
  split; [exact Hlt|]. split; [exact Hraw|]. eauto.
Qed.

(** A recording that lacks the column of an electrode stops the
    constructor: with the first electrode missing from the first recording
    it raises [KeyError], and in every constructed object every recording
    has a column for every electrode. *)
Theorem every_electrode_needs_a_column paths a :
  (forall exp rest name names,
     paths = exp :: rest -> electrode_names = name :: names ->
     df_num_keys (read_csv exp) <> 0 ->
     ti a < resolve_tf (tf a) (recording_length exp) ->
     df_getitem (read_csv exp) name = Raise KeyError ->
     exists st, init paths a empty_store = Raised KeyError st) /\
  (forall s st, init paths a empty_store = Returned s st ->
     forall exp name, exp ∈ paths -> name ∈ electrode_names ->
       exists series, df_getitem (read_csv exp) name = Ok series).
Proof.
  split.
  - intros exp rest name names -> Hnames Hkeys Hlt Hcol. unfold init.
    rewrite bind_eq.
    change (new_list empty_store) with (Returned 0%nat (Store [[]] [])).
    cbv beta iota. rewrite bind_eq.
    change (new_list (Store [[]] [])) with (Returned 1%nat (Store [[]; []] [])).
    cbv beta iota. rewrite bind_eq.
    change (new_list (Store [[]; []] [])) with (Returned 2%nat (Store [[]; []; []] [])).
    cbv beta iota. rewrite bind_eq.
    destruct (read_data_missing_column 0%nat (ti a) exp rest (tf a) name names
                (Store [[]; []; []] []) [] Hnames Hkeys Hlt Hcol eq_refl) as [st' ->].
    eauto.
  - intros s st Hrun exp name Hexp Hname. apply init_returned in Hrun as [t Hex].
    apply list_elem_of_lookup in Hexp as [k Hp].
    apply list_elem_of_lookup in Hname as [i Hi].
    destruct (lookup_lt_is_Some_2 (tf_bounds paths (tf a)) k) as [b Hb].
    { rewrite tf_bounds_length. eapply lookup_lt_Some, Hp. }
    destruct (explains_columns _ _ _ _ _ _ _ _ _ _ Hex Hp Hb Hi)
      as (_ & _ & series & Hser & _).
    eauto.
Qed.

Lemma df_regular_size df n :
  Forall (fun c => length (snd c) = n) (df_columns df) ->
  df_size df = df_num_keys df * Z.of_nat n.
Proof.
  unfold df_size, df_num_keys. induction 1 as [|c cols Hc _ IH]; [reflexivity|].
  cbn [foldr length]. rewrite Nat2Z.inj_add, IH, Hc. lia.
Qed.

Lemma df_getitem_elem df name series :
  df_getitem df name = Ok series -> exists c, c ∈ df_columns df /\ snd c = series.
Proof.
  unfold df_getitem.
  destruct (find _ (df_columns df)) as [c|] eqn:Hc; [|discriminate].
  intros [= <-]. apply find_some in Hc as [Hc _].
  exists c. split; [apply list_elem_of_In, Hc | reflexivity].
Qed.

(** In a regular recording every column has the recording's length. *)
Lemma df_regular_length df name series :
  df_regular df -> df_getitem df name = Ok series ->
  Z.of_nat (length series) = df_size df / df_num_keys df.
Proof.
  intros [n Hn] Hser. apply df_getitem_elem in Hser as (c & Hc & <-).
  rewrite (df_regular_size df n Hn).
  assert (Hk : 0 < df_num_keys df).
  { unfold df_num_keys. destruct (df_columns df); [|cbn; lia].
    apply elem_of_nil in Hc. contradiction. }
  rewrite Z.mul_comm, Z.div_mul by lia.
  rewrite Forall_forall in Hn. rewrite (Hn c Hc). reflexivity.
Qed.

Lemma py_slice_window {A : Type} (l : list A) (ti t : Z) :
  0 <= ti -> ti < t -> t <= Z.of_nat (length l) ->
  py_slice l ti t = take (Z.to_nat (t - ti)) (drop (Z.to_nat ti) l).
Proof.
  intros H0 Hlt Hle. unfold py_slice, slice_bound.
  destruct (Z.ltb_spec ti 0); [lia|]. destruct (Z.ltb_spec t 0); [lia|].
  rewrite !Z.min_l by lia. f_equal. lia.
Qed.

(** With [ti >= 0] and recordings whose columns all have one length, row
    [i] of the raw matrix of an experiment holds the samples [ti] to
    [tf - 1] of the column of electrode [i], for the bound [tf] of the
    experiment: frame [f] is row [ti + f] of the recording.  (With
    smoothing the raw list keeps these matrices; without it they are there
    unless they are centred in place.) *)
Theorem raw_rows_are_the_recorded_window paths a s st :
  init paths a empty_store = Returned s st ->
  0 <= ti a ->
  Forall (fun exp => df_regular (read_csv exp)) paths ->
  smooth a = true \/ mean_center a = false ->
  exists refs eegs,
    holds st (EEG_list (preprocess_dict s)) refs eegs /\
    length eegs = length paths /\
    forall k exp b x i name,
      paths !! k = Some exp -> tf_bounds paths (tf a) !! k = Some b ->
      eegs !! k = Some x -> electrode_names !! i = Some name ->
      exists series row,
        df_getitem (read_csv exp) name = Ok series /\
        rows x !! i = Some row /\
        Z.of_nat (length row) = b - ti a /\
        b <= Z.of_nat (length series) /\
        forall f, (f < length row)%nat ->
          row !! f = series !! (Z.to_nat (ti a) + f)%nat.
Proof.
  intros Hrun Hti Hreg Hflags. apply init_returned in Hrun as [t Hex].
  rewrite (ex_dict _ _ _ _ _ Hex). cbn [EEG_list].
  exists (tr_erefs t), (tr_eeg t). split; [exact (ex_holds_eeg _ _ _ _ _ Hex)|].
  assert (Heeg : tr_eeg t = tr_raw t).
  { rewrite (ex_eeg _ _ _ _ _ Hex).
    destruct (ex_smooth _ _ _ _ _ Hex) as (sms & Hsms & Hts).
    destruct (smooth a); [reflexivity|]. destruct Hflags as [|Hmc]; [discriminate|].
    rewrite Hmc in Hts. congruence. }
  split.
  { rewrite <- (shapes_of_length paths a), <- (ex_shapes _ _ _ _ _ Hex), length_map.
    reflexivity. }
  intros k exp b x i name Hp Hb Hx Hname.
  destruct (explains_columns _ _ _ _ _ _ _ _ _ _ Hex Hp Hb Hname)
    as (Hlt & Hraw & series & Hser & Hbc & Hrow).
  rewrite Heeg, Hraw in Hx. injection Hx as <-.
  pose proof (Forall_lookup_1 _ _ _ _ Hreg Hp) as Hregular. cbn beta in Hregular.
  pose proof (df_regular_length _ _ _ Hregular Hser) as Hlen.
  pose proof (tf_bounds_le_recording _ _ _ _ _ Hp Hb) as Hrec.
  unfold recording_length in Hrec.
  rewrite py_slice_window in Hbc by lia.
  assert (Hslice : length (take (Z.to_nat (b - ti a)) (drop (Z.to_nat (ti a)) series))
                   = Z.to_nat (b - ti a)).
  { rewrite length_take, length_drop. lia. }
  unfold broadcast_to in Hbc. rewrite Hslice, Nat.eqb_refl in Hbc.
  injection Hbc as Hbc.
  exists series, (loaded_row (read_csv exp) (ti a) b name).
  split; [exact Hser|]. split; [exact Hrow|]. rewrite <- Hbc, Hslice.
  split; [lia|]. split; [lia|].
  intros f Hf. apply take_drop_lookup. exact Hf.
Qed.

(** ** Smoothing *)

(** With smoothing the smoothed list is a list of its own, of new arrays:
    the raw list keeps the matrices as read from the recordings, also when
    the data are mean-centred, and the arrays of the smoothed list hold,
    row by row, what [savgol_filter(row, 5, 4)] returns for the rows of the
    raw matrices, with the mean of every row subtracted when [mean_center]
    is set; the filter has returned for every row. *)
Theorem smoothed_list_is_a_filtered_copy paths a s st :
  init paths a empty_store = Returned s st ->
  smooth a = true ->
  let d := preprocess_dict s in
  let raw := zip_with (loaded (ti a)) paths (tf_bounds paths (tf a)) in
  Smooth_EEG_list d <> EEG_list d /\
  exists erefs srefs,
    holds st (EEG_list d) erefs raw /\
    holds st (Smooth_EEG_list d) srefs
          (if mean_center a then map center_rows (map smoothed raw)
           else map smoothed raw) /\
    (forall r, r ∈ erefs -> r ∉ srefs) /\
    Forall filtered_ok raw.
Proof.
  intros Hrun Hsmooth. apply init_returned_layout in Hrun as (t & Hex & Hlay).
  cbn zeta. rewrite (ex_dict _ _ _ _ _ Hex). cbn [EEG_list Smooth_EEG_list].
  pose proof (ex_holds_eeg _ _ _ _ _ Hex) as He.
  pose proof (ex_holds_smooth _ _ _ _ _ Hex) as Hs.
  rewrite (ex_eeg _ _ _ _ _ Hex), Hsmooth, (ex_raw _ _ _ _ _ Hex) in He.
  rewrite (lay_smooth _ _ _ Hlay) in Hs. unfold smooth_stage in Hs.
  rewrite Hsmooth, (ex_raw _ _ _ _ _ Hex) in Hs.
  pose proof (lay_erefs _ _ _ Hlay) as Her.
  pose proof (lay_srefs _ _ _ Hlay) as Hsr. rewrite Hsmooth in Hsr.
  assert (Hdisjoint : forall r, r ∈ tr_erefs t -> r ∉ tr_srefs t).
  { intros r. rewrite Her, Hsr, !list_elem_of_In, !in_seq. lia. }
  split.
  - intros Heq. rewrite Heq in Hs. destruct He as [He _], Hs as [Hs _].
    rewrite He in Hs. injection Hs as Hs.
    pose proof (ex_paths _ _ _ _ _ Hex) as Hne.
    destruct paths as [|p paths]; [contradiction|].
    apply (Hdisjoint 0%nat); [rewrite Her | rewrite <- Hs, Her]; cbn; left.
  - exists (tr_erefs t), (tr_srefs t). split; [exact He|]. split; [exact Hs|].
    split; [exact Hdisjoint|].
    rewrite <- (ex_raw _ _ _ _ _ Hex). exact (lay_filtered _ _ _ Hlay Hsmooth).
Qed.

End Stages.

(** * Boundaries and normalization *)

Section Edges.
Context `{Externals}.

Lemma explains_boundary_masks paths a s st t :
  explains paths a s st t ->
  forall i mask, test_boundary_mask s !! i = Some mask ->
    exists amp, frame_amp_list s !! i = Some amp /\
                mask = boundary (bound_len a) (length amp) /\
                length mask = length amp.
Proof.
  intros Hex i mask Hmask.
  pose proof (ex_boundary _ _ _ _ _ Hex) as Hbound.
  rewrite label_boundary_eq in Hbound.
  apply mask_loop_ok in Hbound as (Hlen & _ & Hdone & _).
  destruct (lookup_lt_is_Some_2 paths i) as [p Hp].
  { rewrite <- Hlen. eapply lookup_lt_Some, Hmask. }
  destruct (Hdone _ _ Hp) as (mask' & d & Hmk & _ & _ & Hmi & _).
  rewrite Hmask in Hmi. injection Hmi as <-.
  unfold boundary_mask_at in Hmk. apply rbind_ok in Hmk as (amp & Hamp & [= Hmk]).
  apply getitem_ok in Hamp.
  exists amp. split; [exact Hamp|]. split; [congruence|].
  rewrite <- Hmk. unfold boundary, fill_slice.
  rewrite length_map, !length_imap, length_replicate. reflexivity.
Qed.

(** With [bound_len = 0] the boundary mask selects every frame
    ([boundary_mask[-0:]] is the whole vector), and so it does when no
    experiment has more than [2 * bound_len] frames: every frame of the
    constructed object is then labelled BOUNDARY, and with [no_bounds] the
    feature matrix and the retained arrays are empty. *)
Theorem short_experiments_are_all_boundary paths a s st :
  init paths a empty_store = Returned s st ->
  bound_len a = 0 \/
  (0 <= bound_len a /\
   Forall (fun b => b - ti a <= 2 * bound_len a) (tf_bounds paths (tf a))) ->
  let d := preprocess_dict s in
  Forall (fun l => l = Behav_value Behav_BOUNDARY) (data_behav_concat s) /\
  (no_bounds a = true ->
   shape1 (Exp_matrix d) = 0%nat /\ Frame_idx d = [] /\ Experiment_idx d = [] /\
   Frame_amps d = []).
Proof.
  intros Hrun Hshort. apply init_returned in Hrun as [t Hex]. cbn zeta.
  rewrite (ex_dict _ _ _ _ _ Hex).
  cbn [Exp_matrix Experiment_idx Frame_idx Frame_amps].
  destruct (explains_override_order _ _ _ _ _ Hex) as [Hlfin Hframes].
  assert (Hall : Forall (fun l => l = Behav_value Behav_BOUNDARY) (data_behav_concat s)).
  { rewrite (ex_labels _ _ _ _ _ Hex). apply Forall_concat, Forall_lookup.
    intros i d Hd.
    destruct (lookup_lt_is_Some_2 paths i) as [p Hp];
      [rewrite <- Hlfin; eapply lookup_lt_Some, Hd|].
    destruct (Hframes _ _ Hp)
      as (g & rest & bound & d' & frames & Hsh & _ & Hlg & _ & _ & Hbound & Hlb
          & Hd' & Hld & Hlabel).
    rewrite Hd in Hd'. injection Hd' as <-.
    destruct (explains_boundary_masks _ _ _ _ _ Hex _ _ Hbound) as (amp & _ & Hmask & Hla).
    assert (Hfr : Z.of_nat frames <= 2 * bound_len a \/ bound_len a = 0).
    { destruct Hshort as [|[_ Hsh2]]; [auto|left].
      unfold shapes_of in Hsh. rewrite list_lookup_fmap in Hsh.
      destruct (tf_bounds paths (tf a) !! i) as [b|] eqn:Hb; [|discriminate].
      injection Hsh as <-.
      pose proof (Forall_lookup_1 _ _ _ _ Hsh2 Hb) as Hle. cbn beta in Hle.
      pose proof (Forall_lookup_1 _ _ _ _ (ex_bounds _ _ _ _ _ Hex) Hb) as Hlt.
      cbn beta in Hlt. lia. }
    assert (Hbl : 0 <= bound_len a) by (destruct Hshort as [->|[? _]]; lia).
    apply Forall_lookup. intros f l Hl.
    pose proof (lookup_lt_Some _ _ _ Hl) as Hf.
    destruct (lookup_lt_is_Some_2 g f) as [lg Hlgf]; [lia|].
    destruct (Hlabel _ _ Hlgf) as (_ & r & b & _ & Hb & Hdf).
    rewrite Hl in Hdf. injection Hdf as ->.
    rewrite Hmask, boundary_lookup in Hb by lia. injection Hb as <-.
    assert (Htrue : (bound_len a =? 0) || (Z.of_nat f <? bound_len a)
                    || (Z.of_nat (length amp) - bound_len a <=? Z.of_nat f) = true).
    { destruct (Z.eqb_spec (bound_len a) 0); [reflexivity|].
      destruct (Z.ltb_spec (Z.of_nat f) (bound_len a)); [reflexivity|].
      destruct (Z.leb_spec (Z.of_nat (length amp) - bound_len a) (Z.of_nat f));
        [reflexivity|]. lia. }
    rewrite Htrue. reflexivity. }
  split; [exact Hall|]. intros Hnb.
  assert (Hmask : Forall (fun m => m = false) (data_mask s)).
  { rewrite (ex_mask _ _ _ _ _ Hex), inclusion_mask_map. apply Forall_map.
    eapply Forall_impl; [exact Hall|]. intros l ->. unfold retained.
    rewrite Hnb, Z.eqb_refl. apply andb_false_r. }
  destruct (mask_columns_ok _ _ _ (ex_masked _ _ _ _ _ Hex)) as [_ Hm2].
  destruct (get_masked_ok _ _ _ (ex_frame_index _ _ _ _ _ Hex)) as [_ ->].
  destruct (get_masked_ok _ _ _ (ex_experiment_index _ _ _ _ _ Hex)) as [_ ->].
  destruct (get_masked_ok _ _ _ (ex_amplitudes _ _ _ _ _ Hex)) as [_ ->].
  rewrite (ex_data _ _ _ _ _ Hex), Hm2. cbn [scrub shape1].
  rewrite !select_all_false by exact Hmask. auto.
Qed.

(** Normalization does not reach the labels: two constructions that differ
    in [normalize] only give the same raw and smoothed matrices, frame
    variances and amplitudes, rest and boundary masks, labels, inclusion
    mask and retained experiment ids, frame offsets and amplitudes; the
    amplitudes are taken from the spectral arrays as the transform returned
    them. *)
Theorem normalization_leaves_the_labels_alone paths a b s st s' st' :
  init paths a empty_store = Returned s st ->
  init paths (with_normalize b a) empty_store = Returned s' st' ->
  let d := preprocess_dict s in
  let d' := preprocess_dict s' in
  data_behav_concat s' = data_behav_concat s /\
  frame_var_list s' = frame_var_list s /\
  frame_amp_list s' = frame_amp_list s /\
  Rest_mask d' = Rest_mask d /\ Boundary_mask d' = Boundary_mask d /\
  data_mask s' = data_mask s /\
  Frame_idx d' = Frame_idx d /\ Experiment_idx d' = Experiment_idx d /\
  Frame_amps d' = Frame_amps d /\
  exists erefs srefs eegs smooths,
    holds st (EEG_list d) erefs eegs /\ holds st' (EEG_list d') erefs eegs /\
    holds st (Smooth_EEG_list d) srefs smooths /\
    holds st' (Smooth_EEG_list d') srefs smooths.
Proof.
  intros Hrun Hrun'.
  apply init_returned_layout in Hrun as (t & Hex & Hlay).
  apply init_returned_layout in Hrun' as (t' & Hex' & Hlay').
  cbn zeta. rewrite (ex_dict _ _ _ _ _ Hex), (ex_dict _ _ _ _ _ Hex').
  cbn [Rest_mask Boundary_mask Frame_idx Experiment_idx Frame_amps EEG_list
       Smooth_EEG_list].
  set (a' := with_normalize b a) in *.
  assert (Hraw : tr_raw t' = tr_raw t).
  { rewrite (ex_raw _ _ _ _ _ Hex), (ex_raw _ _ _ _ _ Hex'). reflexivity. }
  assert (Hsm : tr_smooth t' = tr_smooth t).
  { rewrite (lay_smooth _ _ _ Hlay), (lay_smooth _ _ _ Hlay'), Hraw. reflexivity. }
  assert (Heeg : tr_eeg t' = tr_eeg t).
  { rewrite (ex_eeg _ _ _ _ _ Hex), (ex_eeg _ _ _ _ _ Hex'), Hraw, Hsm. reflexivity. }
  assert (Hwav : tr_wav t' = tr_wav t).
  { rewrite (ex_wav _ _ _ _ _ Hex), (ex_wav _ _ _ _ _ Hex'), Hsm. reflexivity. }
  assert (Hvar : frame_var_list s' = frame_var_list s).
  { rewrite (ex_var _ _ _ _ _ Hex), (ex_var _ _ _ _ _ Hex'), Hwav. reflexivity. }
  assert (Hamp : frame_amp_list s' = frame_amp_list s).
  { rewrite (ex_amp _ _ _ _ _ Hex), (ex_amp _ _ _ _ _ Hex'), Hwav. reflexivity. }
  assert (Hgt : tr_gt t' = tr_gt t).
  { pose proof (ex_gt _ _ _ _ _ Hex) as H1. pose proof (ex_gt _ _ _ _ _ Hex') as H2.
    change (label_ground_truth a paths (shapes_of paths a)
              (initial_labels (shapes_of paths a)) = Ok (tr_gt t')) in H2.
    congruence. }
  assert (Hrest : test_rest_mask s' = test_rest_mask s /\ tr_rest t' = tr_rest t).
  { pose proof (ex_rest _ _ _ _ _ Hex) as H1. pose proof (ex_rest _ _ _ _ _ Hex') as H2.
    rewrite Hamp, Hgt, H1 in H2. injection H2 as -> ->. auto. }
  destruct Hrest as [Hrm Hrl].
  assert (Hbound : test_boundary_mask s' = test_boundary_mask s /\ tr_final t' = tr_final t).
  { pose proof (ex_boundary _ _ _ _ _ Hex) as H1.
    pose proof (ex_boundary _ _ _ _ _ Hex') as H2.
    change (label_boundary a paths (frame_amp_list s') (tr_rest t')
            = Ok (test_boundary_mask s', tr_final t')) in H2.
    rewrite Hamp, Hrl, H1 in H2. injection H2 as -> ->. auto. }
  destruct Hbound as [Hbm Hfin].
  assert (Hlabels : data_behav_concat s' = data_behav_concat s).
  { rewrite (ex_labels _ _ _ _ _ Hex), (ex_labels _ _ _ _ _ Hex'), Hfin. reflexivity. }
  assert (Hmask : data_mask s' = data_mask s).
  { rewrite (ex_mask _ _ _ _ _ Hex), (ex_mask _ _ _ _ _ Hex'), Hlabels. reflexivity. }
  assert (Hfi : frame_index s' = frame_index s).
  { pose proof (ex_frame_index _ _ _ _ _ Hex) as H1.
    pose proof (ex_frame_index _ _ _ _ _ Hex') as H2.
    rewrite (ex_frame_idx _ _ _ _ _ Hex) in H1.
    rewrite (ex_frame_idx _ _ _ _ _ Hex'), Hmask in H2.
    change (shapes_of paths a') with (shapes_of paths a) in H2. congruence. }
  assert (Hei : experminet_index s' = experminet_index s).
  { pose proof (ex_experiment_index _ _ _ _ _ Hex) as H1.
    pose proof (ex_experiment_index _ _ _ _ _ Hex') as H2.
    rewrite (ex_exp_idx _ _ _ _ _ Hex) in H1.
    rewrite (ex_exp_idx _ _ _ _ _ Hex'), Hmask in H2.
    change (shapes_of paths a') with (shapes_of paths a) in H2. congruence. }
  assert (Hfa : frame_amplitudes s' = frame_amplitudes s).
  { pose proof (ex_amplitudes _ _ _ _ _ Hex) as H1.
    pose proof (ex_amplitudes _ _ _ _ _ Hex') as H2.
    rewrite Hamp, Hmask in H2. congruence. }
  do 9 (split; [assumption|]).
  exists (tr_erefs t), (tr_srefs t), (tr_eeg t), (tr_smooth t).
  split; [exact (ex_holds_eeg _ _ _ _ _ Hex)|]. split.
  - rewrite <- Heeg, (lay_erefs _ _ _ Hlay), <- (lay_erefs _ _ _ Hlay').
    exact (ex_holds_eeg _ _ _ _ _ Hex').
  - split; [exact (ex_holds_smooth _ _ _ _ _ Hex)|].
    rewrite <- Hsm, (lay_srefs _ _ _ Hlay).
    change (smooth a) with (smooth a'). rewrite <- (lay_srefs _ _ _ Hlay').
    exact (ex_holds_smooth _ _ _ _ _ Hex').
Qed.

(** ** The label vectors are 64-bit *)

(** An object is constructed only where NumPy has [np.int] (lines 131 and
    133) and the values of NONE, REST and BOUNDARY, which lines 141, 161 and
    170 convert for every experiment, fit a 64-bit integer; and every label
    of a constructed object fits one, so that the integers of the label
    vectors are the entries of the [np.int64] arrays. *)
Theorem labels_are_64_bit paths a s st :
  init paths a empty_store = Returned s st ->
  np_has_int = true /\
  in_int64 (Behav_value Behav_NONE) /\ in_int64 (Behav_value Behav_REST) /\
  in_int64 (Behav_value Behav_BOUNDARY) /\
  Forall in_int64 (data_behav_concat s).
Proof.
  intros Hrun. apply init_returned in Hrun as [t Ht].
  destruct (ex_fit _ _ _ _ _ Ht) as (Hnone & Hrest & Hbound).
  split; [exact (ex_np_int _ _ _ _ _ Ht)|]. do 3 (split; [assumption|]).
  destruct (explains_override_order _ _ _ _ _ Ht) as [Hlen Hframes].
  rewrite (ex_labels _ _ _ _ _ Ht). apply Forall_concat, Forall_lookup.
  intros i d Hd.
  destruct (lookup_lt_is_Some_2 paths i) as [p Hp].
  { rewrite <- Hlen. eapply lookup_lt_Some, Hd. }
  destruct (Hframes _ _ Hp)
    as (g & rest & bound & d' & frames & _ & Hg & Hlg & _ & _ & _ & _ & Hd' & Hld & Hf).
  rewrite Hd in Hd'. injection Hd' as <-.
  apply Forall_lookup. intros f l Hl.
  destruct (lookup_lt_is_Some_2 g f) as [lg Hlgf].
  { rewrite Hlg, <- Hld. eapply lookup_lt_Some, Hl. }
  destruct (Hf _ _ Hlgf) as (_ & r & b & _ & _ & Hfinal).
  rewrite Hl in Hfinal. injection Hfinal as ->.
  unfold final_label. destruct b; [exact Hbound|]. destruct r; [exact Hrest|].
  pose proof (ex_gt_fit _ _ _ _ _ Ht) as Hfit.
  eapply Forall_lookup_1; [|exact Hlgf]. eapply Forall_lookup_1; eassumption.
Qed.

End Edges.

(** ** The labelling passes, forwards *)

Lemma py_range_elem a b x : x ∈ py_range a b -> a <= x < b.
Proof.
  unfold py_range. intros Hx. apply list_elem_of_fmap in Hx as (k & -> & Hk).
  apply list_elem_of_In, in_seq in Hk. lia.
Qed.

Lemma enumerate_elem {A : Type} (xs : list A) (i : nat) (x : A) :
  (i, x) ∈ enumerate xs -> xs !! i = Some x.
Proof.
  unfold enumerate. intros Hx. apply list_elem_of_lookup in Hx as [k Hk].
  rewrite lookup_zip_with in Hk.
  destruct (seq 0 (length xs) !! k) as [j|] eqn:Hj; [|discriminate].
  destruct (xs !! k) as [y|] eqn:Hy; [|discriminate].
  apply lookup_seq in Hj as [-> _]. cbn in Hk. injection Hk as <- <-. exact Hy.
Qed.

Lemma same_lengths_lookup dbc dbc' i d' :
  same_lengths dbc dbc' -> dbc' !! i = Some d' ->
  exists d, dbc !! i = Some d /\ length d' = length d.
Proof. intros Hs Hd. eapply Forall2_lookup_r in Hs; [|exact Hd]. exact Hs. Qed.

Lemma same_lengths_map dbc dbc' :
  same_lengths dbc dbc' -> map length dbc' = map length dbc.
Proof. induction 1 as [|d d' dbc dbc' Hd _ IH]; cbn; congruence. Qed.

Lemma same_lengths_lookup_l dbc dbc' i d :
  same_lengths dbc dbc' -> dbc !! i = Some d ->
  exists d', dbc' !! i = Some d' /\ length d' = length d.
Proof. intros Hs Hd. eapply Forall2_lookup_l in Hs; [|exact Hd]. exact Hs. Qed.

(** The two mask passes return when every experiment has a mask of the
    length of its label vector. *)
Lemma to_int64_runs v : in_int64 v -> to_int64 v = Ok v.
Proof.
  unfold in_int64, to_int64. intros [Hlo Hhi].
  destruct (Z.leb_spec int64_min v); [|lia].
  destruct (Z.leb_spec v int64_max); [reflexivity | lia].
Qed.

Lemma mask_loop_runs mk v paths dbc :
  in_int64 v ->
  (forall i p, paths !! i = Some p ->
     exists d mask, dbc !! i = Some d /\ mk i p = Ok mask /\ length mask = length d) ->
  exists masks dbc',
    rfold (mask_step mk v) (enumerate paths) ([], dbc) = Ok (masks, dbc') /\
    same_lengths dbc dbc'.
Proof.
  intros Hv Hmk.
  destruct (rfold_runs (fun s : list (list bool) * list (list Z) => same_lengths dbc (snd s))
              (mask_step mk v) (enumerate paths) ([], dbc)) as ([masks dbc'] & Hrun & Hs);
    [| apply same_lengths_refl | eauto].
  intros [masks dbc'] [i p] Hin Hsame. cbn [snd] in Hsame.
  apply enumerate_elem in Hin.
  destruct (Hmk i p Hin) as (d & mask & Hd & Hmask & Hlen).
  destruct (same_lengths_lookup_l _ _ _ _ Hsame Hd) as (d' & Hd' & Hld').
  unfold mask_step. rewrite Hmask. cbn [rbind].
  rewrite (proj2 (getitem_ok dbc' i d') Hd'). cbn [rbind].
  unfold set_masked. rewrite Hlen, <- Hld', Nat.eqb_refl.
  rewrite (to_int64_runs v Hv). cbn [rbind].
  eexists. split; [reflexivity|]. cbn [snd].
  eapply same_lengths_insert; [exact Hsame | exact Hd'|].
  rewrite length_zip_with. lia.
Qed.

Section RunLabels.
Context `{Externals}.

Lemma label_gt_steps_run a path mid entries d :
  0 <= mid < Z.of_nat (length d) ->
  Forall (fun label_gt => in_int64 (Behav_value (snd (fst label_gt)))) entries ->
  exists d', rfold (label_gt_step a path mid) entries d = Ok d' /\
             length d' = length d.
Proof.
  intros Hmid Hfit.
  apply (rfold_runs (fun d' => length d' = length d)); [|reflexivity].
  intros d0 entry Hentry Hlen. rewrite label_gt_step_applies.
  destruct (gt_applies a path mid entry).
  - unfold set_item. rewrite Hlen.
    destruct (Z.ltb_spec mid (- Z.of_nat (length d))); [lia|].
    destruct (Z.leb_spec (Z.of_nat (length d)) mid); [lia|]. cbn [orb].
    rewrite Forall_forall in Hfit.
    rewrite (to_int64_runs _ (Hfit _ Hentry)). cbn [rbind].
    eexists. split; [reflexivity|]. rewrite length_insert. exact Hlen.
  - eauto.
Qed.

(** The ground-truth pass returns when the clip length is not negative and
    no label vector is shorter than the number of rows of its matrix. *)
Lemma label_ground_truth_runs a paths shapes dbc :
  Forall (fun label_gt => in_int64 (Behav_value (snd (fst label_gt)))) label_gt_list ->
  0 <= clip_len a ->
  length paths = length dbc -> length shapes = length dbc ->
  (forall i s d, shapes !! i = Some s -> dbc !! i = Some d ->
                 (fst s <= length d)%nat) ->
  exists gt, label_ground_truth a paths shapes dbc = Ok gt /\ same_lengths dbc gt.
Proof.
  intros Hfit Hclip Hlp Hls Hrows. unfold label_ground_truth.
  destruct (rfold_runs (same_lengths dbc)
              (fun dbc0 exp_idx =>
                 try s := getitem shapes exp_idx in
                 rfold (label_offset a paths exp_idx)
                       (py_range (clip_len a / 2) (Z.of_nat (fst s) - clip_len a / 2))
                       dbc0)
              (seq 0 (length dbc)) dbc) as (gt & Hrun & Hs);
    [| apply same_lengths_refl | eauto].
  intros dbc0 i Hi Hsame. apply list_elem_of_In, in_seq in Hi.
  destruct (lookup_lt_is_Some_2 shapes i) as [s Hs]; [lia|].
  destruct (lookup_lt_is_Some_2 paths i) as [path Hpath]; [lia|].
  destruct (lookup_lt_is_Some_2 dbc i) as [d Hd]; [lia|].
  rewrite (proj2 (getitem_ok shapes i s) Hs). cbn [rbind].
  apply (rfold_runs (same_lengths dbc)); [|exact Hsame].
  intros dbc1 offset Hoff Hsame1. apply py_range_elem in Hoff.
  destruct (same_lengths_lookup_l _ _ _ _ Hsame1 Hd) as (d1 & Hd1 & Hl1).
  unfold label_offset.
  rewrite (proj2 (getitem_ok paths i path) Hpath). cbn [rbind].
  rewrite (proj2 (getitem_ok dbc1 i d1) Hd1). cbn [rbind].
  pose proof (Hrows _ _ _ Hs Hd) as Hle.
  assert (Hc : 0 <= clip_len a / 2) by (apply Z.div_pos; lia).
  destruct (label_gt_steps_run a path (offset + clip_len a / 2) label_gt_list d1)
    as (d2 & Hsteps & Hl2); [lia | exact Hfit|].
  rewrite Hsteps. cbn [rbind]. eexists. split; [reflexivity|].
  eapply same_lengths_insert; [exact Hsame1 | exact Hd1 | exact Hl2].
Qed.

(** Lines 136 to 141 return when the value of NONE fits. *)
Lemma fill_labels_runs shapes :
  in_int64 (Behav_value Behav_NONE) ->
  fill_labels (zero_labels shapes) = Ok (initial_labels shapes).
Proof.
  intros Hfit. unfold fill_labels, zero_labels, initial_labels.
  induction shapes as [|sh shapes IH]; cbn [map rmap]; [reflexivity|].
  unfold fill at 1. rewrite (to_int64_runs _ Hfit). cbn [rbind].
  rewrite IH. cbn [rbind]. do 2 f_equal.
  clear. induction (snd sh) as [|n IHn]; cbn; [reflexivity | rewrite IHn; reflexivity].
Qed.

Lemma label_rest_runs paths frame_amps dbc :
  in_int64 (Behav_value Behav_REST) ->
  (forall i p, paths !! i = Some p ->
     exists d amp thr,
       dbc !! i = Some d /\ frame_amps !! i = Some amp /\ length amp = length d /\
       threshold_otsu amp (Z.of_nat (String.length p) / 2) = Ok thr) ->
  exists masks dbc', label_rest paths frame_amps dbc = Ok (masks, dbc') /\
                     same_lengths dbc dbc'.
Proof.
  intros Hfit Hok. rewrite label_rest_eq. apply mask_loop_runs; [exact Hfit|].
  intros i p Hp. destruct (Hok i p Hp) as (d & amp & thr & Hd & Hamp & Hlen & Hthr).
  exists d, (below thr amp). split; [exact Hd|]. split.
  - unfold rest_mask_at, rest_mask_of.
    rewrite (proj2 (getitem_ok frame_amps i amp) Hamp). cbn [rbind].
    rewrite Hthr. reflexivity.
  - unfold below. rewrite length_map. exact Hlen.
Qed.

Lemma boundary_length bound_len n : length (boundary bound_len n) = n.
Proof.
  unfold boundary, fill_slice.
  rewrite length_map, !length_imap, length_replicate. reflexivity.
Qed.

Lemma label_boundary_runs a paths frame_amps dbc :
  in_int64 (Behav_value Behav_BOUNDARY) ->
  (forall i p, paths !! i = Some p ->
     exists d amp, dbc !! i = Some d /\ frame_amps !! i = Some amp /\
                   length amp = length d) ->
  exists masks dbc', label_boundary a paths frame_amps dbc = Ok (masks, dbc') /\
                     same_lengths dbc dbc'.
Proof.
  intros Hfit Hok. rewrite label_boundary_eq. apply mask_loop_runs; [exact Hfit|].
  intros i p Hp. destruct (Hok i p Hp) as (d & amp & Hd & Hamp & Hlen).
  exists d, (boundary (bound_len a) (length amp)). split; [exact Hd|]. split.
  - unfold boundary_mask_at.
    rewrite (proj2 (getitem_ok frame_amps i amp) Hamp). reflexivity.
  - rewrite boundary_length. exact Hlen.
Qed.

End RunLabels.

(** ** The constructor returns *)

Lemma concatenate_runs {A : Type} (xs : list (list A)) :
  xs <> [] -> concatenate xs = Ok (concat xs).
Proof. destruct xs; [contradiction | reflexivity]. Qed.

Lemma concatenate_axis1_runs (B : nat) (xs : list ndarray) :
  xs <> [] -> Forall (fun x => shape0 x = B) xs ->
  exists c, concatenate_axis1 xs = Ok c /\
            shape1 c = sum_list (map shape1 xs).
Proof.
  intros Hne HB. destruct xs as [|x xs]; [contradiction|].
  unfold concatenate_axis1.
  assert (Hall : forallb (fun y => (shape0 y =? shape0 x)%nat) (x :: xs) = true).
  { apply forallb_forall. intros y Hy. apply Nat.eqb_eq.
    rewrite Forall_forall in HB. rewrite (HB y), (HB x);
      [reflexivity | left | apply list_elem_of_In, Hy]. }
  rewrite Hall. eexists. split; [reflexivity|]. cbn [shape1].
  generalize (x :: xs). intros l. induction l as [|y l IH]; cbn; [reflexivity|].
  rewrite IH. reflexivity.
Qed.

Section Success.
Context `{Externals}.

Lemma recording_readable paths tf ti k exp t :
  recording_ok exp -> 0 <= ti -> ti < t ->
  paths !! k = Some exp -> tf_bounds paths tf !! k = Some t ->
  readable ti exp t.
Proof.
  intros (Hcols & Hreg & Hnames) H0 Hlt Hp Ht.
  split; [|split; [exact Hlt|]].
  - unfold df_num_keys. destruct (df_columns (read_csv exp)); [contradiction|].
    cbn. lia.
  - intros name Hname. destruct (Hnames name Hname) as [series Hser].
    pose proof (df_regular_length _ _ _ Hreg Hser) as Hlen.
    pose proof (tf_bounds_le_recording _ _ _ _ _ Hp Ht) as Hrec.
    unfold recording_length in Hrec.
    exists series. eexists. split; [exact Hser|].
    rewrite py_slice_window by lia.
    unfold broadcast_to. rewrite length_take, length_drop.
    replace (Z.to_nat (t - ti) `min` (length series - Z.to_nat ti))%nat
      with (Z.to_nat (t - ti)) by lia.
    rewrite Nat.eqb_refl. reflexivity.
Qed.

Lemma wavelets_shape1 a x :
  shape1 (fst (wavelets a x))
  = shape0 (fst (find_wav (np_transpose x) (num_channels a) 5 (samp_rate a)
                          (min_frequency a) (max_frequency a))).
Proof. unfold wavelets. destruct (find_wav _ _ _ _ _ _). reflexivity. Qed.

Lemma np_transpose_shape0 x : shape0 (np_transpose x) = shape1 x.
Proof. unfold np_transpose, shape0, columns. cbn. rewrite length_map, length_seq. reflexivity. Qed.

Lemma holds_centrable st l refs xs :
  holds st l refs xs ->
  Forall (fun x => shape0 x = length electrode_names) xs -> Forall nd_wf xs ->
  Forall (centrable st) refs.
Proof.
  intros [_ HF] H0 Hwf. induction HF as [|r x refs xs Hr _ IH]; [constructor|].
  inversion H0; inversion Hwf; subst. constructor; [|auto].
  exists x. auto.
Qed.

Lemma smooth_stage_shapes a raw :
  map shape (smooth_stage a raw) = map shape raw.
Proof.
  unfold smooth_stage.
  assert (Hsm : map shape (if smooth a then map smoothed raw else raw) = map shape raw).
  { destruct (smooth a); [|reflexivity]. rewrite map_map. apply map_ext.
    intros x. unfold shape, shape0, smoothed. cbn. rewrite length_map. reflexivity. }
  destruct (mean_center a); [rewrite center_rows_shapes|]; exact Hsm.
Qed.

(** The constructor returns an object whenever: NumPy has [np.int]; the
    values of NONE, REST and BOUNDARY and of the labels of the ground-truth
    table fit the [np.int64] label vectors; there is a recording; every
    recording has columns of one length, one for every electrode; [ti] is
    not negative and every experiment has a bound above [ti] that leaves at
    least as many frames as there are electrodes; the clip length is not
    negative; with smoothing, the filter returns for every row read a
    vector that can be assigned to the row; the transform returns one row
    per frame and the same number [B] of bands for every experiment, at
    least one if the frames are normalized; and [threshold_otsu] returns
    for the amplitude vector of every experiment. *)
Theorem constructor_returns paths a B :
  np_has_int = true ->
  labels_fit ->
  paths <> [] ->
  Forall recording_ok paths ->
  0 <= ti a -> 0 <= clip_len a ->
  Forall (fun t => ti a < t /\ Z.of_nat (length electrode_names) <= t - ti a)
         (tf_bounds paths (tf a)) ->
  (smooth a = true -> Forall filtered_ok (raw_matrices paths a)) ->
  (forall y, let w := fst (find_wav y (num_channels a) 5 (samp_rate a)
                                    (min_frequency a) (max_frequency a)) in
             shape0 w = shape0 y /\ shape1 w = B) ->
  (normalize a = true -> B <> 0%nat) ->
  Forall2 (fun exp amp =>
             exists thr, threshold_otsu amp (Z.of_nat (String.length exp) / 2) = Ok thr)
          paths (amplitudes paths a) ->
  exists s st, init paths a empty_store = Returned s st.
Proof.
  intros Hint (Hnone & Hrestfit & Hboundfit & Hgtfit) Hne Hrec Hti Hclip Hbounds
         Hfilt Hwav HB Hotsu.
  set (tfs := tf_bounds paths (tf a)) in *.
  unfold amplitudes, spectra, raw_matrices in *.
  fold tfs in Hfilt, Hotsu.
  set (raw := zip_with (loaded (ti a)) paths tfs) in *.
  assert (Htfs : length tfs = length paths) by apply tf_bounds_length.
  assert (Hraw : length raw = length paths).
  { unfold raw. rewrite length_zip_with. lia. }
  assert (Hraw0 : Forall (fun x => shape0 x = length electrode_names) raw)
    by apply loaded_all_shape0.
  assert (Hn : (0 < length paths)%nat) by (destruct paths; [contradiction | cbn; lia]).
  unfold init.
  rewrite (bind_runs _ _ _ 0%nat (Store [[]] [])) by reflexivity.
  rewrite (bind_runs _ _ _ 1%nat (Store [[]; []] [])) by reflexivity.
  rewrite (bind_runs _ _ _ 2%nat (Store [[]; []; []] [])) by reflexivity.
  (* reading *)
  destruct (read_data_runs 0%nat (ti a) paths (tf a) (Store [[]; []; []] []) [] eq_refl)
    as (tf' & s1 & Hread).
  { intros k exp t Hp Ht.
    pose proof (Forall_lookup_1 _ _ _ _ Hrec Hp) as Hok.
    pose proof (Forall_lookup_1 _ _ _ _ Hbounds Ht) as [Hlt _].
    eapply recording_readable; eassumption. }
  rewrite (bind_runs _ _ _ _ _ Hread).
  apply (read_data_returned _ _ _ _ _ _ _ []) in Hread; [|reflexivity].
  destruct Hread as (HL1 & HA1 & _ & Hwf1).
  cbn [st_lists st_arrays app length insert list_insert] in HL1, HA1.
  fold tfs in HA1, Hwf1. fold raw in HA1, Hwf1.
  (* smoothing *)
  set (sms := if smooth a then map smoothed raw else raw).
  set (smref := if smooth a then 1%nat else 0%nat).
  assert (Hstage2 : exists s2,
    (if smooth a
     then do _ <- smooth_data 0 1 (length paths) in ret 1%nat
     else ret 0%nat) s1 = Returned smref s2 /\
    st_lists s2 = [seq 0 (length paths);
                   if smooth a then seq (length paths) (length paths) else []; []] /\
    st_arrays s2 = (if smooth a then raw ++ sms else raw) /\
    Forall nd_wf sms).
  { unfold smref, sms. destruct (smooth a) eqn:Hsm.
    - assert (Hh1 : holds s1 0%nat (seq 0 (length paths)) raw).
      { rewrite <- Hraw. apply (holds_block _ _ [] raw []);
          [rewrite HL1, Hraw; reflexivity | rewrite HA1, app_nil_r; reflexivity]. }
      destruct (smooth_data_runs 0%nat 1%nat (seq 0 (length paths)) raw s1)
        as [s2 Hrun];
        [discriminate | exact Hh1 | rewrite HL1; reflexivity | exact Hraw0
         | exact (Hfilt eq_refl) |].
      exists s2. split.
      + rewrite <- Hraw at 1. rewrite (bind_runs _ _ _ _ _ Hrun). reflexivity.
      + eapply smooth_data_content in Hrun;
          [ | discriminate | exact Hh1 | rewrite HL1; reflexivity | exact Hraw0 ].
        destruct Hrun as (HL2 & HA2 & Hok).
        rewrite HL2, HA2, HL1, HA1, Hraw. repeat split.
        apply Forall_map. eapply Forall_impl; [exact Hok|]. apply filtered_ok_wf.
    - exists s1. auto. }
  destruct Hstage2 as (s2 & Hrun2 & HL2 & HA2 & Hsmswf).
  rewrite (bind_runs _ _ _ _ _ Hrun2). clear Hrun2.
  assert (Hsmssh : map shape sms = map shape raw).
  { unfold sms. destruct (smooth a); [|reflexivity]. rewrite map_map. apply map_ext.
    intros x. unfold shape, shape0, smoothed. cbn. rewrite length_map. reflexivity. }
  assert (Hlsms : length sms = length paths).
  { rewrite <- Hraw, <- (length_map shape sms), Hsmssh, length_map. reflexivity. }
  assert (Hsms0 : Forall (fun x => shape0 x = length electrode_names) sms).
  { unfold sms. destruct (smooth a); [|exact Hraw0].
    apply Forall_map. eapply Forall_impl; [exact Hraw0|].
    intros x Hx. unfold shape0, smoothed. cbn. rewrite length_map. exact Hx. }
  set (srefs := if smooth a then seq (length paths) (length paths)
                else seq 0 (length paths)).
  assert (Hh2s : holds s2 smref srefs sms).
  { unfold smref, srefs. destruct (smooth a).
    - rewrite <- Hraw at 1. rewrite <- Hlsms.
      apply (holds_block _ _ raw sms []);
        [rewrite HL2, Hraw, Hlsms; reflexivity | rewrite HA2, app_nil_r; reflexivity].
    - rewrite <- Hlsms.
      apply (holds_block _ _ [] sms []);
        [rewrite HL2, Hlsms; reflexivity | rewrite HA2, app_nil_r; reflexivity]. }
  assert (Hlsrefs : length srefs = length paths).
  { unfold srefs. destruct (smooth a); apply length_seq. }
  (* mean centring *)
  set (smooths := smooth_stage a raw) in *.
  assert (Hsmooths : smooths = if mean_center a then map center_rows sms else sms)
    by reflexivity.
  assert (Hstage3 : exists s3,
    (if mean_center a then center_data smref (length paths) else ret tt) s2
    = Returned tt s3 /\
    st_lists s3 = st_lists s2 /\
    st_arrays s3 = if smooth a then raw ++ smooths else smooths).
  { rewrite Hsmooths. destruct (mean_center a).
    - destruct (center_data_runs smref srefs s2) as [s3 Hrun].
      + apply Hh2s.
      + eapply holds_centrable; eassumption.
      + rewrite Hlsrefs in Hrun. exists s3. split; [exact Hrun|].
        rewrite <- Hlsms in Hrun. unfold smref, srefs in *. destruct (smooth a).
        * eapply (center_data_returned 1%nat raw sms []) in Hrun;
            [ | rewrite HL2, Hraw, Hlsms; reflexivity
              | rewrite HA2, app_nil_r; reflexivity | assumption | assumption ].
          subst s3. rewrite app_nil_r. auto.
        * eapply (center_data_returned 0%nat [] sms []) in Hrun;
            [ | rewrite HL2, Hlsms; reflexivity
              | rewrite HA2, app_nil_r; reflexivity
              | assumption | assumption ].
          subst s3. rewrite app_nil_r. auto.
    - exists s2. split; [reflexivity|]. split; [reflexivity|].
      rewrite HA2. destruct (smooth a); reflexivity. }
  destruct Hstage3 as (s3 & Hrun3 & HL3 & HA3).
  rewrite (bind_runs _ _ _ _ _ Hrun3). clear Hrun3. rewrite HL2 in HL3.
  assert (Hsmsh : map shape smooths = map shape raw) by apply smooth_stage_shapes.
  assert (Hlsm : length smooths = length paths).
  { rewrite <- Hraw, <- (length_map shape smooths), Hsmsh, length_map. reflexivity. }
  set (eegs := if smooth a then raw else smooths).
  assert (Hleeg : length eegs = length paths).
  { unfold eegs. destruct (smooth a); assumption. }
  assert (Hh3e : holds s3 0%nat (seq 0 (length paths)) eegs).
  { rewrite <- Hleeg. unfold eegs. destruct (smooth a).
    - apply (holds_block _ _ [] raw smooths); [rewrite HL3, Hraw; reflexivity|exact HA3].
    - apply (holds_block _ _ [] smooths []);
        [rewrite HL3, Hlsm; reflexivity | rewrite HA3, app_nil_r; reflexivity]. }
  assert (Hh3s : holds s3 smref srefs smooths).
  { unfold smref, srefs. destruct (smooth a).
    - rewrite <- Hraw at 1. rewrite <- Hlsm.
      apply (holds_block _ _ raw smooths []);
        [rewrite HL3, Hraw, Hlsm; reflexivity | rewrite HA3, app_nil_r; reflexivity].
    - rewrite <- Hlsm.
      apply (holds_block _ _ [] smooths []);
        [rewrite HL3, Hlsm; reflexivity | rewrite HA3, app_nil_r; reflexivity]. }
  assert (Hshapes : map shape eegs = shapes_of paths a).
  { unfold shapes_of. fold tfs. rewrite <- (loaded_shapes (ti a) paths tfs) by lia.
    fold raw. unfold eegs. destruct (smooth a); [reflexivity | exact Hsmsh]. }
  assert (Hshapes' : map shape smooths = shapes_of paths a).
  { unfold shapes_of. fold tfs. rewrite <- (loaded_shapes (ti a) paths tfs) by lia.
    exact Hsmsh. }
  (* time-frequency analysis *)
  destruct (wavelet_data_runs a smref 2%nat (seq 0 (length paths)) None s3 srefs [])
    as (freq & s4 & Hwavs).
  { unfold smref. destruct (smooth a); discriminate. }
  { apply Hh3s. }
  { rewrite HL3. reflexivity. }
  { apply Forall_forall. intros i Hi. apply list_elem_of_In, in_seq in Hi.
    destruct (lookup_lt_is_Some_2 srefs i) as [r Hr]; [lia|].
    destruct (holds_lookup _ _ _ _ _ _ Hh3s Hr) as (x & _ & Hx).
    exists r. split; [exact Hr|]. eapply lookup_lt_Some, Hx. }
  rewrite (bind_runs _ _ _ _ _ Hwavs).
  eapply (wavelet_data_returned a smref 2%nat _ None s3 freq s4 srefs smooths [])
    in Hwavs;
    [ | unfold smref; destruct (smooth a); discriminate
      | exact Hh3s | rewrite HL3; reflexivity ].
  destruct Hwavs as (ys & Hys & HL4 & HA4 & _ & Hfreq1).
  rewrite <- Hlsm in Hys. apply lookup_seq_all in Hys. subst ys.
  rewrite length_seq in HL4. cbn [app] in HL4.
  set (wavs := map (fun y => fst (wavelets a y)) smooths) in *.
  assert (Hlwav : length wavs = length paths).
  { unfold wavs. rewrite length_map. exact Hlsm. }
  destruct Hfreq1 as [freq_channels ->].
  { intros Hseq. apply (f_equal length) in Hseq. rewrite length_seq in Hseq.
    cbn in Hseq. lia. }
  rewrite (bind_runs _ _ _ freq_channels s4) by reflexivity.
  assert (Hh4w : holds s4 2%nat (seq (length (st_arrays s3)) (length wavs)) wavs).
  { apply (holds_block _ _ (st_arrays s3) wavs []);
      [ rewrite HL4, HL3, Hlwav; reflexivity | rewrite HA4, app_nil_r; reflexivity ]. }
  assert (Hh4e : holds s4 0%nat (seq 0 (length paths)) eegs).
  { eapply holds_extend; [exact Hh3e | rewrite HL4, HL3; reflexivity | eauto]. }
  (* frame statistics *)
  rewrite (bind_runs _ _ _ _ _ (frame_statistic_runs np_var _ _ _ _ Hh4w)).
  rewrite (bind_runs _ _ _ _ _ (frame_statistic_runs np_sum _ _ _ _ Hh4w)).
  set (amps := map (log_reduce np_sum) wavs) in *.
  (* the bands and the frames of the spectral arrays *)
  assert (Hwav0 : Forall (fun w => shape0 w = B) wavs).
  { unfold wavs. apply Forall_map, Forall_forall. intros x _. cbn beta.
    rewrite wavelets_shape0. apply Hwav. }
  assert (Hwav1 : map shape1 wavs = map snd (shapes_of paths a)).
  { rewrite <- Hshapes'. unfold wavs. rewrite !map_map. apply map_ext. intros x.
    rewrite wavelets_shape1. destruct (Hwav (np_transpose x)) as [-> _].
    apply np_transpose_shape0. }
  (* frame normalization *)
  set (norms := if normalize a then map normalized wavs else wavs).
  assert (Hstage6 : exists s6 wrefs,
    (if normalize a then normalize_data 2 2 else ret tt) s4 = Returned tt s6 /\
    holds s6 0%nat (seq 0 (length paths)) eegs /\
    holds s6 2%nat wrefs norms).
  { unfold norms. destruct (normalize a) eqn:Hnorm.
    - destruct (normalize_data_runs 2%nat _ wavs s4 Hh4w) as [s6 Hrun].
      { eapply Forall_impl; [exact Hwav0|]. intros w ->. left. apply HB. reflexivity. }
      exists s6. eexists. split; [exact Hrun|].
      eapply normalize_data_returned in Hrun; [|exact Hh4w].
      destruct Hrun as (HL6 & HA6 & _). split.
      + eapply holds_extend; [exact Hh4e | rewrite HL6, HL4, HL3; reflexivity | eauto].
      + apply (holds_block _ _ (st_arrays s4) (map normalized wavs) []);
          [ rewrite HL6, HL4, HL3, length_map; reflexivity
          | rewrite HA6, app_nil_r; reflexivity ].
    - exists s4. eexists. split; [reflexivity|]. split; [exact Hh4e | exact Hh4w]. }
  destruct Hstage6 as (s6 & wrefs & Hrun6 & Hh6e & Hh6w).
  rewrite (bind_runs _ _ _ _ _ Hrun6). clear Hrun6.
  assert (Hnorm0 : Forall (fun w => shape0 w = B) norms).
  { unfold norms. destruct (normalize a); [|exact Hwav0].
    apply Forall_map. eapply Forall_impl; [exact Hwav0|].
    intros w Hw. unfold shape0, normalized. cbn. rewrite length_map. exact Hw. }
  assert (Hnorm1 : map shape1 norms = map snd (shapes_of paths a)).
  { rewrite <- Hwav1. unfold norms. destruct (normalize a); [|reflexivity].
    rewrite map_map. reflexivity. }
  assert (Hlnorm : length norms = length paths).
  { unfold norms. destruct (normalize a); rewrite ?length_map; exact Hlwav. }
  (* identifiers *)
  rewrite (bind_runs _ _ _ _ _ (experiment_shapes_runs _ _ _ _ Hh6e)).
  fold shape. rewrite Hshapes.
  set (shp := shapes_of paths a) in *.
  set (frames := map snd shp) in *.
  assert (Hlshp : length shp = length paths) by apply shapes_of_length.
  assert (Hexp : concatenate (exp_idx_parts shp) = Ok (concat (exp_idx_parts shp))).
  { apply concatenate_runs. intros Hnil.
    pose proof (exp_idx_parts_lengths shp) as Hl. rewrite Hnil in Hl.
    apply (f_equal length) in Hl. cbn in Hl. rewrite length_map in Hl. lia. }
  rewrite (bind_runs _ _ _ _ s6 (lift_runs _ _ _ Hexp)).
  assert (Hastype : forall x, astype_int x = Ok x).
  { intros x. unfold astype_int. rewrite Hint. reflexivity. }
  rewrite (bind_runs _ _ _ _ s6 (lift_runs _ _ _ (Hastype _))).
  assert (Hframe : concatenate (frame_idx_parts shp) = Ok (concat (frame_idx_parts shp))).
  { apply concatenate_runs. intros Hnil.
    pose proof (frame_idx_parts_lengths shp) as Hl. rewrite Hnil in Hl.
    apply (f_equal length) in Hl. cbn in Hl. rewrite length_map in Hl. lia. }
  rewrite (bind_runs _ _ _ _ s6 (lift_runs _ _ _ Hframe)).
  rewrite (bind_runs _ _ _ _ s6 (lift_runs _ _ _ (Hastype _))).
  (* labels *)
  rewrite (bind_runs _ _ _ _ s6 (lift_runs _ _ _ (fill_labels_runs shp Hnone))).
  assert (Hinit : map length (initial_labels shp) = frames).
  { unfold initial_labels, frames. rewrite map_map. apply map_ext. intros sh.
    apply length_replicate. }
  destruct (label_ground_truth_runs a paths shp (initial_labels shp) Hgtfit Hclip)
    as (gt & Hgt & Hsgt).
  { unfold initial_labels. rewrite length_map. lia. }
  { unfold initial_labels. rewrite length_map. reflexivity. }
  { intros i sh d Hsh Hd. unfold initial_labels in Hd.
    rewrite list_lookup_fmap, Hsh in Hd. injection Hd as <-.
    rewrite length_replicate. unfold shp, shapes_of in Hsh. fold tfs in Hsh.
    rewrite list_lookup_fmap in Hsh.
    destruct (tfs !! i) as [t|] eqn:Ht; [|discriminate]. injection Hsh as <-.
    pose proof (Forall_lookup_1 _ _ _ _ Hbounds Ht) as [Hlt Hle]. cbn [fst snd]. lia. }
  rewrite (bind_runs _ _ _ _ s6 (lift_runs _ _ _ Hgt)).
  apply same_lengths_map in Hsgt. rewrite Hinit in Hsgt.
  assert (Hamps : map length amps = frames).
  { unfold amps. rewrite <- Hwav1, !map_map. apply map_ext. intros w.
    apply log_reduce_length. }
  assert (Hrows : forall (dbc : list (list Z)) i (p : string),
            map length dbc = frames -> paths !! i = Some p ->
            exists d amp, dbc !! i = Some d /\ amps !! i = Some amp /\
                          length amp = length d).
  { intros dbc i p Hdbc Hp. pose proof (lookup_lt_Some _ _ _ Hp) as Hi.
    destruct (lookup_lt_is_Some_2 dbc i) as [d Hd].
    { rewrite <- (length_map length dbc), Hdbc. unfold frames.
      rewrite length_map. lia. }
    destruct (lookup_lt_is_Some_2 amps i) as [amp Hamp].
    { rewrite <- (length_map length amps), Hamps. unfold frames.
      rewrite length_map. lia. }
    exists d, amp. split; [exact Hd|]. split; [exact Hamp|].
    apply (f_equal (fun l => l !! i)) in Hdbc, Hamps.
    rewrite list_lookup_fmap, Hd in Hdbc. rewrite list_lookup_fmap, Hamp in Hamps.
    cbn in Hdbc, Hamps. congruence. }
  destruct (label_rest_runs paths amps gt Hrestfit) as (rest_mask & rl & Hrest & Hsrl).
  { intros i p Hp. destruct (Hrows gt i p Hsgt Hp) as (d & amp & Hd & Hamp & Hlen).
    destruct (Forall2_lookup_l _ _ _ _ _ Hotsu Hp) as (amp' & Hamp' & thr & Hthr).
    fold wavs in Hamp'. fold amps in Hamp'. rewrite Hamp in Hamp'. injection Hamp' as <-.
    exists d, amp, thr. auto. }
  rewrite (bind_runs _ _ _ _ s6 (lift_runs _ _ _ Hrest)). cbv beta iota.
  apply same_lengths_map in Hsrl. rewrite Hsgt in Hsrl.
  destruct (label_boundary_runs a paths amps rl Hboundfit)
    as (bound_mask & bl & Hbound & Hsbl).
  { intros i p Hp. apply (Hrows rl i p Hsrl Hp). }
  rewrite (bind_runs _ _ _ _ s6 (lift_runs _ _ _ Hbound)). cbv beta iota.
  apply same_lengths_map in Hsbl. rewrite Hsrl in Hsbl.
  (* concatenation *)
  rewrite (bind_runs _ _ _ _ _ (list_read_runs _ _ _ (proj1 Hh6w))).
  rewrite (bind_runs _ _ _ _ _ (map_M_np_load_runs _ _ _ (proj2 Hh6w))).
  destruct (concatenate_axis1_runs B norms) as (c & Hcat & Hc1).
  { intros Hnil. rewrite Hnil in Hlnorm. cbn in Hlnorm. lia. }
  { exact Hnorm0. }
  rewrite (bind_runs _ _ _ _ s6 (lift_runs _ _ _ Hcat)).
  rewrite Hnorm1 in Hc1. fold frames in Hc1.
  assert (Hlabels : concatenate bl = Ok (concat bl)).
  { apply concatenate_runs. intros Hnil. rewrite Hnil in Hsbl.
    apply (f_equal length) in Hsbl. unfold frames in Hsbl.
    cbn in Hsbl. rewrite length_map in Hsbl. lia. }
  rewrite (bind_runs _ _ _ _ s6 (lift_runs _ _ _ Hlabels)).
  assert (Hlexp : length (concat (exp_idx_parts shp)) = sum_list frames).
  { rewrite concat_length_sum, exp_idx_parts_lengths. reflexivity. }
  assert (Hlframe : length (concat (frame_idx_parts shp)) = sum_list frames).
  { rewrite concat_length_sum, frame_idx_parts_lengths. reflexivity. }
  assert (Hllabels : length (concat bl) = sum_list frames).
  { rewrite concat_length_sum, Hsbl. reflexivity. }
  assert (Hlamps : length (concat amps) = sum_list frames).
  { rewrite concat_length_sum, Hamps. reflexivity. }
  assert (Hassert :
    assert ((length (concat (frame_idx_parts shp)) =? length (concat (exp_idx_parts shp)))%nat
            && (length (concat (exp_idx_parts shp)) =? shape1 c)%nat) "" = Ok tt).
  { rewrite Hlexp, Hlframe, Hc1, Nat.eqb_refl. reflexivity. }
  rewrite (bind_runs _ _ _ _ s6 (lift_runs _ _ _ Hassert)).
  (* masks *)
  assert (Hlmask : length (inclusion_mask a (concat bl)) = sum_list frames).
  { rewrite inclusion_mask_map, length_map. exact Hllabels. }
  assert (Hmasked : exists masked,
            mask_columns c (inclusion_mask a (concat bl)) = Ok masked).
  { unfold mask_columns. rewrite Hlmask, Hc1, Nat.eqb_refl. eauto. }
  destruct Hmasked as [masked Hmasked].
  rewrite (bind_runs _ _ _ _ s6 (lift_runs _ _ _ Hmasked)).
  assert (Hgm : forall (A : Type) (d : list A), length d = sum_list frames ->
            get_masked d (inclusion_mask a (concat bl))
            = Ok (select (inclusion_mask a (concat bl)) d)).
  { intros A d Hd. unfold get_masked. rewrite Hlmask, Hd, Nat.eqb_refl. reflexivity. }
  rewrite (bind_runs _ _ _ _ s6 (lift_runs _ _ _ (Hgm _ _ Hlframe))).
  rewrite (bind_runs _ _ _ _ s6 (lift_runs _ _ _ (Hgm _ _ Hlexp))).
  assert (Hcamps : concatenate amps = Ok (concat amps)).
  { apply concatenate_runs. intros Hnil. rewrite Hnil in Hamps.
    apply (f_equal length) in Hamps. unfold frames in Hamps.
    cbn in Hamps. rewrite length_map in Hamps. lia. }
  rewrite (bind_runs _ _ _ _ s6 (lift_runs _ _ _ Hcamps)).
  rewrite (bind_runs _ _ _ _ s6 (lift_runs _ _ _ (Hgm _ _ Hlamps))).
  eexists. eexists. reflexivity.
Qed.

End Success.

(** * Runs on the sample recordings *)

(** ** The two short recordings, all stages and both masks on *)

Module ShortRun.
#[local] Existing Instance Demo.short_env.

Lemma override_order_on_short_recordings :
  match init Demo.paths Demo.short_args empty_store with
  | Returned s st =>
      exists gt finals,
        label_ground_truth Demo.short_args Demo.paths
          (shapes_of Demo.paths Demo.short_args)
          (initial_labels (shapes_of Demo.paths Demo.short_args)) = Ok gt /\
        data_behav_concat s = concat finals /\
        length finals = length Demo.paths /\
        forall i experiment, Demo.paths !! i = Some experiment ->
          exists g rest bound d frames,
            shapes_of Demo.paths Demo.short_args !! i
              = Some (length electrode_names, frames) /\
            gt !! i = Some g /\ length g = frames /\
            test_rest_mask s !! i = Some rest /\ length rest = frames /\
            test_boundary_mask s !! i = Some bound /\ length bound = frames /\
            finals !! i = Some d /\ length d = frames /\
            forall f lg, g !! f = Some lg ->
              gt_value experiment lg /\
              exists r b, rest !! f = Some r /\ bound !! f = Some b /\
                          d !! f = Some (final_label lg r b)
  | Raised _ _ => False
  end.
Proof.
  destruct (init Demo.paths Demo.short_args empty_store) as [s st|e st] eqn:Hrun.
  - exact (labels_follow_override_order _ _ _ _ Hrun).
  - vm_compute in Hrun. discriminate.
Defined.

Lemma alignment_on_short_recordings :
  match init Demo.paths Demo.short_args empty_store with
  | Returned s st =>
      let d := preprocess_dict s in
      shape1 (Exp_matrix d) = length (Experiment_idx d) /\
      length (Experiment_idx d) = length (Frame_idx d) /\
      length (Frame_idx d) = length (Frame_amps d)
  | Raised _ _ => False
  end.
Proof.
  destruct (init Demo.paths Demo.short_args empty_store) as [s st|e st] eqn:Hrun.
  - destruct (outputs_are_aligned _ _ _ _ Hrun) as (H1 & H2 & H3 & _). auto.
  - vm_compute in Hrun. discriminate.
Defined.


Lemma masks_on_short_recordings :
  match init Demo.paths Demo.short_args empty_store with
  | Returned s st =>
      Forall (fun l => l <> Behav_value Behav_REST)
             (select (data_mask s) (data_behav_concat s)) /\
      Forall (fun l => l <> Behav_value Behav_BOUNDARY)
             (select (data_mask s) (data_behav_concat s))
  | Raised _ _ => False
  end.
Proof.
  destruct (init Demo.paths Demo.short_args empty_store) as [s st|e st] eqn:Hrun.
  - destruct (inclusion_mask_drops_rest_and_boundary _ _ _ _ Hrun)
      as (_ & Hrest & Hbound & _).
    split; [apply Hrest | apply Hbound]; reflexivity.
  - vm_compute in Hrun. discriminate.
Defined.

Lemma scrub_on_short_recordings :
  match init Demo.paths Demo.short_args empty_store with
  | Returned s st => finite_entries (Exp_matrix (preprocess_dict s))
  | Raised _ _ => False
  end.
Proof.
  destruct (init Demo.paths Demo.short_args empty_store) as [s st|e st] eqn:Hrun.
  - apply (proj2 (nan_and_inf_are_scrubbed_at_the_end Demo.paths Demo.short_args)
                 _ _ Hrun).
  - vm_compute in Hrun. discriminate.
Defined.

Lemma normalized_list_on_short_recordings :
  match init Demo.paths Demo.short_args empty_store with
  | Returned s st =>
      Normalized_Spect_list (preprocess_dict s) = Spect_list (preprocess_dict s)
  | Raised _ _ => False
  end.
Proof.
  destruct (init Demo.paths Demo.short_args empty_store) as [s st|e st] eqn:Hrun.
  - apply (normalized_list_is_the_spectral_list _ _ _ _ Hrun). reflexivity.
  - vm_compute in Hrun. discriminate.
Defined.

Lemma ground_truth_on_short_recordings :
  match init Demo.paths Demo.short_args empty_store with
  | Returned s st =>
      exists gt,
        label_ground_truth Demo.short_args Demo.paths
          (shapes_of Demo.paths Demo.short_args)
          (initial_labels (shapes_of Demo.paths Demo.short_args)) = Ok gt /\
        gt !! 0%nat = Some [4; 4; 0; 0; 4; 4; 4; 4; 4; 4; 4; 4]
  | Raised _ _ => False
  end.
Proof.
  destruct (init Demo.paths Demo.short_args empty_store) as [s st|e st] eqn:Hrun.
  - destruct (ground_truth_labels_by_row_count _ _ _ _ Hrun) as (gt & Hgt & _).
    + vm_compute. discriminate.
    + exists gt. split; [exact Hgt|].
      vm_compute in Hgt. injection Hgt as <-. reflexivity.
  - vm_compute in Hrun. discriminate.
Defined.

Lemma boundary_on_short_recordings :
  match init Demo.paths Demo.short_args empty_store with
  | Returned s st =>
      forall i mask f m,
        Boundary_mask (preprocess_dict s) !! i = Some mask -> mask !! f = Some m ->
        m = (Z.of_nat f <? 2) || (Z.of_nat (length mask) - 2 <=? Z.of_nat f)
  | Raised _ _ => False
  end.
Proof.
  destruct (init Demo.paths Demo.short_args empty_store) as [s st|e st] eqn:Hrun.
  - intros i mask f m Hmask Hm.
    apply (boundary_mask_by_frame _ _ _ _ Hrun ltac:(vm_compute; discriminate)
             _ _ _ _ Hmask Hm).
  - vm_compute in Hrun. discriminate.
Defined.

End ShortRun.

(** ** The two short recordings without smoothing *)

Module UnsmoothedRun.
#[local] Existing Instance Demo.short_env.

Lemma raw_list_on_short_recordings :
  match init Demo.paths Demo.unsmoothed_args empty_store with
  | Returned s st =>
      Smooth_EEG_list (preprocess_dict s) = EEG_list (preprocess_dict s)
  | Raised _ _ => False
  end.
Proof.
  destruct (init Demo.paths Demo.unsmoothed_args empty_store) as [s st|e st] eqn:Hrun.
  - apply (unsmoothed_list_is_the_raw_list _ _ _ _ Hrun). reflexivity.
  - vm_compute in Hrun. discriminate.
Defined.

End UnsmoothedRun.

(** ** The round-trip scenario: 500 and 300 frames *)

Module RoundTrip.
#[local] Existing Instance Demo.long_env.

Lemma round_trip_on_long_recordings :
  match init Demo.paths Demo.round_trip_args empty_store with
  | Returned s st =>
      let d := preprocess_dict s in
      shape (Exp_matrix d) = (30%nat, 800%nat) /\
      Experiment_idx d = replicate 500 0 ++ replicate 300 1
  | Raised _ _ => False
  end.
Proof.
  destruct (init Demo.paths Demo.round_trip_args empty_store) as [s st|e st] eqn:Hrun.
  - destruct (round_trip_up_to_scrub _ _ _ _ Hrun eq_refl eq_refl eq_refl eq_refl eq_refl)
      as (refs & c & _ & _ & _ & _ & Hshape & Hidx).
    + vm_compute. reflexivity.
    + intros x. reflexivity.
    + auto.
  - vm_compute in Hrun. discriminate.
Defined.

End RoundTrip.

(** With every sample infinite the spectral arrays are infinite throughout,
    all amplitudes are equal and the construction succeeds; the feature
    matrix holds 0 where the concatenation of the spectral arrays holds
    [+inf]. *)
Lemma round_trip_fails_on_infinite_recordings :
  match init (H := Demo.infinite_env) Demo.paths Demo.round_trip_args empty_store with
  | Returned s st =>
      match concatenate_axis1
              (map (fun x => fst (wavelets (H := Demo.infinite_env)
                                           Demo.round_trip_args x))
                   (zip_with (loaded (H := Demo.infinite_env) 0) Demo.paths
                             (tf_bounds (H := Demo.infinite_env) Demo.paths None)))
      with
      | Ok c => Exp_matrix (preprocess_dict s) <> c
      | Raise _ => False
      end
  | Raised _ _ => False
  end.
Proof.
  vm_compute. intros Heq.
  apply (f_equal (fun c => PrimFloat.is_infinity
                             (nth 0 (nth 0 (rows c) []) 0%float))) in Heq.
  vm_compute in Heq. discriminate.
Qed.

(** ** A frame of zero amplitude *)

(** The second recording has zero samples: the frame amplitude is the
    logarithm of zero, and the construction raises at the threshold. *)
Lemma zero_amplitude_raises :
  PrimFloat.is_infinity
    (nth 0 (log_reduce (H := Demo.zero_env) Sample.sum
              (fst (wavelets (H := Demo.zero_env) Demo.plain_args
                      (loaded (H := Demo.zero_env) 0 "rest/b.csv" 8))))
         0%float) = true /\
  match init (H := Demo.zero_env) Demo.paths Demo.plain_args empty_store with
  | Returned _ _ => False
  | Raised e _ => e = ValueError
  end.
Proof. split; vm_compute; reflexivity. Qed.

(** ** Windows that end before they start *)

(** The first short recording can be read from frame 9 up to its end. *)
Lemma first_short_recording_readable :
  readable (H := Demo.short_env) 9 "walk/a.csv" 12.
Proof.
  split; [vm_compute; discriminate|]. split; [reflexivity|].
  intros name Hname.
  repeat (apply elem_of_cons in Hname as [->|Hname]);
    try (eexists; eexists; split; vm_compute; reflexivity).
  apply elem_of_nil in Hname. contradiction.
Qed.

(** With [ti = 100] and [tf = 50] the first experiment raises and no matrix
    is allocated; with [ti = 9] on the short recordings of 12 and 8 rows
    the second experiment raises, after the matrix of the first. *)
Lemma bad_windows_raise_before_allocation :
  (exists e st,
     init (H := Demo.long_env) Demo.paths Demo.bad_window_args empty_store
       = Raised e st /\
     st_arrays st = [] /\ e = AssertionError "tf must be greater that ti") /\
  (exists e st,
     init (H := Demo.short_env) Demo.paths Demo.late_start_args empty_store
       = Raised e st /\
     length (st_arrays st) = 1%nat /\
     e = AssertionError "tf must be greater that ti").
Proof.
  split.
  - destruct (tf_is_resolved_per_experiment (H := Demo.long_env)
                Demo.paths Demo.bad_window_args) as (_ & _ & _ & Hbound & _).
    destruct (Hbound [] "walk/a.csv"%string ["rest/b.csv"%string] 50 eq_refl)
      as (e & st & Hrun & Harr & He).
    + intros k p b Hp. rewrite lookup_nil in Hp. discriminate.
    + vm_compute. reflexivity.
    + vm_compute. discriminate.
    + exists e, st. split; [exact Hrun|]. split.
      * destruct (st_arrays st); [reflexivity | discriminate].
      * apply He. vm_compute. discriminate.
  - destruct (tf_is_resolved_per_experiment (H := Demo.short_env)
                Demo.paths Demo.late_start_args) as (_ & _ & _ & Hbound & _).
    destruct (Hbound ["walk/a.csv"%string] "rest/b.csv"%string [] 8 eq_refl)
      as (e & st & Hrun & Harr & He).
    + intros [|k] p b Hp Hb; [|destruct k; discriminate].
      injection Hp as <-. vm_compute in Hb. injection Hb as <-.
      exact first_short_recording_readable.
    + vm_compute. reflexivity.
    + vm_compute. discriminate.
    + exists e, st. split; [exact Hrun|]. split; [exact Harr|].
      apply He. vm_compute. discriminate.
Defined.

(** The bound of an experiment is the running minimum, not the minimum of
    the given [tf] and the experiment's own length: for the recordings of 8
    and 12 rows with [tf = 10] both bounds are 8, and the second raw matrix
    of the constructed object has 8 frames where [min(10, 12) = 10].  And a
    bound that is not above [ti] does not stop the constructor before every
    allocation: with [ti = 9] on the recordings of 12 and 8 rows the
    assertion fails at the second experiment, when the 4 x 3 matrix of the
    first is allocated. *)
Lemma later_bound_fails_after_an_allocation :
  tf_bounds (H := Demo.short_env) Demo.reversed_paths (tf Demo.capped_args) = [8; 8] /\
  Z.min 10 (recording_length (H := Demo.short_env) "walk/a.csv") = 10 /\
  match init (H := Demo.short_env) Demo.reversed_paths Demo.capped_args empty_store with
  | Returned s st =>
      st_lists st !! EEG_list (preprocess_dict s) = Some [0; 1]%nat /\
      shape <$> st_arrays st !! 1%nat = Some (4%nat, 8%nat)
  | Raised _ _ => False
  end /\
  match init (H := Demo.short_env) Demo.paths Demo.late_start_args empty_store with
  | Returned _ _ => False
  | Raised e st =>
      e = AssertionError "tf must be greater that ti" /\
      map shape (st_arrays st) = [(4%nat, 3%nat)]
  end.
Proof. vm_compute. repeat split; reflexivity. Qed.

(** ** Ground truth with the default clip length *)

(** One recording of 1000 frames, four electrodes and the default
    arguments ([clip_len = 100]): every frame is BOUNDARY, REST or NONE. *)
Lemma no_ground_truth_with_four_electrodes :
  match init (H := Demo.one_long_env) ["walk/a.csv"%string] default_args empty_store with
  | Returned s st =>
      Forall (fun l => l = Sample.behav_value Sample.BOUNDARY \/
                       l = Sample.behav_value Sample.REST \/
                       l = Sample.behav_value Sample.NONE)
             (data_behav_concat s)
  | Raised _ _ => False
  end.
Proof.
  destruct (init (H := Demo.one_long_env) ["walk/a.csv"%string] default_args empty_store)
    as [s st|e st] eqn:Hrun.
  - apply (few_electrodes_leave_no_ground_truth (H := Demo.one_long_env) _ _ _ _ Hrun).
    vm_compute. discriminate.
  - vm_compute in Hrun. discriminate.
Defined.

(** C3: one recording of 1000 frames under the path ["walk/a.csv"], four
    electrodes, the default arguments ([clip_len = 100]) and a ground-truth
    interval [(0, 1000)] labelled WALK for the folder ["walk"].  Frame 800
    lies inside the interval, more than [clip_len // 3] from its ends and
    more than [clip_len // 2] from both ends of the experiment, and is
    neither a rest nor a boundary frame; the constructor leaves it NONE, and
    labels no frame WALK at all. *)
Lemma ground_truth_is_not_assigned :
  match init (H := Demo.one_long_env) ["walk/a.csv"%string] default_args empty_store with
  | Returned s st =>
      data_behav_concat s !! 800%nat = Some (Sample.behav_value Sample.NONE) /\
      forallb (fun l => negb (l =? Sample.behav_value Sample.WALK))
              (data_behav_concat s) = true
  | Raised _ _ => False
  end.
Proof. vm_compute. split; reflexivity. Qed.

(** C1: on the same recording, frame 800 is eligible for a ground-truth
    label and for nothing else: the entry of the table for the folder
    ["walk"] applies to it, so that the table gives it WALK, it lies
    [clip_len // 2] and more from both ends of the experiment, and neither
    the rest mask nor the boundary mask selects it.  Its final label is
    NONE, not WALK: the frame does not keep its ground-truth label, because
    the ground-truth pass never reaches it. *)
Lemma eligible_frame_is_left_unlabelled :
  let a := default_args in
  map (gt_applies (H := Demo.one_long_env) a "walk/a.csv" 800)
      (label_gt_list (Externals := Demo.one_long_env)) = [true] /\
  gt_label (H := Demo.one_long_env) a "walk/a.csv" 800 = Some Sample.WALK /\
  (clip_len a / 2 <= 800 /\ 800 < 1000 - clip_len a / 2) /\
  Sample.behav_value Sample.NONE <> Sample.behav_value Sample.WALK /\
  match init (H := Demo.one_long_env) ["walk/a.csv"%string] a empty_store with
  | Returned s st =>
      length (data_behav_concat s) = 1000%nat /\
      test_rest_mask s !! 0%nat ≫= (fun mask => mask !! 800%nat) = Some false /\
      test_boundary_mask s !! 0%nat ≫= (fun mask => mask !! 800%nat) = Some false /\
      data_behav_concat s !! 800%nat = Some (Sample.behav_value Sample.NONE)
  | Raised _ _ => False
  end.
Proof.
  vm_compute. repeat split; try reflexivity; try discriminate.
Qed.

(** ** The accessor methods on the two short recordings *)

Module ShortAccess.
#[local] Existing Instance Demo.short_env.

Lemma len_on_short_recordings :
  match init Demo.paths Demo.short_args empty_store with
  | Returned s st =>
      _len_ s = Z.of_nat (shape0 (Exp_matrix (preprocess_dict s))) /\
      shape1 (data_concat s) = length (data_behav_concat s)
  | Raised _ _ => False
  end.
Proof.
  destruct (init Demo.paths Demo.short_args empty_store) as [s st|e st] eqn:Hrun.
  - destruct (len_is_the_number_of_bands _ _ _ _ Hrun) as (H1 & _ & H2). auto.
  - vm_compute in Hrun. discriminate.
Defined.

(** Index 1 is in range as a band (three bands) and as a frame (twenty
    frames); index 3 is not a band. *)
Lemma get_item_on_short_recordings :
  match init Demo.paths Demo.short_args empty_store with
  | Returned s st =>
      (exists row label,
         _get_item_ s 1 = Ok {| data := row; behav := label; idx := 1; fly_id := 0 |} /\
         Z.of_nat (length row) = Z.of_nat (length (data_behav_concat s))) /\
      _get_item_ s 3 = Raise IndexError
  | Raised _ _ => False
  end.
Proof.
  destruct (init Demo.paths Demo.short_args empty_store) as [s st|e st] eqn:Hrun.
  - destruct (get_item_pairs_a_band_with_a_frame_label _ _ _ _ 1 Hrun) as [Hin _].
    destruct (get_item_pairs_a_band_with_a_frame_label _ _ _ _ 3 Hrun) as [_ Hout].
    vm_compute in Hrun. injection Hrun as <- <-. split.
    + destruct Hin as (row & label & Hitem & _ & Hlen & _);
        [vm_compute; split; [discriminate | reflexivity]|].
      exists row, label. split; [exact Hitem | exact Hlen].
    + apply Hout. right. vm_compute. discriminate.
  - vm_compute in Hrun. discriminate.
Defined.

Lemma get_data_on_short_recordings :
  match init Demo.paths Demo.short_args empty_store with
  | Returned s st =>
      _get_data_ s (Some "walk"%string) None 0 900 = Raise AttributeError
  | Raised _ _ => False
  end.
Proof.
  destruct (init Demo.paths Demo.short_args empty_store) as [s st|e st] eqn:Hrun.
  - apply (get_data_never_returns _ _ _ _ (Some "walk"%string) None 0 900 Hrun).
  - vm_compute in Hrun. discriminate.
Defined.

End ShortAccess.

(** ** The stages on the two short recordings *)

Module ShortStages.
#[local] Existing Instance Demo.short_env.

(** The second experiment has eight frames, the first twelve. *)
Lemma bounds_on_short_recordings :
  match init Demo.paths Demo.short_args empty_store with
  | Returned s st =>
      exists refs eegs,
        holds st (EEG_list (preprocess_dict s)) refs eegs /\
        forall x y, eegs !! 0%nat = Some x -> eegs !! 1%nat = Some y ->
                    (shape1 y <= shape1 x)%nat
  | Raised _ _ => False
  end.
Proof.
  destruct (init Demo.paths Demo.short_args empty_store) as [s st|e st] eqn:Hrun.
  - destruct (later_experiments_are_never_longer _ _ _ _ Hrun)
      as (refs & eegs & Hholds & _ & Hmono).
    exists refs, eegs. split; [exact Hholds|].
    intros x y Hx Hy. apply (Hmono 0%nat 1%nat x y); [lia | exact Hx | exact Hy].
  - vm_compute in Hrun. discriminate.
Defined.

(** Seven frames are retained; each column of the feature matrix is the
    spectrum of the frame that the retained identifiers name. *)
Lemma columns_on_short_recordings :
  match init Demo.paths Demo.short_args empty_store with
  | Returned s st =>
      let d := preprocess_dict s in
      Experiment_idx d = [0; 0; 0; 0; 1; 1; 1] /\
      Frame_idx d = [2; 3; 8; 9; 2; 3; 5] /\
      exists refs spect,
        holds st (Spect_list d) refs spect /\
        forall k e f,
          Experiment_idx d !! k = Some e -> Frame_idx d !! k = Some f ->
          exists w, spect !! Z.to_nat e = Some w /\
                    column (Exp_matrix d) k = map scrub_entry (column w (Z.to_nat f))
  | Raised _ _ => False
  end.
Proof.
  destruct (init Demo.paths Demo.short_args empty_store) as [s st|e st] eqn:Hrun.
  - destruct (retained_column_is_a_frame_spectrum _ _ _ _ Hrun)
      as (refs & spect & Hholds & Hcol).
    cbn zeta. split; [|split].
    + vm_compute in Hrun. injection Hrun as <- _. reflexivity.
    + vm_compute in Hrun. injection Hrun as <- _. reflexivity.
    + exists refs, spect. split; [exact Hholds|]. intros k e' f He Hf.
      destruct (Hcol k e' f He Hf) as (path & w & amp & _ & _ & _ & Hw & _ & Hc & _).
      exists w. split; [exact Hw | exact Hc].
  - vm_compute in Hrun. discriminate.
Defined.

Lemma order_on_short_recordings :
  match init Demo.paths Demo.short_args empty_store with
  | Returned s st =>
      let d := preprocess_dict s in
      forall e f e' f',
        Experiment_idx d !! 3%nat = Some e -> Frame_idx d !! 3%nat = Some f ->
        Experiment_idx d !! 4%nat = Some e' -> Frame_idx d !! 4%nat = Some f' ->
        e < e' \/ (e = e' /\ f < f')
  | Raised _ _ => False
  end.
Proof.
  destruct (init Demo.paths Demo.short_args empty_store) as [s st|e st] eqn:Hrun.
  - cbn zeta. intros e0 f e' f'.
    apply (retained_frames_keep_their_order _ _ _ _ Hrun 3%nat 4%nat). lia.
  - vm_compute in Hrun. discriminate.
Defined.

(** The raw list keeps the recordings, of twelve rows each from row 0 on,
    beside the smoothed copies. *)
Lemma smoothed_copy_on_short_recordings :
  match init Demo.paths Demo.short_args empty_store with
  | Returned s st =>
      let d := preprocess_dict s in
      Smooth_EEG_list d <> EEG_list d /\
      exists erefs srefs,
        holds st (EEG_list d) erefs
              (zip_with (loaded 0) Demo.paths (tf_bounds Demo.paths None)) /\
        holds st (Smooth_EEG_list d) srefs
              (map center_rows
                 (map smoothed
                    (zip_with (loaded 0) Demo.paths (tf_bounds Demo.paths None))))
  | Raised _ _ => False
  end.
Proof.
  destruct (init Demo.paths Demo.short_args empty_store) as [s st|e st] eqn:Hrun.
  - destruct (smoothed_list_is_a_filtered_copy _ _ _ _ Hrun eq_refl)
      as (Hne & erefs & srefs & He & Hs & _).
    cbn zeta. split; [exact Hne|]. exists erefs, srefs. split; [exact He | exact Hs].
  - vm_compute in Hrun. discriminate.
Defined.

Lemma regular_short_recordings :
  Forall (fun exp => df_regular (read_csv exp)) Demo.paths.
Proof.
  repeat constructor.
  - exists 12%nat. repeat constructor.
  - exists 8%nat. repeat constructor.
Qed.

Lemma window_on_short_recordings :
  match init Demo.paths Demo.short_args empty_store with
  | Returned s st =>
      exists refs eegs,
        holds st (EEG_list (preprocess_dict s)) refs eegs /\
        length eegs = 2%nat /\
        forall x, eegs !! 1%nat = Some x ->
          exists series row,
            df_getitem (read_csv "rest/b.csv") "AF7" = Ok series /\
            rows x !! 1%nat = Some row /\ Z.of_nat (length row) = 8 /\
            forall f, (f < length row)%nat -> row !! f = series !! f
  | Raised _ _ => False
  end.
Proof.
  destruct (init Demo.paths Demo.short_args empty_store) as [s st|e st] eqn:Hrun.
  - destruct (raw_rows_are_the_recorded_window _ _ _ _ Hrun ltac:(vm_compute; discriminate)
                regular_short_recordings (or_introl eq_refl))
      as (refs & eegs & Hholds & Hlen & Hrows).
    exists refs, eegs. split; [exact Hholds|]. split; [exact Hlen|].
    intros x Hx.
    destruct (Hrows 1%nat "rest/b.csv"%string 8 x 1%nat "AF7"%string
                eq_refl eq_refl Hx eq_refl)
      as (series & row & Hser & Hrow & Hl & _ & Hf).
    exists series, row. repeat split; assumption.
  - vm_compute in Hrun. discriminate.
Defined.

(** The same recordings with and without normalization. *)
Lemma labels_without_normalization :
  match init Demo.paths Demo.short_args empty_store,
        init Demo.paths (with_normalize false Demo.short_args) empty_store with
  | Returned s st, Returned s' st' =>
      data_behav_concat s' = data_behav_concat s /\
      frame_amp_list s' = frame_amp_list s /\
      Frame_idx (preprocess_dict s') = Frame_idx (preprocess_dict s)
  | _, _ => False
  end.
Proof.
  destruct (init Demo.paths Demo.short_args empty_store) as [s st|e st] eqn:Hrun;
    [|vm_compute in Hrun; discriminate].
  destruct (init Demo.paths (with_normalize false Demo.short_args) empty_store)
    as [s' st'|e st'] eqn:Hrun'; [|vm_compute in Hrun'; discriminate].
  destruct (normalization_leaves_the_labels_alone _ _ _ _ _ _ _ Hrun Hrun')
    as (H1 & _ & H3 & _ & _ & _ & H7 & _).
  auto.
Defined.

End ShortStages.

(** ** The two short recordings without masks *)

Module UnmaskedRun.
#[local] Existing Instance Demo.short_env.

Lemma every_frame_on_short_recordings :
  match init Demo.paths Demo.unsmoothed_args empty_store with
  | Returned s st =>
      let d := preprocess_dict s in
      Z.of_nat (shape1 (Exp_matrix d)) = 20 /\
      Exp_matrix d = scrub (data_concat s) /\ Frame_idx d = frame_idx s
  | Raised _ _ => False
  end.
Proof.
  destruct (init Demo.paths Demo.unsmoothed_args empty_store) as [s st|e st] eqn:Hrun.
  - destruct (without_masks_every_frame_is_kept _ _ _ _ Hrun) as (_ & _ & Hall).
    destruct (Hall eq_refl eq_refl) as (H1 & H2 & _ & _ & H5). auto.
  - vm_compute in Hrun. discriminate.
Defined.

End UnmaskedRun.

(** ** A boundary length of zero *)

Module ZeroBound.
#[local] Existing Instance Demo.short_env.

Lemma all_boundary_with_zero_bound_len :
  match init Demo.paths Demo.zero_bound_args empty_store with
  | Returned s st =>
      Forall (fun l => l = Behav_value Behav_BOUNDARY) (data_behav_concat s) /\
      shape1 (Exp_matrix (preprocess_dict s)) = 0%nat
  | Raised _ _ => False
  end.
Proof.
  destruct (init Demo.paths Demo.zero_bound_args empty_store) as [s st|e st] eqn:Hrun.
  - destruct (short_experiments_are_all_boundary _ _ _ _ Hrun (or_introl eq_refl))
      as [Hall Hempty].
    destruct (Hempty eq_refl) as (H0 & _). auto.
  - vm_compute in Hrun. discriminate.
Defined.

End ZeroBound.

(** ** The labels of the two short recordings *)

Module ShortLabels.
#[local] Existing Instance Demo.short_env.

Lemma labels_on_short_recordings :
  match init Demo.paths Demo.short_args empty_store with
  | Returned s st =>
      np_has_int = true /\ Forall in_int64 (data_behav_concat s)
  | Raised _ _ => False
  end.
Proof.
  destruct (init Demo.paths Demo.short_args empty_store) as [s st|e st] eqn:Hrun.
  - destruct (labels_are_64_bit _ _ _ _ Hrun) as (Hint & _ & _ & _ & Hall). auto.
  - vm_compute in Hrun. discriminate.
Defined.

End ShortLabels.

(** ** A recording without the column of the first electrode *)

Lemma missing_column_raises :
  exists st,
    init (H := Demo.missing_env) Demo.paths Demo.short_args empty_store
    = Raised KeyError st.
Proof.
  destruct (every_electrode_needs_a_column (H := Demo.missing_env)
              Demo.paths Demo.short_args) as [Hmissing _].
  apply (Hmissing "walk/a.csv"%string ["rest/b.csv"%string] "TP9"%string
           ["AF7"; "AF8"; "TP10"]%string eq_refl eq_refl).
  - vm_compute. discriminate.
  - vm_compute. reflexivity.
  - reflexivity.
Defined.

(** ** The preconditions of a construction on the two short recordings *)

Module ShortReturn.
#[local] Existing Instance Demo.short_env.

Lemma short_recordings_ok : Forall recording_ok Demo.paths.
Proof.
  repeat constructor.
  - vm_compute. discriminate.
  - exists 12%nat. repeat constructor.
  - intros name Hname.
    repeat (apply elem_of_cons in Hname as [->|Hname]);
      try (eexists; vm_compute; reflexivity).
    apply elem_of_nil in Hname. contradiction.
  - vm_compute. discriminate.
  - exists 8%nat. repeat constructor.
  - intros name Hname.
    repeat (apply elem_of_cons in Hname as [->|Hname]);
      try (eexists; vm_compute; reflexivity).
    apply elem_of_nil in Hname. contradiction.
Qed.

Lemma short_rows_filtered :
  Forall filtered_ok (raw_matrices Demo.paths Demo.short_args).
Proof.
  let v := eval vm_compute in (raw_matrices Demo.paths Demo.short_args) in
  replace (raw_matrices Demo.paths Demo.short_args) with v by (vm_compute; reflexivity).
  repeat (constructor; [repeat (constructor; [eexists; split; vm_compute; reflexivity|])|]);
    constructor.
Qed.

Lemma short_thresholds :
  Forall2 (fun exp amp =>
             exists thr, threshold_otsu amp (Z.of_nat (String.length exp) / 2) = Ok thr)
          Demo.paths (amplitudes Demo.paths Demo.short_args).
Proof.
  let v := eval vm_compute in (amplitudes Demo.paths Demo.short_args) in
  replace (amplitudes Demo.paths Demo.short_args) with v by (vm_compute; reflexivity).
  repeat (constructor; [eexists; vm_compute; reflexivity|]). constructor.
Qed.

Lemma constructor_returns_on_short_recordings :
  exists s st, init Demo.paths Demo.short_args empty_store = Returned s st.
Proof.
  apply (constructor_returns Demo.paths Demo.short_args 3).
  - reflexivity.
  - split; [|split; [|split]];
      [ vm_compute; split; discriminate
      | vm_compute; split; discriminate
      | vm_compute; split; discriminate
      | ].
    repeat (constructor; [vm_compute; split; discriminate|]). constructor.
  - discriminate.
  - exact short_recordings_ok.
  - vm_compute. discriminate.
  - vm_compute. discriminate.
  - repeat constructor; vm_compute; first [reflexivity | discriminate].
  - intros _. exact short_rows_filtered.
  - intros y. split; [|reflexivity]. unfold shape0. cbn. apply length_map.
  - discriminate.
  - exact short_thresholds.
Defined.

End ShortReturn.
